(** * A shallow embedding of [server.js]: the aggregation server of the
      3D-model cross-search application.

    The development follows the layout of the source file:
    - [Js]       the JavaScript built-ins the server relies on
                 ([parseInt], [||], [split], [sort], [slice], property
                 lookup through [Object.prototype], ...);
    - [Adapters] the six search adapters and the six fetch-popular
                 adapters, as functions of what the upstream answered;
    - [Http]     the query parameters the routes receive and the
                 responses they send;
    - [Routes]   the Express handlers [/api/search], [/api/search/:site]
                 and [/api/popular], with the cache of popular results
                 threaded explicitly: first on parameters that are
                 strings, then, for the two routes that split [sites],
                 on the parameters as they arrive;
    - [ImageProxy] the handler [/api/image] and its cache;
    - [Uri], [SearchUrls] [encodeURIComponent] and the handler
                 [/api/search-urls];
    - [Records], [Invariants] what the routes hand out and what the
                 caches hold;
    - the properties of the specification, stated on these definitions.

    Conventions.  JavaScript strings are [string]s (exact on ASCII);
    numbers that the server computes with are integers, so they are [Z];
    a computation that may throw returns an [option] ([None] = an
    exception propagates) and [try { .. } catch { .. }] is a [match] on
    it.  [Date.now()] readings and upstream answers are inputs of the
    handlers: the properties quantify over all of them. *)

From stdpp Require Import gmap strings list fin_maps pretty.
From Stdlib Require Import ZArith Ascii.

Local Open Scope string_scope.
Local Open Scope Z_scope.

(* ===================================================================== *)
(** * JavaScript built-ins *)
(* ===================================================================== *)

Module Js.

(** ** Strings *)

(** [s.startsWith(p)] *)
Definition startsWith (s p : string) : bool := String.prefix p s.

(** [s.includes(p)] *)
Fixpoint includes (s p : string) : bool :=
  String.prefix p s ||
  match s with
  | EmptyString => false
  | String _ s' => includes s' p
  end.

(** [s.endsWith(p)] *)
Definition endsWith (s p : string) : bool :=
  String.prefix (String.rev p) (String.rev s).

(** [s.split(',')]: one more piece than there are commas. *)
Fixpoint split_comma (s : string) : list string :=
  match s with
  | EmptyString => [EmptyString]
  | String c s' =>
      match split_comma s' with
      | [] => [EmptyString]
      | p :: ps => if Ascii.eqb c ","%char then EmptyString :: p :: ps
                   else String c p :: ps
      end
  end.

(** [a.join(',')] *)
Definition join_comma (a : list string) : string := String.concat "," a.

(** The default comparison of [sort] orders strings by their UTF-16 code
    units.  Read on the UTF-8 form of the strings that is the order of
    the octets, except that a character beyond U+FFFF (first octet F0 to
    F4), which UTF-16 writes with two surrogates, comes before the
    characters from U+E000 to U+FFFF (first octet EE or EF).
    [unit_rank] moves these first octets accordingly. *)
Definition unit_rank (c : Ascii.ascii) : Ascii.ascii :=
  let n := Ascii.N_of_ascii c in
  Ascii.ascii_of_N
    (if (240 <=? n) && (n <=? 244) then n - 2
     else if (n =? 238) || (n =? 239) then n + 5
     else n)%N.

Fixpoint unit_key (s : string) : string :=
  match s with
  | EmptyString => EmptyString
  | String c rest => String (unit_rank c) (unit_key rest)
  end.

Definition code_unit_leb (x y : string) : bool :=
  String.leb (unit_key x) (unit_key y).

(** [a.sort()] with the default comparison.  The sorted array is
    determined by its elements, so the engine's algorithm does not
    matter; this is an insertion sort. *)
Fixpoint sort_insert (x : string) (a : list string) : list string :=
  match a with
  | [] => [x]
  | y :: a' => if code_unit_leb x y then x :: y :: a' else y :: sort_insert x a'
  end.

Definition sort (a : list string) : list string := foldr sort_insert [] a.

(** [a.slice(0, n)]: a negative [n] counts from the end of the array. *)
Definition slice0 {A} (a : list A) (n : Z) : list A :=
  if n <? 0 then take (Z.to_nat (Z.of_nat (length a) + n)) a
  else take (Z.to_nat n) a.

(** ** [parseInt] *)

(** White space that [parseInt] skips: the white space and the line
    terminators of the language, read on the UTF-8 form of the string.
    In ASCII these are TAB, LF, VT, FF, CR and the space. *)
Definition is_space (c : Ascii.ascii) : bool :=
  let n := Ascii.nat_of_ascii c in
  (Nat.eqb n 9 || Nat.eqb n 10 || Nat.eqb n 11 || Nat.eqb n 12
   || Nat.eqb n 13 || Nat.eqb n 32)%bool.

Definition octet (c : Ascii.ascii) : Z := Z.of_nat (Ascii.nat_of_ascii c).

(** U+00A0, in two octets. *)
Definition is_space2 (c1 c2 : Ascii.ascii) : bool :=
  (octet c1 =? 194) && (octet c2 =? 160).

(** U+1680, U+2000 to U+200A, U+2028, U+2029, U+202F, U+205F, U+3000 and
    U+FEFF, in three octets. *)
Definition is_space3 (c1 c2 c3 : Ascii.ascii) : bool :=
  let '(b1, b2, b3) := (octet c1, octet c2, octet c3) in
  ((b1 =? 225) && (b2 =? 154) && (b3 =? 128))
  || ((b1 =? 226) && (b2 =? 128)
      && (((128 <=? b3) && (b3 <=? 138)) || (b3 =? 168) || (b3 =? 169)
          || (b3 =? 175)))
  || ((b1 =? 226) && (b2 =? 129) && (b3 =? 159))
  || ((b1 =? 227) && (b2 =? 128) && (b3 =? 128))
  || ((b1 =? 239) && (b2 =? 187) && (b3 =? 191)).

Fixpoint skip_spaces (s : string) : string :=
  match s with
  | String c1 s1 =>
      if is_space c1 then skip_spaces s1
      else
        match s1 with
        | String c2 s2 =>
            if is_space2 c1 c2 then skip_spaces s2
            else
              match s2 with
              | String c3 s3 => if is_space3 c1 c2 c3 then skip_spaces s3 else s
              | EmptyString => s
              end
        | EmptyString => s
        end
  | EmptyString => s
  end.

Definition digit_value (c : Ascii.ascii) : option Z :=
  let n := Z.of_nat (Ascii.nat_of_ascii c) in
  if (48 <=? n) && (n <=? 57) then Some (n - 48)
  else if (97 <=? n) && (n <=? 102) then Some (n - 87)
  else if (65 <=? n) && (n <=? 70) then Some (n - 55)
  else None.

Definition digit_in_radix (R : Z) (c : Ascii.ascii) : option Z :=
  match digit_value c with
  | Some d => if d <? R then Some d else None
  | None => None
  end.

(** The longest prefix of digits of radix [R]; [None] when it is empty. *)
Fixpoint parse_digits (R : Z) (s : string) (acc : option Z) : option Z :=
  match s with
  | EmptyString => acc
  | String c s' =>
      match digit_in_radix R c with
      | Some d => parse_digits R s' (Some (R * default 0 acc + d))
      | None => acc
      end
  end.

(** [parseInt(s)] without a radix; [None] is [NaN].  The integer is the
    one the digits write; the engine gives the nearest double, which is
    the same up to 2^53. *)
Definition parseInt (s : string) : option Z :=
  let s1 := skip_spaces s in
  let '(neg, s2) :=
    match s1 with
    | String "-"%char r => (true, r)
    | String "+"%char r => (false, r)
    | _ => (false, s1)
    end in
  let '(R, s3) :=
    match s2 with
    | String "0"%char (String "x"%char r) => (16, r)
    | String "0"%char (String "X"%char r) => (16, r)
    | _ => (10, s2)
    end in
  match parse_digits R s3 None with
  | Some n => Some (if neg then - n else n)
  | None => None
  end.

(** [parseInt(v) || d]: [NaN] and [0] are falsy. *)
Definition parseInt_or (v : option string) (d : Z) : Z :=
  match v with
  | None => d                       (* the destructuring default, a number *)
  | Some s =>
      match parseInt s with
      | Some n => if n =? 0 then d else n
      | None => d
      end
  end.

(** ** [decodeURIComponent] *)

Definition hex_byte (h1 h2 : Ascii.ascii) : option Z :=
  match digit_value h1, digit_value h2 with
  | Some a, Some b => Some (16 * a + b)
  | _, _ => None
  end.

Definition byte_char (b : Z) : Ascii.ascii := Ascii.ascii_of_nat (Z.to_nat b).

(** For the first octet of an escaped multi-octet character: how many
    continuation octets follow and the range of the first of them, which
    rules out over-long forms, surrogates and code points above U+10FFFF.
    [None] for an octet that cannot start a character. *)
Definition utf8_lead (b : Z) : option (nat * Z * Z) :=
  if (194 <=? b) && (b <=? 223) then Some (1%nat, 128, 191)
  else if b =? 224 then Some (2%nat, 160, 191)
  else if (225 <=? b) && (b <=? 236) then Some (2%nat, 128, 191)
  else if b =? 237 then Some (2%nat, 128, 159)
  else if (238 <=? b) && (b <=? 239) then Some (2%nat, 128, 191)
  else if b =? 240 then Some (3%nat, 144, 191)
  else if (241 <=? b) && (b <=? 243) then Some (3%nat, 128, 191)
  else if b =? 244 then Some (3%nat, 128, 143)
  else None.

(** [pending] continuation octets are still owed, the next one within
    [lo..hi]; each must itself be written as an escape. *)
Fixpoint decode_from (s : string) (pending : nat) (lo hi : Z) : option string :=
  match s with
  | EmptyString => if Nat.eqb pending 0 then Some EmptyString else None
  | String "%"%char (String h1 (String h2 rest)) =>
      match hex_byte h1 h2 with
      | None => None
      | Some b =>
          match pending with
          | O =>
              if b <? 128
              then String (byte_char b) <$> decode_from rest 0 128 191
              else match utf8_lead b with
                   | Some (n, lo', hi') =>
                       String (byte_char b) <$> decode_from rest n lo' hi'
                   | None => None
                   end
          | S n =>
              if (lo <=? b) && (b <=? hi)
              then String (byte_char b) <$> decode_from rest n 128 191
              else None
          end
      end
  | String "%"%char _ => None
  | String c rest =>
      if Nat.eqb pending 0 then String c <$> decode_from rest 0 128 191
      else None
  end.

(** [decodeURIComponent(s)]; [None] when it throws [URIError]. *)
Definition decodeURIComponent (s : string) : option string :=
  decode_from s 0 128 191.

(** ** Values parsed from JSON

    A number is held as an integer, [JNum], or, for a literal beyond the
    range of doubles such as [1e999], which [JSON.parse] reads as
    [Infinity] or [-Infinity], as [JInf].  The adapters only test numbers
    for truth, compare them with 0, copy them and write them into
    template literals; in all but the last a finite number with a
    fraction behaves as any non-zero integer of its sign, and a template
    literal writes the integers up to 2^53 in decimal digits. *)

#[local] Unset Elimination Schemes.
Inductive JsVal :=
| JUndef
| JNull
| JBool (b : bool)
| JNum (n : Z)
| JInf (negative : bool)
| JStr (s : string)
| JArr (a : list JsVal)
| JObj (fields : list (string * JsVal)).
#[local] Set Elimination Schemes.

Definition truthy (v : JsVal) : bool :=
  match v with
  | JUndef | JNull | JBool false => false
  | JNum n => negb (n =? 0)
  | JStr s => negb (String.eqb s EmptyString)
  | _ => true
  end.

(** [a || b] *)
Definition or (a b : JsVal) : JsVal := if truthy a then a else b.

Definition nullish (v : JsVal) : bool :=
  match v with JUndef | JNull => true | _ => false end.

Definition isArray (v : JsVal) : bool :=
  match v with JArr _ => true | _ => false end.

(** An own property of a parsed object ([JSON.parse] keeps one binding
    per key). *)
Fixpoint field (fs : list (string * JsVal)) (k : string) : JsVal :=
  match fs with
  | [] => JUndef
  | (k', v) :: fs' => if String.eqb k k' then v else field fs' k
  end.

(** [v.k] for the property names the adapters read.  Reading a property
    of [null] or [undefined] throws.  None of the names the adapters read
    is inherited from a prototype, with one exception: [search] on a
    string is a built-in function, which the only use of it reads
    [results] from, and that is [undefined] as it is here. *)
Definition get (v : JsVal) (k : string) : option JsVal :=
  match v with
  | JUndef | JNull => None
  | JObj fs => Some (field fs k)
  | JArr a =>
      Some (if String.eqb k "length" then JNum (Z.of_nat (length a)) else JUndef)
  | JStr s =>
      Some (if String.eqb k "length" then JNum (Z.of_nat (String.length s))
            else JUndef)
  | _ => Some JUndef
  end.

(** [v?.k] *)
Definition oget (v : JsVal) (k : string) : JsVal := default JUndef (get v k).

(** [v?.[0]] *)
Definition oget0 (v : JsVal) : JsVal :=
  match v with
  | JArr a => default JUndef (head a)
  | JStr (String c _) => JStr (String c EmptyString)
  | JObj fs => field fs "0"
  | _ => JUndef
  end.

(** Whether a parsed object has an own property [k]. *)
Definition has_own (fs : list (string * JsVal)) (k : string) : bool :=
  existsb (fun kv => String.eqb k (fst kv)) fs.

(** The string a template literal interpolates for [v]; [None] when the
    conversion throws [TypeError].  An array is joined with commas; an
    object is written by the [toString] it inherits, unless it has an own
    property of that name: a parsed value is never a function, and the
    [valueOf] that is tried next gives the object back or is not a
    function either. *)
Fixpoint to_string (v : JsVal) : option string :=
  match v with
  | JUndef => Some "undefined"
  | JNull => Some "null"
  | JBool b => Some (if b then "true" else "false")
  | JNum n => Some (pretty n)
  | JInf negative => Some (if negative then "-Infinity" else "Infinity")
  | JStr s => Some s
  | JArr a =>
      join_comma <$>
        mapM (fun x => if nullish x then Some EmptyString else to_string x) a
  | JObj fs => if has_own fs "toString" then None else Some "[object Object]"
  end.

(** [JSON.parse(JSON.stringify(v))], what a client reads of a value that
    [res.json] writes: a number that is not finite is written as [null],
    as is an [undefined] element of an array, and an [undefined] property
    is left out. *)
Fixpoint sent (v : JsVal) : JsVal :=
  match v with
  | JInf _ => JNull
  | JArr a =>
      JArr (List.map (fun x => match sent x with JUndef => JNull | w => w end) a)
  | JObj fs =>
      JObj (List.filter (fun kv => match snd kv with JUndef => false | _ => true end)
              (List.map (fun kv => (fst kv, sent (snd kv))) fs))
  | _ => v
  end.

(** [`${prefix}${v}`] *)
Definition template (prefix : string) (v : JsVal) : option JsVal :=
  (fun s => JStr (prefix +:+ s)) <$> to_string v.

(** [a || `${prefix}${v}`]: the template literal is evaluated only when
    [a] is falsy. *)
Definition or_template (a : JsVal) (prefix : string) (v : JsVal) : option JsVal :=
  if truthy a then Some a else template prefix v.

(** [a.map(f)]: throws when [a] is not an array or when [f] throws. *)
Definition array_map {B} (f : JsVal → option B) (a : JsVal) : option (list B) :=
  match a with
  | JArr items => mapM f items
  | _ => None
  end.

(** [a.slice(0, n).map(f)] *)
Definition array_slice_map {B} (f : JsVal → option B) (a : JsVal) (n : Z)
  : option (list B) :=
  match a with
  | JArr items => mapM f (slice0 items n)
  | _ => None
  end.

(** ** Properties inherited from [Object.prototype]

    The adapter tables of the routes are object literals, so [table[key]]
    also finds what every object inherits. *)

Inductive ObjectPrototype :=
| P_constructor | P_defineGetter | P_defineSetter | P_hasOwnProperty
| P_lookupGetter | P_lookupSetter | P_isPrototypeOf
| P_propertyIsEnumerable | P_toString | P_valueOf | P_proto
| P_toLocaleString.

Definition prototype_names : list (string * ObjectPrototype) :=
  [ ("constructor", P_constructor);
    ("__defineGetter__", P_defineGetter);
    ("__defineSetter__", P_defineSetter);
    ("hasOwnProperty", P_hasOwnProperty);
    ("__lookupGetter__", P_lookupGetter);
    ("__lookupSetter__", P_lookupSetter);
    ("isPrototypeOf", P_isPrototypeOf);
    ("propertyIsEnumerable", P_propertyIsEnumerable);
    ("toString", P_toString);
    ("valueOf", P_valueOf);
    ("__proto__", P_proto);
    ("toLocaleString", P_toLocaleString) ].

Fixpoint assoc {A} (l : list (string * A)) (k : string) : option A :=
  match l with
  | [] => None
  | (k', v) :: l' => if String.eqb k k' then Some v else assoc l' k
  end.

Definition inherited (key : string) : option ObjectPrototype :=
  assoc prototype_names key.

End Js.

(* ===================================================================== *)
(** * Source adapters *)
(* ===================================================================== *)

Module Adapters.
Import Js.

(** The record every adapter produces.  A field copied from the upstream
    payload keeps whatever JSON value the upstream put there. *)
Record NormalizedRecord := {
  title : JsVal;
  creator : JsVal;
  thumbnail : JsVal;
  url : JsVal;
  likes : JsVal;
  downloads : JsVal;
  source : string
}.

(** What one [fetch] / [safeFetch] call comes back with.  [T] is the view
    of the body that the adapter goes on to use. *)
Inductive Reply (T : Type) :=
| NetFail                                   (* the promise rejects: network
                                               error, or abort after 20 s *)
| Response (status : Z) (body : option T).  (* [body = None]: reading the
                                               body ([text()], [json()],
                                               [arrayBuffer()]) rejects *)
Arguments NetFail {T}.
Arguments Response {T} status body.

(** [response.ok] *)
Definition ok (status : Z) : bool := (200 <=? status) && (status <=? 299).

(** [try { ... } catch (error) { return []; }] *)
Definition or_empty (r : option (list NormalizedRecord)) : list NormalizedRecord :=
  default [] r.

(** [a || b] where [a] is a string or [undefined] *)
Definition sor (a : option string) (b : string) : string :=
  match a with
  | Some s => if String.eqb s EmptyString then b else s
  | None => b
  end.

Definition array_length (v : JsVal) : Z :=
  match v with JArr a => Z.of_nat (length a) | _ => 0 end.

(** [Array.isArray(v) && v.length > 0] *)
Definition nonempty_array (v : JsVal) : bool := isArray v && (0 <? array_length v).

(** ** The item mappers

    Each reads properties of [item], which throws when the item is
    [null]. *)

Definition printables_record (item : JsVal) : option NormalizedRecord :=
  if nullish item then None else
  let filePath := oget (oget item "image") "filePath" in
  thumbnail ← (if truthy filePath
               then template "https://media.printables.com/" filePath
               else Some (JStr ""));
  id ← to_string (oget item "id");
  slug ← to_string (or (oget item "slug") (JStr ""));
  Some {|
    title := or (oget item "name") (JStr "Untitled");
    creator := or (oget (oget item "user") "publicUsername") (JStr "Unknown");
    thumbnail := thumbnail;
    url := JStr ("https://www.printables.com/model/" +:+ id +:+ "-" +:+ slug);
    likes := or (oget item "likesCount") (JNum 0);
    downloads := or (oget item "downloadCount") (JNum 0);
    source := "printables"
  |}.

Definition thangs_record (item : JsVal) : option NormalizedRecord :=
  if nullish item then None else
  url ← or_template (or (oget item "publicUrl") (oget item "url"))
         "https://thangs.com/model/" (or (oget item "id") (oget item "modelId"));
  Some {|
    title := or (or (oget item "name") (oget item "title")) (JStr "Untitled");
    creator := or (or (or (oget (oget item "owner") "username")
                          (oget item "ownerUsername"))
                      (oget item "creator"))
                  (JStr "Unknown");
    thumbnail := or (or (or (oget item "thumbnailUrl") (oget item "previewUrl"))
                        (oget item "thumbnail"))
                    (JStr "");
    url := url;
    likes := or (or (oget item "likes") (oget item "likeCount")) (JNum 0);
    downloads := or (or (oget item "downloads") (oget item "downloadCount")) (JNum 0);
    source := "thangs"
  |}.

Definition thangs_alt_record (item : JsVal) : option NormalizedRecord :=
  if nullish item then None else
  url ← or_template (oget item "publicUrl") "https://thangs.com/model/" (oget item "id");
  Some {|
    title := or (or (oget item "name") (oget item "title")) (JStr "Untitled");
    creator := or (or (oget item "ownerUsername") (oget (oget item "owner") "username"))
                  (JStr "Unknown");
    thumbnail := or (oget item "thumbnailUrl") (JStr "");
    url := url;
    likes := or (oget item "likeCount") (JNum 0);
    downloads := or (oget item "downloadCount") (JNum 0);
    source := "thangs"
  |}.

(** The mapper of the Thingiverse API results, in search and in popular. *)
Definition thingiverse_api_record (thing : JsVal) : option NormalizedRecord :=
  if nullish thing then None else
  url ← template "https://www.thingiverse.com/thing:" (oget thing "id");
  Some {|
    title := or (oget thing "name") (JStr "Untitled");
    creator := or (or (oget (oget thing "creator") "name")
                      (oget (oget thing "creator") "username"))
                  (JStr "Unknown");
    thumbnail := or (or (oget thing "preview_image") (oget thing "thumbnail")) (JStr "");
    url := url;
    likes := or (or (oget thing "like_count") (oget thing "likes")) (JNum 0);
    downloads := or (or (or (oget thing "download_count") (oget thing "downloads"))
                        (oget thing "collect_count"))
                    (JNum 0);
    source := "thingiverse"
  |}.

(** The mapper of the things found in the page's [__NEXT_DATA__]. *)
Definition thingiverse_page_record (thing : JsVal) : option NormalizedRecord :=
  if nullish thing then None else
  url ← template "https://www.thingiverse.com/thing:" (oget thing "id");
  Some {|
    title := or (oget thing "name") (JStr "Untitled");
    creator := or (or (oget (oget thing "creator") "name")
                      (oget (oget thing "creator") "username"))
                  (JStr "Unknown");
    thumbnail := or (or (oget thing "preview_image") (oget thing "thumbnail")) (JStr "");
    url := url;
    likes := or (or (oget thing "like_count") (oget thing "likes")) (JNum 0);
    downloads := or (or (oget thing "download_count") (oget thing "downloads")) (JNum 0);
    source := "thingiverse"
  |}.

Definition myminifactory_record (item : JsVal) : option NormalizedRecord :=
  if nullish item then None else
  let image0 := oget0 (oget item "images") in
  url ← or_template (oget item "url") "https://www.myminifactory.com/object/"
         (or (oget item "slug") (oget item "id"));
  Some {|
    title := or (or (oget item "name") (oget item "title")) (JStr "Untitled");
    creator := or (or (or (oget (oget item "designer") "name")
                          (oget (oget item "designer") "username"))
                      (oget (oget item "user") "name"))
                  (JStr "Unknown");
    thumbnail := or (or (or (oget (oget image0 "thumbnail") "url") (oget image0 "url"))
                        (oget item "thumbnail"))
                    (JStr "");
    url := url;
    likes := or (oget item "likes") (JNum 0);
    downloads := or (or (oget item "downloads") (oget item "views")) (JNum 0);
    source := "myminifactory"
  |}.

Definition creality_record (item : JsVal) : option NormalizedRecord :=
  if nullish item then None else
  url ← template "https://www.crealitycloud.com/model-detail/" (oget item "id");
  Some {|
    title := or (oget item "groupName") (JStr "Untitled");
    creator := or (oget (oget item "userInfo") "nickName") (JStr "Unknown");
    thumbnail := or (oget (oget0 (oget item "covers")) "url") (JStr "");
    url := url;
    likes := or (oget item "likeCount") (JNum 0);
    downloads := or (oget item "downloadCount") (JNum 0);
    source := "crealitycloud"
  |}.

(** ** PRINTABLES *)

(** [data?.data?.searchPrints2?.items || []] *)
Definition printables_items (data : JsVal) : JsVal :=
  or (oget (oget (oget data "data") "searchPrints2") "items") (JArr []).

Definition searchPrintables (query : string) (limit page : Z)
    (reply : Reply JsVal) : list NormalizedRecord :=
  or_empty
    match reply with
    | NetFail => None
    | Response status body =>
        if ok status then
          data ← body;
          array_map printables_record (printables_items data)
        else Some []
    end.

(** ** THANGS *)

Definition searchThangs (query : string) (limit page : Z)
    (reply : Reply (option JsVal))          (* the text, through [JSON.parse] *)
    (altReply : Reply JsVal) : list NormalizedRecord :=
  (* Fallback: the alternate endpoint *)
  let alternate : option (list NormalizedRecord) :=
    match altReply with
    | NetFail => None
    | Response status body =>
        if ok status then
          data ← body;
          array_slice_map thangs_alt_record
            (or (or (oget data "models") (oget data "results")) (JArr [])) limit
        else Some []
    end in
  or_empty
    match reply with
    | NetFail => None
    | Response status body =>
        if ok status then
          text ← body;
          (* the inner try: [None] when it is left without a return *)
          match
            data ← text;
            let items := or (or (or (oget data "results") (oget data "models")) data)
                            (JArr []) in
            if isArray items then array_slice_map thangs_record items limit
            else None
          with
          | Some records => Some records
          | None => alternate
          end
        else alternate
    end.

(** ** THINGIVERSE *)

(** One element of the cheerio selection of thing cards: what the loop
    body reads from it. *)
Record ThingCard := {
  card_href : option string;          (* [link.attr('href')] *)
  card_title_text : string;           (* the trimmed text of the title nodes *)
  card_link_title : option string;    (* [link.attr('title')] *)
  card_img_src : option string;       (* [img.attr('src')] *)
  card_img_data_src : option string   (* [img.attr('data-src')] *)
}.

(** The search page as the adapter looks at it. *)
Record ThingiversePage := {
  (* the [__NEXT_DATA__] script: [None] no match, [Some None] the match is
     not JSON, [Some (Some v)] parsed *)
  next_data : option (option JsVal);
  cards : list ThingCard
}.

(** The official API, tried when a key is configured.  [None]: the branch
    is left without a return (not ok, no hits, or an error that its own
    catch swallows). *)
Definition thingiverse_api (limit : Z) (reply : Reply JsVal)
  : option (list NormalizedRecord) :=
  match reply with
  | NetFail => None
  | Response status body =>
      if ok status then
        data ← body;
        h ← get data "hits";
        let hits := or (or h data) (JArr []) in
        if nonempty_array hits
        then array_slice_map thingiverse_api_record hits limit
        else None
      else None
  end.

Definition next_data_things (nextData : JsVal) : JsVal :=
  let pageProps := oget (oget nextData "props") "pageProps" in
  or (or (or (oget pageProps "things")
             (oget (oget pageProps "searchResults") "things"))
         (oget (oget (oget pageProps "initialState") "search") "results"))
     (JArr []).

(** The [.each] loop over the thing cards; [return false] stops it. *)
Fixpoint each_thing_card (limit : Z) (els : list ThingCard)
    (results : list NormalizedRecord) : list NormalizedRecord :=
  match els with
  | [] => results
  | el :: els' =>
      if Z.of_nat (length results) >=? limit then results
      else
        each_thing_card limit els'
          match card_href el with
          | Some href =>
              if negb (String.eqb href EmptyString) && includes href "/thing:"
              then results ++ [ {|
                title := JStr (sor (Some (card_title_text el))
                                   (sor (card_link_title el) "Untitled"));
                creator := JStr "Unknown";
                thumbnail := JStr (sor (card_img_src el) (sor (card_img_data_src el) ""));
                url := JStr (if startsWith href "http" then href
                             else "https://www.thingiverse.com" +:+ href);
                likes := JNum 0;
                downloads := JNum 0;
                source := "thingiverse" |} ]
              else results
          | None => results
          end
  end.

(** ** MYMINIFACTORY *)

Record ObjectLink := {
  link_href : option string;          (* [$el.attr('href')] *)
  link_card_title : string;           (* the trimmed title text of the card *)
  link_title : option string;         (* [$el.attr('title')] *)
  link_img_src : option string;
  link_img_data_src : option string
}.

(** [r.url.includes(href)] *)
Definition url_includes (href : string) (r : NormalizedRecord) : bool :=
  match url r with
  | JStr u => includes u href
  | _ => false
  end.

Fixpoint each_object_link (limit : Z) (els : list ObjectLink)
    (results : list NormalizedRecord) : list NormalizedRecord :=
  match els with
  | [] => results
  | el :: els' =>
      if Z.of_nat (length results) >=? limit then results
      else
        each_object_link limit els'
          (let t := sor (Some (link_card_title el)) (sor (link_title el) "") in
           match link_href el with
           | Some href =>
               if negb (String.eqb href EmptyString)
                  && negb (String.eqb t EmptyString)
                  && negb (existsb (url_includes href) results)
               then results ++ [ {|
                 title := JStr t;
                 creator := JStr "Unknown";
                 thumbnail := JStr (sor (link_img_src el) (sor (link_img_data_src el) ""));
                 url := JStr (if startsWith href "http" then href
                              else "https://www.myminifactory.com" +:+ href);
                 likes := JNum 0;
                 downloads := JNum 0;
                 source := "myminifactory" |} ]
               else results
           | None => results
           end)
  end.

Definition searchMyMiniFactory (query : string) (limit page : Z)
    (reply : Reply (option JsVal))          (* the text, through [JSON.parse] *)
    (pageReply : Reply (list ObjectLink)) : list NormalizedRecord :=
  (* Fallback: scrape the search page *)
  let scrape : option (list NormalizedRecord) :=
    match pageReply with
    | NetFail => None
    | Response _ body => html ← body; Some (each_object_link limit html [])
    end in
  or_empty
    match reply with
    | NetFail => None
    | Response status body =>
        if ok status then
          text ← body;
          match
            data ← text;
            let items := or (or (or (oget data "items") (oget data "objects"))
                                (oget data "results"))
                            (JArr []) in
            if nonempty_array items
            then array_slice_map myminifactory_record items limit
            else None
          with
          | Some records => Some records
          | None => scrape
          end
        else scrape
    end.

(** ** CREALITY CLOUD *)

(** The body shared by the search and the trend endpoint. *)
Definition creality_list (reply : Reply JsVal) : list NormalizedRecord :=
  or_empty
    match reply with
    | NetFail => None
    | Response status body =>
        if ok status then
          data ← body;
          code ← get data "code";
          let list := oget (oget data "result") "list" in
          match code with
          | JNum 0 => if truthy list then array_map creality_record list else Some []
          | _ => Some []
          end
        else Some []
    end.

Definition searchCrealityCloud (query : string) (limit page : Z)
    (reply : Reply JsVal) : list NormalizedRecord :=
  creality_list reply.

(** ** YOUMAGINE *)

Record CardImage := {
  img_alt : option string;            (* [$img.attr('alt')] *)
  img_src : option string;            (* [$img.attr('src')] *)
  img_w_full : bool;                  (* [$img.hasClass('w-full')] *)
  img_link_href : option string       (* the [href] of the closest design link *)
}.

Fixpoint each_card_image (limit : Z) (els : list CardImage)
    (results : list NormalizedRecord) (seen : gset string)
  : list NormalizedRecord :=
  match els with
  | [] => results
  | el :: els' =>
      if Z.of_nat (length results) >=? limit then results
      else
        let alt := sor (img_alt el) "" in
        let src := sor (img_src el) "" in
        if negb (img_w_full el) || String.eqb src EmptyString
           || String.eqb alt "YouMagine"
        then each_card_image limit els' results seen
        else
          match img_link_href el with
          | Some href =>
              if negb (String.eqb href EmptyString)
                 && negb (endsWith href "/designs/")
                 && negb (bool_decide (href ∈ seen))
              then
                each_card_image limit els'
                  (results ++ [ {|
                     title := JStr (sor (Some alt) "Untitled");
                     creator := JStr "Unknown";
                     thumbnail := JStr (if startsWith src "http" then src
                                        else "https://youmagine.com" +:+ src);
                     url := JStr (if startsWith href "http" then href
                                  else "https://youmagine.com" +:+ href);
                     likes := JNum 0;
                     downloads := JNum 0;
                     source := "youmagine" |} ])
                  ({[ href ]} ∪ seen)
              else each_card_image limit els' results seen
          | None => each_card_image limit els' results seen
          end
  end.

(** The body shared by the search page and the designs page. *)
Definition youmagine_cards (limit : Z) (reply : Reply (list CardImage))
  : list NormalizedRecord :=
  or_empty
    match reply with
    | NetFail => None
    | Response _ body => html ← body; Some (each_card_image limit html [] ∅)
    end.

Definition searchYouMagine (query : string) (limit page : Z)
    (reply : Reply (list CardImage)) : list NormalizedRecord :=
  youmagine_cards limit reply.

(** ** FETCH POPULAR FUNCTIONS *)

Definition seed (t c th u : string) (l d : Z) (src : string) : NormalizedRecord :=
  {| title := JStr t; creator := JStr c; thumbnail := JStr th; url := JStr u;
     likes := JNum l; downloads := JNum d; source := src |}.

(** Curated fallback data for sources that have bot protection
    ([fallbackPopularModels]). *)
Definition fallback_thingiverse : list NormalizedRecord :=
  [ seed "Flexi Rex (T-Rex)" "DrLex" "https://cdn.thingiverse.com/renders/9e/f5/92/56/d5/5e04faf6b1ebee0735ffb82771ca9051_preview_featured.jpg" "https://www.thingiverse.com/thing:2738211" 45000 890000 "thingiverse";
    seed "Low Poly Pikachu" "FLOWALISTIK" "https://cdn.thingiverse.com/renders/60/5d/6d/72/c4/pikachu_low_poly_pokemon_flowalistik_preview_featured.jpg" "https://www.thingiverse.com/thing:376601" 22000 410000 "thingiverse";
    seed "Phone Stand" "WilliamAAdams" "https://cdn.thingiverse.com/renders/37/83/e7/42/ac/841e55362ab601e2ed4c2de08074e8b2_preview_featured.jpg" "https://www.thingiverse.com/thing:2194278" 32000 650000 "thingiverse";
    seed "Modular Hex Drawers" "O3D" "https://cdn.thingiverse.com/renders/8f/98/c7/7a/98/60acf4823a53e317955cdddbf12ddd12_preview_featured.jpg" "https://www.thingiverse.com/thing:2425429" 20000 380000 "thingiverse";
    seed "Articulated Slug" "Fizz Creations" "https://cdn.thingiverse.com/assets/d6/82/8f/11/12/featured_preview_CoverPhoto.jpg" "https://www.thingiverse.com/thing:4727448" 15000 280000 "thingiverse";
    seed "Raspberry Pi 4 Case" "Malolo" "https://cdn.thingiverse.com/assets/21/f7/ca/64/68/featured_preview_Logo_MM3.jpg" "https://www.thingiverse.com/thing:3723561" 18000 350000 "thingiverse";
    seed "Cable Management Clips" "Filar3D" "https://cdn.thingiverse.com/assets/f3/ba/2e/d3/d0/featured_preview_IMG_20170804_104455.jpg" "https://www.thingiverse.com/thing:2466594" 25000 480000 "thingiverse";
    seed "3DBenchy" "CreativeTools" "" "https://www.thingiverse.com/thing:763622" 17000 340000 "thingiverse";
    seed "Articulated Dragon" "McGybeer" "" "https://www.thingiverse.com/thing:4817953" 28000 520000 "thingiverse";
    seed "Flexi Shark" "McGybeer" "" "https://www.thingiverse.com/thing:4846879" 12000 220000 "thingiverse" ].

Definition fallback_thangs : list NormalizedRecord :=
  [ seed "Articulated Axolotl" "Printed Obsession" "" "https://thangs.com/designer/PrintedObsession/3d-model/Articulated%20Axolotl-799498" 31000 620000 "thangs";
    seed "Baby Groot Planter" "Fotis Mint" "" "https://thangs.com/designer/Fotis%20Mint/3d-model/Baby%20Groot%20Flower%20Pot-38826" 26000 510000 "thangs";
    seed "Flexi Octopus" "McGybeer" "" "https://thangs.com/designer/McGybeer/3d-model/Cute%20Flexi%20Print-in-Place%20Octopus-798703" 23000 440000 "thangs";
    seed "Mandalorian Helmet" "Galactic Armory" "" "https://thangs.com/designer/Galactic%20Armory/3d-model/The%20Mandalorian%20Helmet-45873" 20000 390000 "thangs";
    seed "Articulated Dragon" "McGybeer" "" "https://thangs.com/designer/McGybeer/3d-model/Articulated%20Dragon-798707" 18000 350000 "thangs";
    seed "Headphone Stand" "Various" "" "https://thangs.com/search/headphone%20stand" 16000 310000 "thangs";
    seed "Dice Tower" "Various" "" "https://thangs.com/search/dice%20tower" 15000 290000 "thangs";
    seed "Cable Organizer" "Various" "" "https://thangs.com/search/cable%20organizer" 14000 270000 "thangs";
    seed "Phone Stand" "Various" "" "https://thangs.com/search/phone%20stand" 13000 250000 "thangs";
    seed "Geometric Vase" "Various" "" "https://thangs.com/search/geometric%20vase" 12000 230000 "thangs" ].

Definition fallback_myminifactory : list NormalizedRecord :=
  [ seed "The Dragon" "Fotis Mint" "" "https://www.myminifactory.com/object/3d-print-the-dragon-100769" 42000 810000 "myminifactory";
    seed "Cthulhu" "Fotis Mint" "" "https://www.myminifactory.com/object/3d-print-cthulhu-30203" 35000 680000 "myminifactory";
    seed "Dice Guardian" "mz4250" "" "https://www.myminifactory.com/object/3d-print-dice-guardian-12345" 28000 540000 "myminifactory";
    seed "Mind Flayer" "mz4250" "" "https://www.myminifactory.com/object/3d-print-mind-flayer-32001" 25000 480000 "myminifactory";
    seed "Articulated Knight" "Printed Obsession" "" "https://www.myminifactory.com/object/3d-print-articulated-knight-56789" 22000 420000 "myminifactory";
    seed "Baby Yoda" "Fotis Mint" "" "https://www.myminifactory.com/object/3d-print-baby-yoda-117365" 20000 380000 "myminifactory";
    seed "Greek Statue Collection" "Scan The World" "" "https://www.myminifactory.com/users/Scan%20The%20World" 18000 350000 "myminifactory";
    seed "Terrain Set" "Printable Scenery" "" "https://www.myminifactory.com/users/Printable%20Scenery" 16000 310000 "myminifactory";
    seed "Beholder" "mz4250" "" "https://www.myminifactory.com/object/3d-print-beholder-28947" 15000 290000 "myminifactory";
    seed "Dragon Bust" "Fotis Mint" "" "https://www.myminifactory.com/object/3d-print-dragon-bust-100770" 14000 270000 "myminifactory" ].

Definition fetchPopularThangs (limit : Z) : list NormalizedRecord :=
  slice0 fallback_thangs limit.

Definition fetchPopularMyMiniFactory (limit : Z) : list NormalizedRecord :=
  slice0 fallback_myminifactory limit.

Definition fetchPopularCrealityCloud (limit : Z) (reply : Reply JsVal)
  : list NormalizedRecord :=
  creality_list reply.

Definition fetchPopularYouMagine (limit : Z) (reply : Reply (list CardImage))
  : list NormalizedRecord :=
  youmagine_cards limit reply.

Section Configured.

(** The process environment: the optional Thingiverse credential. *)
Variable THINGIVERSE_API_KEY : string.

(** [Number(s) > 0] for a string [s]: the engine reads [s] as a numeric
    literal over doubles, which is left to the engine.  It is consulted
    only when a payload carries a [length] that is not a number. *)
Variable string_gt0 : string → bool.

(** [v > 0]; [None] when the conversion of [v] to a number throws.  An
    array is converted through its string; an object through the
    [toString] it inherits, which gives [NaN], unless it has an own
    property of that name. *)
Definition gt0 (v : JsVal) : option bool :=
  match v with
  | JNum n => Some (0 <? n)
  | JInf negative => Some (negb negative)
  | JBool b => Some b
  | JStr s => Some (string_gt0 s)
  | JArr _ => string_gt0 <$> to_string v
  | JObj _ => (fun _ => false) <$> to_string v
  | JUndef | JNull => Some false
  end.

Definition has_key : bool := negb (String.eqb THINGIVERSE_API_KEY EmptyString).

Definition searchThingiverse (query : string) (limit page : Z)
    (apiReply : Reply JsVal) (reply : Reply ThingiversePage)
  : list NormalizedRecord :=
  or_empty
    match (if has_key then thingiverse_api limit apiReply else None) with
    | Some records => Some records
    | None =>
        (* Fallback: the search results page, whatever its status *)
        match reply with
        | NetFail => None
        | Response _ body =>
            html ← body;
            match
              match next_data html with
              | Some parsed =>
                  nextData ← parsed;
                  let things := next_data_things nextData in
                  if nonempty_array things
                  then array_slice_map thingiverse_page_record things limit
                  else None
              | None => None
              end
            with
            | Some records => Some records
            | None => Some (each_thing_card limit (cards html) [])
            end
        end
    end.

Definition fetchPopularThingiverse (limit : Z) (apiReply : Reply JsVal)
  : list NormalizedRecord :=
  match (if has_key then thingiverse_api limit apiReply else None) with
  | Some records => records
  | None => slice0 fallback_thingiverse limit
  end.

Definition fetchPopularPrintables (limit : Z) (reply searchReply : Reply JsVal)
  : list NormalizedRecord :=
  (* Fallback: use search with common popular term *)
  let fallback := Some (searchPrintables "gridfinity" limit 1 searchReply) in
  or_empty
    match reply with
    | NetFail => None
    | Response status body =>
        if ok status then
          data ← body;
          let items := printables_items data in
          len ← get items "length";
          gt0 len ≫= fun filled : bool =>
            if filled then array_map printables_record items else fallback
        else fallback
    end.

End Configured.

End Adapters.

(* ===================================================================== *)
(** * API routes *)
(* ===================================================================== *)

(** ** Responses *)

Module Http.
Import Js Adapters.

(** The query parameters as Express hands them over.  [req.query] holds
    a string for a parameter that is given once and an array of strings
    for one that is repeated, as in [?sites=thangs&sites=printables];
    the parser of Express 4 also builds nested arrays and objects from
    names written with brackets, as in [?sites[a]=thangs].  It drops
    the names that objects inherit, so that such an object has no
    [toString] of its own. *)
#[local] Unset Elimination Schemes.
Inductive Param :=
| Str (s : string)
| Arr (items : list Param)
| Obj (fields : list (string * Param)).
#[local] Set Elimination Schemes.

(** [String(p)], which is what [parseInt], a property lookup and a
    template literal read. *)
Fixpoint text (p : Param) : string :=
  match p with
  | Str s => s
  | Arr items => join_comma (List.map text items)
  | Obj _ => "[object Object]"
  end.

(** What a route may put under a site key.  An adapter gives an array of
    records; the members that the adapter tables inherit give other
    things when they are called in an adapter's place. *)
Inductive Value :=
| VRecords (records : list NormalizedRecord)
| VString (s : string)
| VQuery (q : Param)           (* the query itself, when it is no string *)
| VNumber (n : Z)
| VBoolean (b : bool)
| VUndefined
| VTable                      (* the adapter table itself *)
| VFunction.                  (* a built-in accessor function *)

(** The [error] texts of the routes. *)
Inductive Error :=
| QueryRequired               (* Query parameter "q" is required *)
| UrlRequired                 (* URL parameter required *)
| InvalidUrl                  (* Invalid URL *)
| FailedToFetchImage          (* Failed to fetch image *)
| SearchFailed.               (* Search failed *)

Inductive Body :=
| ErrorBody (error : Error)
| InvalidSite (validSites : list string)
| SearchBody (page limit : Z) (results : list (string * Value))
| SiteBody (site : string) (page : Z) (results : Value)
| PopularBody (results : list (string * Value))
| ImageBody (contentType : string) (buffer : list Byte.byte).

Record HttpResponse := { status : Z; body : Body }.

End Http.

Module Routes.
Import Js Adapters Http.

(** [obj[key] = v] on an object literal: an existing key keeps its place,
    a new key goes last, and ["__proto__"] reaches the inherited setter,
    which adds no property. *)
Fixpoint obj_update (obj : list (string * Value)) (key : string) (v : Value)
  : option (list (string * Value)) :=
  match obj with
  | [] => None
  | (k, w) :: obj' =>
      if String.eqb key k then Some ((k, v) :: obj')
      else cons (k, w) <$> obj_update obj' key v
  end.

Definition obj_set (obj : list (string * Value)) (key : string) (v : Value)
  : list (string * Value) :=
  if String.eqb key "__proto__" then obj
  else default (obj ++ [(key, v)])%list (obj_update obj key v).

(** [res.json(obj)]: [JSON.stringify] leaves out the properties whose
    value is a function or [undefined]. *)
Definition serializable (v : Value) : bool :=
  match v with VFunction | VUndefined => false | _ => true end.

Definition json (obj : list (string * Value)) : list (string * Value) :=
  List.filter (fun kv => serializable (snd kv)) obj.

(** ** The adapter tables *)

Inductive Site :=
| thingiverse | printables | thangs | youmagine | myminifactory | crealitycloud.

(** The keys of [searchFunctions] and of [fetchFunctions], in order. *)
Definition site_names : list (string * Site) :=
  [ ("thingiverse", thingiverse); ("printables", printables);
    ("thangs", thangs); ("youmagine", youmagine);
    ("myminifactory", myminifactory); ("crealitycloud", crealitycloud) ].

Inductive Property :=
| Own (site : Site)
| Inherited (member : ObjectPrototype).

(** [searchFunctions[key]] and [fetchFunctions[key]]; every property that
    is found is truthy. *)
Definition table_get (key : string) : option Property :=
  match assoc site_names key with
  | Some site => Some (Own site)
  | None => Inherited <$> inherited key
  end.

(** The first argument a table member is called with. *)
Inductive Arg :=
| ArgString (s : string)
| ArgQuery (q : Param)         (* a query that is not a string *)
| ArgNumber (n : Z).

Definition property_key (a : Arg) : string :=
  match a with
  | ArgString s => s
  | ArgQuery q => text q
  | ArgNumber n => pretty n
  end.

(** Calling an inherited member as [table[key](arg, ...)]; the second
    argument is never a function.  [None]: it throws [TypeError]. *)
Definition call_inherited (member : ObjectPrototype) (arg : Arg) : option Value :=
  match member with
  | P_constructor =>
      Some match arg with
           | ArgString s => VString s
           | ArgQuery q => VQuery q
           | ArgNumber n => VNumber n
           end
  | P_toString | P_toLocaleString => Some (VString "[object Object]")
  | P_valueOf => Some VTable
  | P_hasOwnProperty | P_propertyIsEnumerable =>
      Some (VBoolean (bool_decide (is_Some (assoc site_names (property_key arg)))))
  | P_isPrototypeOf => Some (VBoolean false)
  | P_defineGetter | P_defineSetter => None
  | P_lookupGetter | P_lookupSetter =>
      Some (if String.eqb (property_key arg) "__proto__" then VFunction
            else VUndefined)
  | P_proto => None
  end.

(** The wrapper around each adapter call in the fan-out:
    [try { const results = await f(..); console.log(results.length);
           return { site, results }; }
     catch (err) { return { site, results: [] }; }] *)
Definition settle (outcome : option Value) : Value :=
  match outcome with
  | None => VRecords []
  | Some VUndefined => VRecords []          (* [results.length] throws *)
  | Some v => v
  end.

(** [results.forEach(r => { response[r.site] = r.results; })] *)
Definition assemble (results : list (string * Value)) : list (string * Value) :=
  foldl (fun obj r => obj_set obj (fst r) (snd r)) [] results.

Definition default_sites : list string :=
  [ "thingiverse"; "printables"; "thangs"; "youmagine"; "myminifactory";
    "crealitycloud" ].

(** [siteParam ? siteParam.split(',') : [...]] *)
Definition enabledSites (siteParam : option string) : list string :=
  match siteParam with
  | Some s => if String.eqb s EmptyString then default_sites else split_comma s
  | None => default_sites
  end.

(** [Math.min(parseInt(limit) || 10, 20)] *)
Definition searchLimit (limit : option string) : Z :=
  Z.min (parseInt_or limit 10) 20.

(** [Math.max(parseInt(page) || 1, 1)] *)
Definition searchPage (page : option string) : Z :=
  Z.max (parseInt_or page 1) 1.

(** [!q], [!url] *)
Definition missing (q : option string) : bool :=
  match q with
  | Some s => String.eqb s EmptyString
  | None => true
  end.

(** ** The upstream, as one adapter invocation sees it *)

Record SearchNet := {
  sn_thingiverse_api : Reply JsVal;
  sn_thingiverse : Reply ThingiversePage;
  sn_printables : Reply JsVal;
  sn_thangs : Reply (option JsVal);
  sn_thangs_alt : Reply JsVal;
  sn_youmagine : Reply (list CardImage);
  sn_myminifactory : Reply (option JsVal);
  sn_myminifactory_page : Reply (list ObjectLink);
  sn_crealitycloud : Reply JsVal
}.

Record PopularNet := {
  pn_thingiverse_api : Reply JsVal;
  pn_printables : Reply JsVal;
  pn_printables_search : Reply JsVal;
  pn_youmagine : Reply (list CardImage);
  pn_crealitycloud : Reply JsVal
}.

(** ** The cache of popular results

    [popularCache = { data: null, timestamp: 0, TTL: 5 * 60 * 1000 }]:
    one object for the whole process, with one [timestamp]. *)

Record PopularCache := {
  data : option (gmap string (list (string * Value)));
  timestamp : Z
}.

Definition popularCache : PopularCache := {| data := None; timestamp := 0 |}.

Definition TTL : Z := 5 * 60 * 1000.

(** One [GET /api/popular] request together with what the clock and the
    upstream do while it is served. *)
Record PopularRequest := {
  pr_sites : option string;
  pr_limit : option string;
  pr_now : Z;
  pr_now' : Z;
  pr_net : nat → PopularNet
}.

(** ** The routes on the parameters as they arrive *)

(** [!p]: an array or an object is truthy, even an empty one. *)
Definition absent (p : option Param) : bool :=
  match p with
  | None => true
  | Some (Str s) => String.eqb s EmptyString
  | Some _ => false
  end.

(** [siteParam ? siteParam.split(',') : [...]].  An array or an object
    has no [split]: [None] is the [TypeError] of calling it. *)
Definition requestedSites (siteParam : option Param) : option (list string) :=
  match siteParam with
  | None => Some (enabledSites None)
  | Some (Str s) => Some (enabledSites (Some s))
  | Some _ => None
  end.

(** The first argument of the table member when it is the query. *)
Definition query_arg (q : Param) : Arg :=
  match q with Str s => ArgString s | _ => ArgQuery q end.

(** What becomes of a request.  The handlers are [async] functions: when
    one throws outside every [try], its promise rejects and the handler
    has sent nothing; what the client then gets is up to the framework
    (with Express 4 no answer at all, with Express 5 the answer of its
    error handler). *)
Inductive Outcome :=
| Answered (response : HttpResponse)
| Thrown.

Section Handlers.

Variable THINGIVERSE_API_KEY : string.
Variable string_gt0 : string → bool.

Definition searchFunctions (site : Site) (q : string) (limit page : Z)
    (net : SearchNet) : list NormalizedRecord :=
  match site with
  | thingiverse =>
      searchThingiverse THINGIVERSE_API_KEY q limit page
        (sn_thingiverse_api net) (sn_thingiverse net)
  | printables => searchPrintables q limit page (sn_printables net)
  | thangs => searchThangs q limit page (sn_thangs net) (sn_thangs_alt net)
  | youmagine => searchYouMagine q limit page (sn_youmagine net)
  | myminifactory =>
      searchMyMiniFactory q limit page
        (sn_myminifactory net) (sn_myminifactory_page net)
  | crealitycloud => searchCrealityCloud q limit page (sn_crealitycloud net)
  end.

Definition fetchFunctions (site : Site) (limit : Z) (net : PopularNet)
  : list NormalizedRecord :=
  match site with
  | thingiverse =>
      fetchPopularThingiverse THINGIVERSE_API_KEY limit (pn_thingiverse_api net)
  | printables =>
      fetchPopularPrintables string_gt0 limit
        (pn_printables net) (pn_printables_search net)
  | thangs => fetchPopularThangs limit
  | youmagine => fetchPopularYouMagine limit (pn_youmagine net)
  | myminifactory => fetchPopularMyMiniFactory limit
  | crealitycloud => fetchPopularCrealityCloud limit (pn_crealitycloud net)
  end.

(** [table[site](arg, ...)], where [run] is what the table's own members
    do when they are called: give an array, or throw. *)
Definition call_member (run : Site → option (list NormalizedRecord))
    (arg : Arg) (p : Property) : option Value :=
  match p with
  | Own site => VRecords <$> run site
  | Inherited member => call_inherited member arg
  end.

(** [searchFunctions[site](q, searchLimit, searchPage)] *)
Definition call_search (q : string) (limit page : Z) (net : SearchNet)
  : Property → option Value :=
  call_member (fun site => Some (searchFunctions site q limit page net))
    (ArgString q).

(** [fetchFunctions[site](searchLimit)] *)
Definition call_popular (limit : Z) (net : PopularNet)
  : Property → option Value :=
  call_member (fun site => Some (fetchFunctions site limit net))
    (ArgNumber limit).

(** The fan-out shared by [/api/search] and [/api/popular]:
    [sites.filter(site => table[site]).map(async site => ...)] followed by
    [Promise.all].  The [i]-th promise makes the [i]-th call; [call i] is
    what that call does with the property it is given. *)
Definition called (sites : list string) : list string :=
  List.filter (fun site => bool_decide (is_Some (table_get site))) sites.

Definition fan_out (call : nat → Property → option Value) (sites : list string)
  : list (string * Value) :=
  imap (fun i site => (site, settle (table_get site ≫= call i))) (called sites).

(** *** [GET /api/search] *)

(** The handler with the calls left open; the result also lists the keys
    whose table entry was called, in call order. *)
Definition search_with (call : nat → Property → option Value)
    (q siteParam limit page : option string) : HttpResponse * list string :=
  if missing q then
    ({| status := 400; body := ErrorBody QueryRequired |}, [])
  else
    let sites := enabledSites siteParam in
    let results := fan_out call sites in
    ({| status := 200;
        body := SearchBody (searchPage page) (searchLimit limit)
                  (json (assemble results)) |},
     called sites).

Definition search (q siteParam limit page : option string)
    (net : nat → SearchNet) : HttpResponse * list string :=
  search_with
    (fun i => call_search (default EmptyString q) (searchLimit limit)
                (searchPage page) (net i))
    q siteParam limit page.

(** *** [GET /api/search/:site] *)

Definition search_site (site : string) (q limit page : option string)
    (net : SearchNet) : HttpResponse :=
  if missing q then
    {| status := 400; body := ErrorBody QueryRequired |}
  else
    match table_get site with
    | None => {| status := 400; body := InvalidSite (fst <$> site_names) |}
    | Some p =>
        match call_search (default EmptyString q) (searchLimit limit)
                (searchPage page) net p with
        | Some results =>
            {| status := 200; body := SiteBody site (searchPage page) results |}
        | None => {| status := 500; body := ErrorBody SearchFailed |}
        end
    end.

(** *** [GET /api/popular] *)

(** [`${enabledSites.sort().join(',')}-${searchLimit}`] *)
Definition cacheKey (siteParam limit : option string) : string :=
  join_comma (sort (enabledSites siteParam)) +:+ "-" +:+ pretty (searchLimit limit).

(** The cache check:
    [popularCache.data?.[cacheKey] &&
     Date.now() - popularCache.timestamp < popularCache.TTL] *)
Definition cached_popular (cache : PopularCache) (key : string) (now : Z)
  : option (list (string * Value)) :=
  match data cache ≫= (fun d => d !! key) with
  | Some cached => if now - timestamp cache <? TTL then Some cached else None
  | None => None
  end.

(** [now] is what [Date.now()] reads at the cache check and [now'] what it
    reads when the result is stored.  [sort()] sorts [enabledSites] in
    place, so the fan-out runs over the sorted array. *)
Definition popular_with (call : nat → Property → option Value)
    (siteParam limit : option string) (now now' : Z) (cache : PopularCache)
  : HttpResponse * PopularCache * list string :=
  let sites := sort (enabledSites siteParam) in
  let key := cacheKey siteParam limit in
  let fetched :=
    let response := assemble (fan_out call sites) in
    ({| status := 200; body := PopularBody (json response) |},
     {| data := Some (<[key := response]> (default ∅ (data cache)));
        timestamp := now' |},
     called sites) in
  match cached_popular cache key now with
  | Some cached =>
      ({| status := 200; body := PopularBody (json cached) |}, cache, [])
  | None => fetched
  end.

Definition popular (siteParam limit : option string) (now now' : Z)
    (net : nat → PopularNet) (cache : PopularCache)
  : HttpResponse * PopularCache * list string :=
  popular_with (fun i => call_popular (searchLimit limit) (net i))
    siteParam limit now now' cache.

(** *** The two routes on the parameters as they arrive

    [/api/search] computes [enabledSites] after the test of [q] and
    before its [try]; [/api/popular] computes it first of all. *)
Definition search_request (q siteParam limit page : option Param)
    (net : nat → SearchNet) : Outcome * list string :=
  match q with
  | Some query =>
      if absent q then
        (Answered {| status := 400; body := ErrorBody QueryRequired |}, [])
      else
        match requestedSites siteParam with
        | None => (Thrown, [])
        | Some sites =>
            let l := searchLimit (text <$> limit) in
            let p := searchPage (text <$> page) in
            let results :=
              fan_out
                (fun i => call_member
                            (fun site => Some (searchFunctions site (text query) l p
                                                 (net i)))
                            (query_arg query))
                sites in
            (Answered {| status := 200;
                         body := SearchBody p l (json (assemble results)) |},
             called sites)
        end
  | None => (Answered {| status := 400; body := ErrorBody QueryRequired |}, [])
  end.

Definition popular_request (siteParam limit : option Param) (now now' : Z)
    (net : nat → PopularNet) (cache : PopularCache)
  : Outcome * PopularCache * list string :=
  match requestedSites siteParam with
  | None => (Thrown, cache, [])
  | Some _ =>
      let '(response, cache', calls) :=
        popular (text <$> siteParam) (text <$> limit) now now' net cache in
      (Answered response, cache', calls)
  end.

(** *** Upstream failure

    A request of an adapter fails when the network rejects it, when the
    answer has a non-success status, or when reading the answer throws.
    The adapters that scrape a page do not look at its status. *)
Definition failed {T} (r : Reply T) : Prop :=
  match r with
  | NetFail => True
  | Response st content => ok st = false ∨ content = None
  end.

Definition page_failed {T} (r : Reply T) : Prop :=
  match r with
  | NetFail => True
  | Response _ content => content = None
  end.



(** The cache after a request, and after a sequence of requests served
    one after the other. *)
Definition serve (cache : PopularCache) (r : PopularRequest) : PopularCache :=
  snd (fst (popular (pr_sites r) (pr_limit r) (pr_now r) (pr_now' r)
              (pr_net r) cache)).

Definition serve_all (cache : PopularCache) (rs : list PopularRequest)
  : PopularCache :=
  foldl serve cache rs.

End Handlers.

(** The cache holds [response] under the key [k], and its one [timestamp]
    is not older than [t]: every check before [t + TTL] finds the entry. *)
Definition holds (k : string) (response : list (string * Value)) (t : Z)
    (cache : PopularCache) : Prop :=
  data cache ≫= (fun d => d !! k) = Some response ∧ t <= timestamp cache.

End Routes.

(** ** The image proxy *)

Module ImageProxy.
Import Js Adapters Http.

(** An entry of [imageCache], a [Map] from the decoded URL. *)
Record CachedImage := {
  buffer : list Byte.byte;
  contentType : string;
  timestamp : Z
}.

Definition IMAGE_CACHE_TTL : Z := 30 * 60 * 1000.

(** A successful upstream answer: the body and its [content-type]
    header. *)
Record Upstream := {
  up_body : list Byte.byte;
  up_content_type : option string
}.

(** An outgoing [fetch]. *)
Record FetchCall := { fetch_url : string; fetch_referer : string }.

(** Determine referer based on URL *)
Definition referer_for (imageUrl : string) : string :=
  if includes imageUrl "thingiverse.com" then "https://www.thingiverse.com/"
  else if includes imageUrl "thangs.com" then "https://thangs.com/"
  else if includes imageUrl "myminifactory.com" then "https://www.myminifactory.com/"
  else if includes imageUrl "creality.com" then "https://www.crealitycloud.com/"
  else "".

(** Clean old cache entries:
    [for (const [key, value] of imageCache.entries())
       if (now - value.timestamp > IMAGE_CACHE_TTL) imageCache.delete(key);] *)
Definition clean_step (now : Z) (m : gmap string CachedImage)
    (kv : string * CachedImage) : gmap string CachedImage :=
  if IMAGE_CACHE_TTL <? now - timestamp (snd kv) then delete (fst kv) m else m.

Definition clean (now : Z) (imageCache : gmap string CachedImage)
  : gmap string CachedImage :=
  foldl (clean_step now) imageCache (map_to_list imageCache).

(** The cache check:
    [cached && Date.now() - cached.timestamp < IMAGE_CACHE_TTL] *)
Definition cached_image (imageCache : gmap string CachedImage)
    (imageUrl : string) (now : Z) : option CachedImage :=
  match imageCache !! imageUrl with
  | Some cached =>
      if now - timestamp cached <? IMAGE_CACHE_TTL then Some cached else None
  | None => None
  end.

Definition fetch_failed (st : Z) : HttpResponse :=
  {| status := st; body := ErrorBody FailedToFetchImage |}.

(** [GET /api/image].  [now], [now'] and [now''] are the readings of
    [Date.now()] at the cache check, at the insertion and at the clean-up;
    [reply] is what the upstream answers if it is asked. *)
Definition image (url : option string) (now now' now'' : Z)
    (reply : Reply Upstream) (imageCache : gmap string CachedImage)
  : HttpResponse * gmap string CachedImage * list FetchCall :=
  if Routes.missing url then
    ({| status := 400; body := ErrorBody UrlRequired |}, imageCache, [])
  else
    match decodeURIComponent (default EmptyString url) with
    | None => (fetch_failed 500, imageCache, [])
    | Some imageUrl =>
        if negb (startsWith imageUrl "http://")
           && negb (startsWith imageUrl "https://")
        then ({| status := 400; body := ErrorBody InvalidUrl |}, imageCache, [])
        else
          let fetch :=
            let call := {| fetch_url := imageUrl;
                           fetch_referer := referer_for imageUrl |} in
            match reply with
            | NetFail => (fetch_failed 500, imageCache, [call])
            | Response st content =>
                if negb (ok st) then (fetch_failed st, imageCache, [call])
                else
                  match content with
                  | None => (fetch_failed 500, imageCache, [call])
                  | Some up =>
                      let type := sor (up_content_type up) "image/jpeg" in
                      let cache1 :=
                        <[imageUrl := {| buffer := up_body up;
                                         contentType := type;
                                         timestamp := now' |}]> imageCache in
                      let cache2 :=
                        if (100 <? Z.of_nat (size cache1))
                        then clean now'' cache1 else cache1 in
                      ({| status := 200; body := ImageBody type (up_body up) |},
                       cache2, [call])
                  end
            end in
          match cached_image imageCache imageUrl now with
          | Some cached =>
              ({| status := 200;
                  body := ImageBody (contentType cached) (buffer cached) |},
               imageCache, [])
          | None => fetch
          end
    end.

(** One [GET /api/image] request together with what the clock and the
    upstream do while it is served. *)
Record ImageRequest := {
  ir_url : option string;
  ir_now : Z;
  ir_now' : Z;
  ir_now'' : Z;
  ir_reply : Reply Upstream
}.

Definition serve (imageCache : gmap string CachedImage) (r : ImageRequest)
  : gmap string CachedImage :=
  snd (fst (image (ir_url r) (ir_now r) (ir_now' r) (ir_now'' r) (ir_reply r)
              imageCache)).

Definition serve_all (imageCache : gmap string CachedImage)
    (rs : list ImageRequest) : gmap string CachedImage :=
  foldl serve imageCache rs.

(** An entry is stale at [now] when its age exceeds the TTL. *)
Definition stale (now : Z) (e : CachedImage) : Prop :=
  IMAGE_CACHE_TTL < now - timestamp e.

(** The cache holds the entry [e] under [imageUrl]. *)
Definition kept (imageUrl : string) (e : CachedImage)
    (imageCache : gmap string CachedImage) : Prop :=
  imageCache !! imageUrl = Some e.

(** The one test the route makes on the decoded URL. *)
Definition has_http_scheme (imageUrl : string) : bool :=
  startsWith imageUrl "http://" || startsWith imageUrl "https://".

End ImageProxy.

(** ** Sample inputs *)

Module Samples.
Import Js Adapters Http Routes.

(** No credential configured. *)
Definition no_key : string := EmptyString.

Definition never (s : string) : bool := false.

(** An upstream where every request is rejected. *)
Definition offline : SearchNet :=
  {| sn_thingiverse_api := NetFail; sn_thingiverse := NetFail;
     sn_printables := NetFail; sn_thangs := NetFail; sn_thangs_alt := NetFail;
     sn_youmagine := NetFail; sn_myminifactory := NetFail;
     sn_myminifactory_page := NetFail; sn_crealitycloud := NetFail |}.

Definition popular_offline : PopularNet :=
  {| pn_thingiverse_api := NetFail; pn_printables := NetFail;
     pn_printables_search := NetFail; pn_youmagine := NetFail;
     pn_crealitycloud := NetFail |}.

Definition model (id : Z) (name : string) : JsVal :=
  JObj [("id", JNum id); ("name", JStr name)].

(** A Printables answer with two items. *)
Definition printables_two : JsVal :=
  JObj [("data", JObj [("searchPrints2",
          JObj [("items", JArr [model 1 "benchy"; model 2 "boat"])])])].

Definition group (id : Z) (name : string) : JsVal :=
  JObj [("id", JNum id); ("groupName", JStr name)].

(** Creality Cloud answers, one with two items and one with another one. *)
Definition creality_of (items : list JsVal) : JsVal :=
  JObj [("code", JNum 0); ("result", JObj [("list", JArr items)])].

Definition creality_two : JsVal := creality_of [group 1 "benchy"; group 2 "boat"].

Definition creality_new : JsVal := creality_of [group 3 "vase"].

(** The upstream with only Printables online, the thing it answers being
    [printables_two]. *)
Definition printables_online : SearchNet :=
  {| sn_thingiverse_api := NetFail; sn_thingiverse := NetFail;
     sn_printables := Response 200 (Some printables_two);
     sn_thangs := NetFail; sn_thangs_alt := NetFail;
     sn_youmagine := NetFail; sn_myminifactory := NetFail;
     sn_myminifactory_page := NetFail; sn_crealitycloud := NetFail |}.



Definition creality_online (answer : JsVal) : PopularNet :=
  {| pn_thingiverse_api := NetFail; pn_printables := NetFail;
     pn_printables_search := NetFail; pn_youmagine := NetFail;
     pn_crealitycloud := Response 200 (Some answer) |}.

Definition png : ImageProxy.Upstream :=
  {| ImageProxy.up_body := [Byte.x89; Byte.x50; Byte.x4e; Byte.x47];
     ImageProxy.up_content_type := Some "image/png" |}.

Definition jpg : ImageProxy.Upstream :=
  {| ImageProxy.up_body := [Byte.xff; Byte.xd8];
     ImageProxy.up_content_type := None |}.

(** An image cache with a hundred entries stored at time 0. *)
Definition old_entry : ImageProxy.CachedImage :=
  {| ImageProxy.buffer := []; ImageProxy.contentType := "image/png";
     ImageProxy.timestamp := 0 |}.

Definition crowded : gmap string ImageProxy.CachedImage :=
  list_to_map
    ((fun i : nat => ("https://cdn.example/" +:+ pretty i, old_entry)) <$> seq 0 100).

End Samples.

(** ** The limit as the specification words it *)

Module Spec.

(** [clamp(x, lo, hi)] *)
Definition clamp (x lo hi : Z) : Z := Z.max lo (Z.min x hi).

(** The specification's effective limit:
    [clamp(parsed_limit_or_default, 1, 20)] with default 10. *)
Definition effective_limit (limit : option string) : Z :=
  clamp (Js.parseInt_or limit 10) 1 20.

End Spec.

(* ===================================================================== *)
(** * The rest of the server *)
(* ===================================================================== *)

(** ** [encodeURIComponent] *)

Module Uri.
Import Js.

(** The characters [encodeURIComponent] leaves as they are:
    [A-Z a-z 0-9 - _ . ! ~ * ' ( )]. *)
Definition unreserved (c : Ascii.ascii) : bool :=
  let n := Z.of_nat (Ascii.nat_of_ascii c) in
  ((65 <=? n) && (n <=? 90)) || ((97 <=? n) && (n <=? 122))
  || ((48 <=? n) && (n <=? 57))
  || (n =? 45) || (n =? 95) || (n =? 46) || (n =? 33) || (n =? 126)
  || (n =? 42) || (n =? 39) || (n =? 40) || (n =? 41).

(** An upper-case hexadecimal digit. *)
Definition hex_char (d : Z) : Ascii.ascii :=
  Ascii.ascii_of_nat (Z.to_nat (if d <? 10 then 48 + d else 55 + d)).

(** [encodeURIComponent(s)]: every other octet of the UTF-8 form of [s]
    is written as an escape.  (It throws on a lone surrogate, which a
    string of octets does not have.) *)
Fixpoint encodeURIComponent (s : string) : string :=
  match s with
  | EmptyString => EmptyString
  | String c rest =>
      if unreserved c then String c (encodeURIComponent rest)
      else
        let n := Z.of_nat (Ascii.nat_of_ascii c) in
        String "%"%char
          (String (hex_char (n / 16))
             (String (hex_char (n mod 16)) (encodeURIComponent rest)))
  end.

(** Well-formed UTF-8, read with the same automaton as [decode_from]:
    [pending] continuation octets are owed, the next one within
    [lo..hi]. *)
Fixpoint utf8_from (s : string) (pending : nat) (lo hi : Z) : bool :=
  match s with
  | EmptyString => Nat.eqb pending 0
  | String c rest =>
      let b := Z.of_nat (Ascii.nat_of_ascii c) in
      match pending with
      | O =>
          if b <? 128 then utf8_from rest 0 128 191
          else match utf8_lead b with
               | Some (n, lo', hi') => utf8_from rest n lo' hi'
               | None => false
               end
      | S n => (lo <=? b) && (b <=? hi) && utf8_from rest n 128 191
      end
  end.

Definition utf8 (s : string) : bool := utf8_from s 0 128 191.

(** How often the character [c] occurs in [s]. *)
Fixpoint occurrences (c : Ascii.ascii) (s : string) : nat :=
  match s with
  | EmptyString => O
  | String c' rest =>
      ((if Ascii.eqb c c' then 1 else 0) + occurrences c rest)%nat
  end.

End Uri.

(** ** [GET /api/search-urls] *)

Module SearchUrls.
Import Js Http Uri.

(** The route answers 400 with an error or 200 with the object of
    links. *)
Inductive Response :=
| BadRequest (error : Error)
| Links (searchUrls : list (string * string)).

Definition status (r : Response) : Z :=
  match r with BadRequest _ => 400 | Links _ => 200 end.

Definition search_urls (q : option string) : Response :=
  if Routes.missing q then BadRequest QueryRequired
  else
    let e := encodeURIComponent (default EmptyString q) in
    Links
      [ ("thingiverse",
         "https://www.thingiverse.com/search?q=" +:+ e +:+ "&type=things&sort=popular");
        ("printables", "https://www.printables.com/search/models?q=" +:+ e);
        ("thangs", "https://thangs.com/search/" +:+ e +:+ "?scope=all");
        ("youmagine", "https://www.youmagine.com/designs?q=" +:+ e);
        ("myminifactory", "https://www.myminifactory.com/search/?query=" +:+ e);
        ("crealitycloud", "https://www.crealitycloud.com/search/" +:+ e) ].

End SearchUrls.

(** ** Records as the routes hand them out *)

Module Records.
Import Js Adapters Routes.

(** The key of a site in the adapter tables. *)
Definition site_id (site : Site) : string :=
  match site with
  | thingiverse => "thingiverse"
  | printables => "printables"
  | thangs => "thangs"
  | youmagine => "youmagine"
  | myminifactory => "myminifactory"
  | crealitycloud => "crealitycloud"
  end.

(** A record as the adapter holds it: tagged with [id], with a title, a
    creator and a link that are truthy, and no field [null] or
    [undefined]. *)
Definition complete (id : string) (r : NormalizedRecord) : Prop :=
  source r = id
  ∧ truthy (title r) = true ∧ truthy (creator r) = true ∧ truthy (url r) = true
  ∧ nullish (thumbnail r) = false ∧ nullish (likes r) = false
  ∧ nullish (downloads r) = false.

(** A number beyond the range of doubles, which [res.json] writes as
    [null]. *)
Definition overflowed (v : JsVal) : bool :=
  match v with JInf _ => true | _ => false end.

(** A field as the client reads it: truthy, or present, unless the
    upstream put a number beyond the range of doubles there. *)
Definition legible (v : JsVal) : Prop :=
  truthy (sent v) = true ∨ overflowed v = true.

Definition present (v : JsVal) : Prop :=
  nullish (sent v) = false ∨ overflowed v = true.

(** A record that can be shown, as the client reads it. *)
Definition displayable (id : string) (r : NormalizedRecord) : Prop :=
  source r = id
  ∧ legible (title r) ∧ legible (creator r) ∧ legible (url r)
  ∧ present (thumbnail r) ∧ present (likes r) ∧ present (downloads r).

(** Every array of records in a response object holds records that can
    be shown and that carry the key they are filed under. *)
Definition filed (results : list (string * Http.Value)) : Prop :=
  ∀ k rs, (k, Http.VRecords rs) ∈ results → Forall (displayable k) rs.

(** No array of a site other than Printables and Creality Cloud is longer
    than [limit]. *)
Definition truncated (limit : Z) (results : list (string * Http.Value)) : Prop :=
  ∀ k rs, (k, Http.VRecords rs) ∈ results →
          k ≠ "printables" → k ≠ "crealitycloud" →
          Z.of_nat (List.length rs) <= limit.

(** Every request of a fetch-popular adapter fails. *)
Definition popular_fails (net : PopularNet) : Prop :=
  failed (pn_thingiverse_api net) ∧ failed (pn_printables net)
  ∧ failed (pn_printables_search net) ∧ page_failed (pn_youmagine net)
  ∧ failed (pn_crealitycloud net).

End Records.

(** ** What the image cache holds *)

Module Invariants.
Import ImageProxy.

(** Every key passed the scheme test and every entry has a content
    type. *)
Definition well_kept (imageCache : gmap string CachedImage) : Prop :=
  ∀ k e, imageCache !! k = Some e →
         has_http_scheme k = true ∧ contentType e ≠ EmptyString.

(** A burst of [n] requests at the time [t] for images that differ, each
    answered by the upstream. *)
Definition burst (t : Z) (n : nat) : list ImageRequest :=
  (fun i : nat =>
     {| ir_url := Some ("https://cdn.example/" +:+ pretty i);
        ir_now := t; ir_now' := t; ir_now'' := t;
        ir_reply := Adapters.Response 200 (Some Samples.png) |}) <$> seq 0 n.

End Invariants.

(* ===================================================================== *)
(** * Properties *)
(* ===================================================================== *)

Import Js Adapters Http.

Section RouteProperties.
Import Routes.

(** ** Truncation *)

Lemma slice0_length {A} (a : list A) (n : Z) :
  0 <= n → Z.of_nat (length (slice0 a n)) <= n.
Proof.
  intros Hn. unfold slice0.
  destruct (Z.ltb_spec n 0) as [?|_]; [lia|].
  rewrite length_take. lia.
Qed.

Lemma array_slice_map_length {B} (f : JsVal → option B) a n rs :
  0 <= n → array_slice_map f a n = Some rs → Z.of_nat (length rs) <= n.
Proof.
  intros Hn. destruct a; simpl; try discriminate.
  intros Hm. apply length_mapM in Hm. rewrite <- Hm.
  by apply slice0_length.
Qed.

Lemma each_thing_card_length limit els results :
  Z.of_nat (length (each_thing_card limit els results))
  <= Z.max limit (Z.of_nat (length results)).
Proof.
  revert results. induction els as [|el els IH]; intros results; simpl; [lia|].
  destruct (Z.geb_spec (Z.of_nat (length results)) limit) as [?|Hlt]; [lia|].
  etrans; [apply IH|].
  destruct (card_href el) as [href|]; [|lia].
  destruct (_ && _); [|lia].
  rewrite length_app. simpl. lia.
Qed.

Lemma each_object_link_length limit els results :
  Z.of_nat (length (each_object_link limit els results))
  <= Z.max limit (Z.of_nat (length results)).
Proof.
  revert results. induction els as [|el els IH]; intros results; simpl; [lia|].
  destruct (Z.geb_spec (Z.of_nat (length results)) limit) as [?|Hlt]; [lia|].
  etrans; [apply IH|].
  destruct (link_href el) as [href|]; [|lia].
  destruct (_ && _); [|lia].
  rewrite length_app. simpl. lia.
Qed.

Lemma each_card_image_length limit els results seen :
  Z.of_nat (length (each_card_image limit els results seen))
  <= Z.max limit (Z.of_nat (length results)).
Proof.
  revert results seen.
  induction els as [|el els IH]; intros results seen; simpl; [lia|].
  destruct (Z.geb_spec (Z.of_nat (length results)) limit) as [?|Hlt]; [lia|].
  destruct (_ || _); [apply IH|].
  destruct (img_link_href el) as [href|]; [|apply IH].
  destruct (_ && _); [|apply IH].
  etrans; [apply IH|]. rewrite length_app. simpl. lia.
Qed.

(** The adapters that truncate: with a limit that is not negative they
    return at most [limit] records, whatever the upstream sends. *)

Local Ltac bound_slice :=
  match goal with
  | H : array_slice_map _ _ _ = Some _ |- _ =>
      apply array_slice_map_length in H; [simpl; lia | lia]
  end.

Lemma thingiverse_api_length limit reply rs :
  0 <= limit → thingiverse_api limit reply = Some rs →
  Z.of_nat (length rs) <= limit.
Proof.
  intros Hl. unfold thingiverse_api.
  destruct reply as [|st body]; [done|].
  destruct (ok st); [|done].
  destruct body as [data|]; [|done]; simpl.
  destruct (get data "hits") as [h|]; [|done]; simpl.
  destruct (nonempty_array _); [|done].
  intros H. bound_slice.
Qed.

Lemma searchThangs_length query limit page reply altReply :
  0 <= limit →
  Z.of_nat (length (searchThangs query limit page reply altReply)) <= limit.
Proof.
  intros Hl. unfold searchThangs, or_empty.
  assert (Halt : ∀ rs,
    match altReply with
    | NetFail => None
    | Response status body =>
        if ok status then
          data ← body;
          array_slice_map thangs_alt_record
            (or (or (oget data "models") (oget data "results")) (JArr [])) limit
        else Some []
    end = Some rs → Z.of_nat (length rs) <= limit).
  { intros rs. destruct altReply as [|st body]; [done|].
    destruct (ok st); [|intros [= <-]; simpl; lia].
    destruct body as [data|]; [|done]. simpl. intros H. bound_slice. }
  destruct reply as [|st body]; [simpl; lia|].
  destruct (ok st).
  - destruct body as [text|]; [|simpl; lia]. simpl.
    destruct text as [data|]; simpl.
    + destruct (isArray _).
      * destruct (array_slice_map thangs_record _ _) as [rs|] eqn:E.
        -- simpl. bound_slice.
        -- destruct (match altReply with NetFail => _ | _ => _ end) as [rs|] eqn:E';
             simpl; [by apply Halt|lia].
      * destruct (match altReply with NetFail => _ | _ => _ end) as [rs|] eqn:E';
          simpl; [by apply Halt|lia].
    + destruct (match altReply with NetFail => _ | _ => _ end) as [rs|] eqn:E';
        simpl; [by apply Halt|lia].
  - destruct (match altReply with NetFail => _ | _ => _ end) as [rs|] eqn:E';
      simpl; [by apply Halt|lia].
Qed.

Lemma searchMyMiniFactory_length query limit page reply pageReply :
  0 <= limit →
  Z.of_nat (length (searchMyMiniFactory query limit page reply pageReply)) <= limit.
Proof.
  intros Hl. unfold searchMyMiniFactory, or_empty.
  assert (Hscrape : ∀ rs,
    match pageReply with
    | NetFail => None
    | Response _ body => html ← body; Some (each_object_link limit html [])
    end = Some rs → Z.of_nat (length rs) <= limit).
  { intros rs. destruct pageReply as [|st body]; [done|].
    destruct body as [html|]; [|done]. simpl. intros [= <-].
    pose proof (each_object_link_length limit html []) as H. simpl in H. lia. }
  destruct reply as [|st body]; [simpl; lia|].
  destruct (ok st).
  - destruct body as [text|]; [|simpl; lia]. simpl.
    destruct text as [data|]; simpl.
    + destruct (nonempty_array _).
      * destruct (array_slice_map myminifactory_record _ _) as [rs|] eqn:E.
        -- simpl. bound_slice.
        -- destruct (match pageReply with NetFail => _ | _ => _ end) as [rs|] eqn:E';
             simpl; [by apply Hscrape|lia].
      * destruct (match pageReply with NetFail => _ | _ => _ end) as [rs|] eqn:E';
          simpl; [by apply Hscrape|lia].
    + destruct (match pageReply with NetFail => _ | _ => _ end) as [rs|] eqn:E';
        simpl; [by apply Hscrape|lia].
  - destruct (match pageReply with NetFail => _ | _ => _ end) as [rs|] eqn:E';
      simpl; [by apply Hscrape|lia].
Qed.

Lemma youmagine_cards_length limit reply :
  0 <= limit → Z.of_nat (length (youmagine_cards limit reply)) <= limit.
Proof.
  intros Hl. unfold youmagine_cards, or_empty.
  destruct reply as [|st body]; [simpl; lia|].
  destruct body as [html|]; simpl; [|lia].
  pose proof (each_card_image_length limit html [] ∅) as H. simpl in H. lia.
Qed.

Lemma searchThingiverse_length key query limit page apiReply reply :
  0 <= limit →
  Z.of_nat (length (searchThingiverse key query limit page apiReply reply)) <= limit.
Proof.
  intros Hl. unfold searchThingiverse, or_empty.
  destruct (if has_key key then _ else _) as [rs|] eqn:E.
  - simpl. destruct (has_key key); [|done].
    by eapply thingiverse_api_length.
  - destruct reply as [|st body]; [simpl; lia|].
    destruct body as [html|]; simpl; [|lia].
    destruct (match next_data html with Some _ => _ | None => _ end) as [rs|] eqn:E'.
    + simpl. destruct (next_data html) as [[nextData|]|]; simpl in E'; try done.
      destruct (nonempty_array _); [|done]. bound_slice.
    + simpl. pose proof (each_thing_card_length limit (cards html) []) as H.
      simpl in H. lia.
Qed.

Lemma fetchPopularThingiverse_length key limit apiReply :
  0 <= limit →
  Z.of_nat (length (fetchPopularThingiverse key limit apiReply)) <= limit.
Proof.
  intros Hl. unfold fetchPopularThingiverse.
  destruct (if has_key key then _ else _) as [rs|] eqn:E.
  - destruct (has_key key); [|done]. by eapply thingiverse_api_length.
  - by apply slice0_length.
Qed.

Lemma fetchPopularThangs_length limit :
  0 <= limit → Z.of_nat (length (fetchPopularThangs limit)) <= limit.
Proof. apply slice0_length. Qed.

Lemma fetchPopularMyMiniFactory_length limit :
  0 <= limit → Z.of_nat (length (fetchPopularMyMiniFactory limit)) <= limit.
Proof. apply slice0_length. Qed.

(** The same, through the adapter tables of the routes: every adapter but
    the two of Printables and of Creality Cloud. *)
Lemma searchFunctions_length key site q limit page net :
  0 <= limit → site ≠ printables → site ≠ crealitycloud →
  Z.of_nat (length (searchFunctions key site q limit page net)) <= limit.
Proof.
  intros Hl Hp Hc. destruct site; simpl; try done.
  - by apply searchThingiverse_length.
  - by apply searchThangs_length.
  - by apply youmagine_cards_length.
  - by apply searchMyMiniFactory_length.
Qed.

Lemma fetchFunctions_length key string_gt0 site limit net :
  0 <= limit → site ≠ printables → site ≠ crealitycloud →
  Z.of_nat (length (fetchFunctions key string_gt0 site limit net)) <= limit.
Proof.
  intros Hl Hp Hc. destruct site; simpl; try done.
  - by apply fetchPopularThingiverse_length.
  - by apply fetchPopularThangs_length.
  - by apply youmagine_cards_length.
  - by apply fetchPopularMyMiniFactory_length.
Qed.

(** ** The limit *)

Lemma searchLimit_le limit : searchLimit limit <= 20.
Proof. unfold searchLimit. lia. Qed.

Lemma searchLimit_default s :
  parseInt s = None ∨ parseInt s = Some 0 → searchLimit (Some s) = 10.
Proof. unfold searchLimit, parseInt_or. by intros [->| ->]. Qed.

Lemma searchLimit_absent : searchLimit None = 10.
Proof. reflexivity. Qed.

Lemma searchLimit_clamp limit :
  1 <= parseInt_or limit 10 → searchLimit limit = Spec.effective_limit limit.
Proof. unfold searchLimit, Spec.effective_limit, Spec.clamp. lia. Qed.

Lemma searchLimit_negative limit :
  parseInt_or limit 10 < 1 →
  searchLimit limit = parseInt_or limit 10 ∧ Spec.effective_limit limit = 1.
Proof. unfold searchLimit, Spec.effective_limit, Spec.clamp. lia. Qed.

(** C2.  The claim fails on the code: [Math.min(parseInt(limit) || 10, 20)]
    has no lower bound.  For [limit=-5] the specification's effective
    limit is 1; the routes use -5, report it, and pass it to the
    adapters, where [slice(0, -5)] drops the last five records of the
    ten. *)
Theorem negative_limit_is_not_raised (key : string) (string_gt0 : string → bool)
    (net : nat → SearchNet) (pnet : nat → PopularNet) (now now' : Z) :
  searchLimit (Some "-5") = -5
  ∧ Spec.effective_limit (Some "-5") = 1
  ∧ body (fst (search key (Some "benchy") (Some "nosuchsite") (Some "-5") None net))
    = SearchBody 1 (-5) []
  ∧ search_site key "thangs" (Some "benchy") (Some "-5") None (net 0%nat)
    = {| status := 200;
         body := SiteBody "thangs" 1
                   (VRecords (searchThangs "benchy" (-5) 1 (sn_thangs (net 0%nat))
                                (sn_thangs_alt (net 0%nat)))) |}
  ∧ body (fst (fst (popular key string_gt0 (Some "thangs") (Some "-5") now now'
                      pnet popularCache)))
    = PopularBody [("thangs", VRecords (take 5 fallback_thangs))].
Proof. split_and!; reflexivity. Qed.

(** C3.  The claim fails on the code: the Printables and the Creality
    Cloud adapters, in search and in popular, map over everything the
    upstream sends.  With [limit = 1] and two items in the answer each of
    them returns two records. *)
Theorem upstream_items_are_not_truncated (string_gt0 : string → bool) :
  length (searchPrintables "benchy" 1 1 (Response 200 (Some Samples.printables_two)))
  = 2%nat
  ∧ length (searchCrealityCloud "benchy" 1 1 (Response 200 (Some Samples.creality_two)))
    = 2%nat
  ∧ length (fetchPopularPrintables string_gt0 1
              (Response 200 (Some Samples.printables_two)) NetFail)
    = 2%nat
  ∧ length (fetchPopularCrealityCloud 1 (Response 200 (Some Samples.creality_two)))
    = 2%nat.
Proof. split_and!; reflexivity. Qed.

(** ** Objects built by assignment *)

Lemma assoc_app {A} (l1 l2 : list (string * A)) k :
  assoc (l1 ++ l2) k = match assoc l1 k with Some v => Some v | None => assoc l2 k end.
Proof.
  induction l1 as [|[k' v] l1 IH]; simpl; [done|].
  by destruct (String.eqb k k').
Qed.

Lemma assoc_Some_elem {A} (l : list (string * A)) k v :
  assoc l k = Some v → (k, v) ∈ l.
Proof.
  induction l as [|[k' w] l IH]; simpl; [done|].
  destruct (String.eqb_spec k k') as [->|_].
  - intros [= ->]. left.
  - intros H. right. by apply IH.
Qed.

Lemma assoc_None_keys {A} (l : list (string * A)) k :
  assoc l k = None ↔ k ∉ l.*1.
Proof.
  induction l as [|[k' w] l IH]; simpl.
  - split; [intros _; apply not_elem_of_nil|done].
  - rewrite not_elem_of_cons. destruct (String.eqb_spec k k') as [->|Hne].
    + split; [done|]. by intros [? _].
    + rewrite IH. tauto.
Qed.

Lemma obj_update_None obj key v :
  obj_update obj key v = None ↔ assoc obj key = None.
Proof.
  induction obj as [|[k w] obj IH]; simpl; [done|].
  destruct (String.eqb key k); [done|].
  destruct (obj_update obj key v); simpl; intuition congruence.
Qed.

Lemma obj_update_Some obj key v obj' k :
  obj_update obj key v = Some obj' →
  assoc obj' k = if String.eqb k key then Some v else assoc obj k.
Proof.
  revert obj'. induction obj as [|[k' w] obj IH]; intros obj'; simpl; [done|].
  destruct (String.eqb_spec key k') as [->|Hne].
  - intros [= <-]. simpl. by destruct (String.eqb k k').
  - destruct (obj_update obj key v) as [o|]; simpl; [|done].
    intros [= <-]. simpl. rewrite (IH o eq_refl).
    destruct (String.eqb_spec k k') as [->|?]; [|done].
    by destruct (String.eqb_spec k' key) as [->|?].
Qed.

Lemma obj_update_keys obj key v obj' :
  obj_update obj key v = Some obj' → obj'.*1 = obj.*1.
Proof.
  revert obj'. induction obj as [|[k' w] obj IH]; intros obj'; simpl; [done|].
  destruct (String.eqb_spec key k') as [->|Hne].
  - by intros [= <-].
  - destruct (obj_update obj key v) as [o|]; simpl; [|done].
    intros [= <-]. rewrite !fmap_cons. f_equal. by apply IH.
Qed.

Lemma assoc_obj_set obj key v k :
  key ≠ "__proto__" →
  assoc (obj_set obj key v) k = if String.eqb k key then Some v else assoc obj k.
Proof.
  intros Hne. unfold obj_set.
  destruct (String.eqb_spec key "__proto__"); [done|].
  destruct (obj_update obj key v) as [o|] eqn:E; simpl.
  - by apply obj_update_Some.
  - apply obj_update_None in E. rewrite assoc_app. simpl.
    destruct (String.eqb_spec k key) as [->|?].
    + by rewrite E.
    + by destruct (assoc obj k).
Qed.

Lemma assoc_obj_set_proto obj v : obj_set obj "__proto__" v = obj.
Proof. done. Qed.

Lemma obj_set_NoDup obj key v : NoDup obj.*1 → NoDup (obj_set obj key v).*1.
Proof.
  intros Hnd. unfold obj_set.
  destruct (String.eqb key "__proto__"); [done|].
  destruct (obj_update obj key v) as [o|] eqn:E; simpl.
  - by rewrite (obj_update_keys _ _ _ _ E).
  - apply obj_update_None, assoc_None_keys in E.
    rewrite fmap_app. simpl. apply NoDup_app. split_and!; [done| |apply NoDup_singleton].
    intros x Hx ->%list_elem_of_singleton. done.
Qed.

Lemma obj_set_keys obj key v k :
  k ∈ (obj_set obj key v).*1 ↔ k ∈ obj.*1 ∨ (k = key ∧ key ≠ "__proto__").
Proof.
  unfold obj_set.
  destruct (String.eqb_spec key "__proto__") as [->|Hne]; [intuition congruence|].
  destruct (obj_update obj key v) as [o|] eqn:E; simpl.
  - rewrite (obj_update_keys _ _ _ _ E). split; [by left|].
    intros [?|[-> _]]; [done|].
    destruct (assoc obj key) eqn:E'.
    + apply assoc_Some_elem in E'. by apply (list_elem_of_fmap_2 fst) in E'.
    + apply (obj_update_None obj key v) in E'. congruence.
  - rewrite fmap_app, elem_of_app. simpl. rewrite list_elem_of_singleton. tauto.
Qed.

(** What [assemble] leaves under a key: the value of the last result for
    that key. *)
Lemma assoc_foldl_obj_set (rs obj : list (string * Value)) k :
  k ≠ "__proto__" →
  assoc (foldl (fun o r => obj_set o (fst r) (snd r)) obj rs) k =
  match assoc (reverse rs) k with Some v => Some v | None => assoc obj k end.
Proof.
  intros Hk. revert obj. induction rs as [|[k' v] rs IH]; intros obj; simpl; [done|].
  rewrite IH, reverse_cons, assoc_app. simpl.
  destruct (assoc (reverse rs) k); [done|].
  destruct (String.eqb_spec k' "__proto__") as [->|Hne].
  - rewrite assoc_obj_set_proto. by destruct (String.eqb_spec k "__proto__").
  - rewrite assoc_obj_set by done. by destruct (String.eqb k k').
Qed.

Lemma assoc_assemble rs k :
  k ≠ "__proto__" → assoc (assemble rs) k = assoc (reverse rs) k.
Proof.
  intros Hk. unfold assemble. rewrite assoc_foldl_obj_set by done.
  by destruct (assoc (reverse rs) k).
Qed.

Lemma foldl_obj_set_NoDup (rs obj : list (string * Value)) :
  NoDup obj.*1 → NoDup (foldl (fun o r => obj_set o (fst r) (snd r)) obj rs).*1.
Proof.
  revert obj. induction rs as [|r rs IH]; intros obj Hnd; simpl; [done|].
  apply IH. by apply obj_set_NoDup.
Qed.

Lemma assemble_NoDup rs : NoDup (assemble rs).*1.
Proof. apply foldl_obj_set_NoDup. simpl. apply NoDup_nil_2. Qed.

Lemma foldl_obj_set_keys (rs obj : list (string * Value)) k :
  k ∈ (foldl (fun o r => obj_set o (fst r) (snd r)) obj rs).*1 ↔
  k ∈ obj.*1 ∨ (k ∈ rs.*1 ∧ k ≠ "__proto__").
Proof.
  revert obj. induction rs as [|[k' v] rs IH]; intros obj; simpl.
  - split; [by left|]. intros [?|[H _]]; [done|]. by apply elem_of_nil in H.
  - rewrite IH, obj_set_keys, elem_of_cons. intuition (subst; auto).
Qed.

Lemma assemble_keys rs k :
  k ∈ (assemble rs).*1 ↔ k ∈ rs.*1 ∧ k ≠ "__proto__".
Proof.
  unfold assemble. rewrite foldl_obj_set_keys. simpl.
  split; [|by right]. intros [H|?]; [by apply elem_of_nil in H|done].
Qed.

(** [json] keeps the order and the serializable entries. *)
Lemma assoc_json obj k v :
  assoc obj k = Some v → serializable v = true → assoc (json obj) k = Some v.
Proof.
  unfold json. induction obj as [|[k' w] obj IH]; simpl; [done|].
  destruct (String.eqb_spec k k') as [->|Hne].
  - intros [= ->] ->. simpl. by rewrite String.eqb_refl.
  - intros H Hs. destruct (serializable w); simpl; [|by apply IH].
    destruct (String.eqb_spec k k'); [done|]. by apply IH.
Qed.

Lemma json_NoDup obj : NoDup obj.*1 → NoDup (json obj).*1.
Proof.
  unfold json. induction obj as [|[k' w] obj IH]; simpl; [done|].
  intros [Hk Hnd]%NoDup_cons. destruct (serializable w); simpl; [|by apply IH].
  apply NoDup_cons. split; [|by apply IH].
  intros Hin. apply Hk. apply list_elem_of_fmap in Hin as [[k v] [-> Hin]].
  apply list_elem_of_In, filter_In in Hin as [Hin _]. apply list_elem_of_In in Hin.
  by apply (list_elem_of_fmap_2 fst) in Hin.
Qed.

Lemma json_keys obj k : k ∈ (json obj).*1 → k ∈ obj.*1.
Proof.
  unfold json. intros Hin. apply list_elem_of_fmap in Hin as [[k' v] [-> Hin]].
  apply list_elem_of_In, filter_In in Hin as [Hin _]. apply list_elem_of_In in Hin.
  by apply (list_elem_of_fmap_2 fst) in Hin.
Qed.

(** An object holds one entry per key. *)
Lemma one_entry (obj : list (string * Value)) k v :
  NoDup obj.*1 → assoc obj k = Some v →
  List.filter (fun kv => String.eqb (fst kv) k) obj = [(k, v)].
Proof.
  induction obj as [|[k' w] obj IH]; simpl; [done|].
  intros [Hk Hnd]%NoDup_cons.
  destruct (String.eqb_spec k k') as [->|Hne].
  - intros [= ->]. rewrite String.eqb_refl. f_equal.
    clear IH Hnd. induction obj as [|[k2 w2] obj IH]; simpl; [done|].
    simpl in Hk. apply not_elem_of_cons in Hk as [Hne Hk].
    destruct (String.eqb_spec k2 k'); [congruence|]. by apply IH.
  - intros H. destruct (String.eqb_spec k' k); [congruence|]. by apply IH.
Qed.

(** ** The fan-out *)

Lemma imap_keys {B} (f : nat → string → B) (l : list string) :
  (imap (fun i s => (s, f i s)) l).*1 = l.
Proof.
  revert f. induction l as [|x l IH]; intros f; simpl; [done|].
  f_equal. apply IH.
Qed.

(** The last of the calls for a key decides what is kept for it. *)
Lemma assoc_reverse_imap {B} (f : nat → string → B) (l : list string) k :
  k ∈ l →
  ∃ i, l !! i = Some k ∧ (∀ j, (i < j)%nat → l !! j ≠ Some k) ∧
       assoc (reverse (imap (fun i s => (s, f i s)) l)) k = Some (f i k).
Proof.
  induction l as [|x l IH] using rev_ind; [by intros ?%elem_of_nil|].
  intros Hin. rewrite imap_app, reverse_app. simpl.
  rewrite Nat.add_0_r.
  destruct (String.eqb_spec k x) as [->|Hne].
  - exists (length l). split_and!.
    + by rewrite lookup_app_r, Nat.sub_diag by lia.
    + intros j Hj. rewrite lookup_ge_None_2; [done|].
      rewrite length_app. simpl. lia.
    + done.
  - apply elem_of_app in Hin as [Hin|Hin%list_elem_of_singleton]; [|done].
    destruct (IH Hin) as (i & Hi & Hlast & Hv).
    exists i. split_and!.
    + by apply lookup_app_l_Some.
    + intros j Hj. destruct (decide (j < length l)%nat) as [Hlt|Hge].
      * rewrite lookup_app_l by done. by apply Hlast.
      * rewrite lookup_app_r by lia. intros Hx.
        destruct (j - length l)%nat; simpl in Hx; [congruence|done].
    + done.
Qed.

Lemma called_elem sites k : k ∈ called sites ↔ k ∈ sites ∧ is_Some (table_get k).
Proof.
  unfold called. rewrite !list_elem_of_In, filter_In, bool_decide_eq_true. done.
Qed.

Lemma table_get_own name site :
  assoc site_names name = Some site → table_get name = Some (Own site).
Proof. unfold table_get. by intros ->. Qed.

Lemma own_not_proto name site :
  assoc site_names name = Some site → name ≠ "__proto__".
Proof. intros H ->. vm_compute in H. done. Qed.

(** Under every recognized site that was requested, the assembled object
    holds what the last call for that site settled to. *)
Lemma fan_out_own call sites name site :
  assoc site_names name = Some site → name ∈ sites →
  ∃ i, called sites !! i = Some name ∧
       (∀ j, (i < j)%nat → called sites !! j ≠ Some name) ∧
       assoc (assemble (fan_out call sites)) name = Some (settle (call i (Own site))).
Proof.
  intros Hsite Hin.
  assert (Hc : name ∈ called sites).
  { apply called_elem. split; [done|]. rewrite (table_get_own _ _ Hsite). eauto. }
  destruct (assoc_reverse_imap
              (fun i s => settle (table_get s ≫= call i)) (called sites) name Hc)
    as (i & Hi & Hlast & Hv).
  exists i. split_and!; [done..|].
  rewrite assoc_assemble by (by eapply own_not_proto).
  unfold fan_out. rewrite Hv. by rewrite (table_get_own _ _ Hsite).
Qed.

Lemma fan_out_keys call sites : (fan_out call sites).*1 = called sites.
Proof. unfold fan_out. apply imap_keys. Qed.

(** How often a key was called: as often as it was requested. *)
Lemma called_count sites name :
  is_Some (table_get name) →
  length (List.filter (String.eqb name) (called sites))
  = length (List.filter (String.eqb name) sites).
Proof.
  intros Hs. unfold called. induction sites as [|s sites IH]; simpl; [done|].
  destruct (String.eqb_spec name s) as [<-|Hne].
  - rewrite bool_decide_eq_true_2 by done. simpl. rewrite String.eqb_refl.
    simpl. by rewrite IH.
  - destruct (bool_decide _); simpl; [|done].
    by destruct (String.eqb_spec name s).
Qed.

(** ** Adapters fail open *)

Lemma searchPrintables_failed query limit page reply :
  failed reply → searchPrintables query limit page reply = [].
Proof.
  unfold searchPrintables. destruct reply as [|st content]; simpl; [done|].
  intros [->| ->]; [done|]. by destruct (ok st).
Qed.

Lemma creality_list_failed reply : failed reply → creality_list reply = [].
Proof.
  unfold creality_list. destruct reply as [|st content]; simpl; [done|].
  intros [->| ->]; [done|]. by destruct (ok st).
Qed.


Lemma youmagine_cards_failed limit reply :
  page_failed reply → youmagine_cards limit reply = [].
Proof.
  unfold youmagine_cards. destruct reply as [|st content]; simpl; [done|].
  by intros ->.
Qed.


Lemma thingiverse_api_failed limit reply :
  failed reply → thingiverse_api limit reply = None.
Proof.
  unfold thingiverse_api. destruct reply as [|st content]; simpl; [done|].
  intros [->| ->]; [done|]. by destruct (ok st).
Qed.




(** ** [GET /api/search] *)

(** The handler with the calls left open: a member of the table that
    throws leaves an empty array under its key, and nothing else. *)
Lemma search_with_entries
    (run : nat → Site → option (list NormalizedRecord))
    (q siteParam limit page : option string) :
  missing q = false →
  ∃ results,
    search_with (fun i => call_member (run i) (ArgString (default "" q)))
       q siteParam limit page
    = ({| status := 200;
          body := SearchBody (searchPage page) (searchLimit limit) results |},
       called (enabledSites siteParam)) ∧
    NoDup results.*1 ∧
    ∀ name site,
      assoc site_names name = Some site → name ∈ enabledSites siteParam →
      ∃ i, called (enabledSites siteParam) !! i = Some name ∧
           (∀ j, (i < j)%nat → called (enabledSites siteParam) !! j ≠ Some name) ∧
           assoc results name = Some (VRecords (default [] (run i site))).
Proof.
  intros Hq. unfold search_with. rewrite Hq.
  eexists. split; [reflexivity|]. split.
  { apply json_NoDup, assemble_NoDup. }
  intros name site Hsite Hin.
  destruct (fan_out_own
              (fun i => call_member (run i) (ArgString (default "" q)))
              (enabledSites siteParam) name site Hsite Hin)
    as (i & Hi & Hlast & Hv).
  exists i. split_and!; [done..|].
  simpl in Hv. destruct (run i site) as [records|]; simpl in *;
    by apply assoc_json.
Qed.

(** The route on strings is the route on the parameters as they arrive,
    when each is given once. *)
Lemma search_request_strings key (q : string) siteParam limit page net :
  q ≠ "" →
  search_request key (Some (Str q)) (Str <$> siteParam) limit page net
  = (Answered (fst (search key (Some q) siteParam (text <$> limit) (text <$> page)
                      net)),
     snd (search key (Some q) siteParam (text <$> limit) (text <$> page) net)).
Proof.
  intros Hq. unfold search_request, search, search_with, call_search. simpl.
  destruct (String.eqb_spec q "") as [?|_]; [done|].
  by destruct siteParam.
Qed.

Lemma popular_request_strings key string_gt0 siteParam limit now now' net cache :
  popular_request key string_gt0 (Str <$> siteParam) limit now now' net cache
  = (let served := popular key string_gt0 siteParam (text <$> limit) now now' net
                     cache in
     (Answered (fst (fst served)), snd (fst served), snd served)).
Proof.
  unfold popular_request.
  destruct siteParam as [s|]; simpl;
    by destruct (popular _ _ _ _ _ _ _ _) as [[? ?] ?].
Qed.

(** A [sites] parameter that is repeated is an array, which has no
    [split]: both routes throw before any adapter is called, and
    [/api/popular] before it looks at its cache. *)
Lemma repeated_sites_are_not_answered key string_gt0 q items limit page net
    now now' pnet cache :
  absent q = false →
  search_request key q (Some (Arr items)) limit page net = (Thrown, [])
  ∧ popular_request key string_gt0 (Some (Arr items)) limit now now' pnet cache
    = (Thrown, cache, []).
Proof.
  intros Hq. split; [|done]. unfold search_request.
  destruct q as [query|]; [|done]. by rewrite Hq.
Qed.




(** The same request, evaluated: the two records of Printables and the
    empty array of Thangs. *)
Example search_one_adapter_down :
  fst (search Samples.no_key (Some "benchy") (Some "printables,thangs") None None
         (fun _ => Samples.printables_online))
  = {| status := 200;
       body := SearchBody 1 10
         [("printables",
           VRecords (searchPrintables "benchy" 10 1
                       (Response 200 (Some Samples.printables_two))));
          ("thangs", VRecords [])] |}.
Proof. reflexivity. Qed.

(** C6.  The claim fails on the code: a site id that is the name of a
    member every object inherits ([constructor] here) is no adapter id,
    yet it passes the filter [table[site]], the member is called in an
    adapter's place, and its result is put in the response under that
    name.  Both routes, at [sites=constructor,nosuchsite]: the unknown id
    is dropped, the inherited name is kept. *)
Theorem inherited_names_are_not_dropped (key : string) (string_gt0 : string → bool)
    (net : nat → SearchNet) (pnet : nat → PopularNet) (now now' : Z) :
  search key (Some "benchy") (Some "constructor,nosuchsite") None None net
  = ({| status := 200;
        body := SearchBody 1 10 [("constructor", VString "benchy")] |},
     ["constructor"])
  ∧ fst (popular key string_gt0 (Some "constructor,nosuchsite") None now now' pnet
           popularCache)
    = ({| status := 200; body := PopularBody [("constructor", VNumber 10)] |},
       {| data := Some {[ "constructor,nosuchsite-10" := [("constructor", VNumber 10)] ]};
          timestamp := now' |})
  ∧ assoc site_names "constructor" = None.
Proof. split_and!; reflexivity. Qed.

(** ** Sorting keeps the elements *)

Lemma sort_insert_perm x a : sort_insert x a ≡ₚ x :: a.
Proof.
  induction a as [|y a IH]; simpl; [done|].
  destruct (code_unit_leb x y); [done|].
  rewrite IH. apply Permutation_swap.
Qed.

Lemma sort_perm a : sort a ≡ₚ a.
Proof.
  unfold sort. induction a as [|x a IH]; simpl; [done|].
  by rewrite sort_insert_perm, IH.
Qed.

Lemma count_perm (name : string) (l1 l2 : list string) :
  l1 ≡ₚ l2 →
  length (List.filter (String.eqb name) l1) = length (List.filter (String.eqb name) l2).
Proof.
  induction 1 as [|x l1 l2 _ IH|x y l|l1 l2 l3 _ IH1 _ IH2]; simpl.
  - done.
  - destruct (String.eqb name x); simpl; by rewrite IH.
  - by destruct (String.eqb name x), (String.eqb name y).
  - by rewrite IH1.
Qed.

(** ** [GET /api/popular] *)

Lemma popular_with_miss call siteParam limit now now' cache :
  cached_popular cache (cacheKey siteParam limit) now = None →
  popular_with call siteParam limit now now' cache =
  (let response := assemble (fan_out call (sort (enabledSites siteParam))) in
   ({| status := 200; body := PopularBody (json response) |},
    {| data := Some (<[cacheKey siteParam limit := response]> (default ∅ (data cache)));
       timestamp := now' |},
    called (sort (enabledSites siteParam)))).
Proof. intros H. unfold popular_with. by rewrite H. Qed.

Lemma popular_with_hit call siteParam limit now now' cache cached :
  cached_popular cache (cacheKey siteParam limit) now = Some cached →
  popular_with call siteParam limit now now' cache =
  ({| status := 200; body := PopularBody (json cached) |}, cache, []).
Proof. intros H. unfold popular_with. by rewrite H. Qed.

(** C10, as amended.  When a recognized site id is listed several times,
    [GET /api/search], and [GET /api/popular] when it is not served from
    its cache, call the adapter once for each occurrence, and the
    response holds exactly one entry for the id: the array returned by
    the last of these calls. *)
Theorem duplicate_site_last_call_wins
    (key : string) (string_gt0 : string → bool) (name : string) (site : Site)
    (q siteParam limit page : option string) (net : nat → SearchNet)
    (now now' : Z) (pnet : nat → PopularNet) (cache : PopularCache) :
  assoc site_names name = Some site →
  name ∈ enabledSites siteParam →
  missing q = false →
  cached_popular cache (cacheKey siteParam limit) now = None →
  (∃ results i,
     let invoked := snd (search key q siteParam limit page net) in
     length (List.filter (String.eqb name) invoked)
     = length (List.filter (String.eqb name) (enabledSites siteParam)) ∧
     body (fst (search key q siteParam limit page net))
     = SearchBody (searchPage page) (searchLimit limit) results ∧
     invoked !! i = Some name ∧
     (∀ j, (i < j)%nat → invoked !! j ≠ Some name) ∧
     List.filter (fun kv => String.eqb (fst kv) name) results
     = [(name, VRecords (searchFunctions key site (default "" q)
                           (searchLimit limit) (searchPage page) (net i)))])
  ∧
  (∃ results i,
     let served := popular key string_gt0 siteParam limit now now' pnet cache in
     let invoked := snd served in
     length (List.filter (String.eqb name) invoked)
     = length (List.filter (String.eqb name) (enabledSites siteParam)) ∧
     body (fst (fst served)) = PopularBody results ∧
     invoked !! i = Some name ∧
     (∀ j, (i < j)%nat → invoked !! j ≠ Some name) ∧
     List.filter (fun kv => String.eqb (fst kv) name) results
     = [(name, VRecords (fetchFunctions key string_gt0 site (searchLimit limit)
                           (pnet i)))]).
Proof.
  intros Hsite Hin Hq Hmiss. split.
  - destruct (search_with_entries
                (fun i site => Some (searchFunctions key site (default "" q)
                                       (searchLimit limit) (searchPage page) (net i)))
                q siteParam limit page Hq)
      as (results & Heq & Hnd & Hentries).
    destruct (Hentries name site Hsite Hin) as (i & Hi & Hlast & Hv).
    exists results, i. unfold search, call_search. rewrite Heq. simpl.
    split_and!; [|done..|].
    + apply called_count. rewrite (table_get_own _ _ Hsite). eauto.
    + by apply one_entry.
  - assert (Hin' : name ∈ sort (enabledSites siteParam)) by by rewrite sort_perm.
    destruct (fan_out_own
                (fun i => call_popular key string_gt0 (searchLimit limit) (pnet i))
                (sort (enabledSites siteParam)) name site Hsite Hin')
      as (i & Hi & Hlast & Hv).
    eexists _, i. unfold popular. rewrite popular_with_miss by done. simpl.
    split_and!; [|done..|].
    + rewrite called_count by (rewrite (table_get_own _ _ Hsite); eauto).
      apply count_perm, sort_perm.
    + apply one_entry; [apply json_NoDup, assemble_NoDup|].
      by apply assoc_json.
Qed.

(** [sites=thangs,printables,thangs] on both routes. *)
Lemma duplicate_site_last_call_wins_witness :
  let siteParam := Some "thangs,printables,thangs" in
  let net := fun _ : nat => Samples.printables_online in
  let pnet := fun _ : nat => Samples.popular_offline in
  (∃ results i,
     let invoked := snd (search Samples.no_key (Some "benchy") siteParam None None net) in
     length (List.filter (String.eqb "thangs") invoked)
     = length (List.filter (String.eqb "thangs") (enabledSites siteParam)) ∧
     body (fst (search Samples.no_key (Some "benchy") siteParam None None net))
     = SearchBody (searchPage None) (searchLimit None) results ∧
     invoked !! i = Some "thangs" ∧
     (∀ j, (i < j)%nat → invoked !! j ≠ Some "thangs") ∧
     List.filter (fun kv => String.eqb (fst kv) "thangs") results
     = [("thangs", VRecords (searchFunctions Samples.no_key thangs
                               (default "" (Some "benchy"))
                               (searchLimit None) (searchPage None) (net i)))])
  ∧
  (∃ results i,
     let served := popular Samples.no_key Samples.never siteParam None 1000 1000
                     pnet popularCache in
     let invoked := snd served in
     length (List.filter (String.eqb "thangs") invoked)
     = length (List.filter (String.eqb "thangs") (enabledSites siteParam)) ∧
     body (fst (fst served)) = PopularBody results ∧
     invoked !! i = Some "thangs" ∧
     (∀ j, (i < j)%nat → invoked !! j ≠ Some "thangs") ∧
     List.filter (fun kv => String.eqb (fst kv) "thangs") results
     = [("thangs", VRecords (fetchFunctions Samples.no_key Samples.never thangs
                               (searchLimit None) (pnet i)))]).
Proof.
  apply (duplicate_site_last_call_wins Samples.no_key Samples.never "thangs" thangs
           (Some "benchy") (Some "thangs,printables,thangs") None None
           (fun _ => Samples.printables_online) 1000 1000
           (fun _ => Samples.popular_offline) popularCache).
  - reflexivity.
  - vm_compute. left.
  - reflexivity.
  - reflexivity.
Defined.

(** C10 as stated fails: the second of two [GET /api/popular] requests
    with [sites=thangs,thangs] is served from the cache and calls no
    adapter, although the id is listed twice. *)
Lemma popular_hit_calls_no_adapter :
  let first :=
    popular Samples.no_key Samples.never (Some "thangs,thangs") None 1000 1000
      (fun _ => Samples.popular_offline) popularCache in
  let second :=
    popular Samples.no_key Samples.never (Some "thangs,thangs") None 2000 2000
      (fun _ => Samples.popular_offline) (snd (fst first)) in
  length (List.filter (String.eqb "thangs") (enabledSites (Some "thangs,thangs")))
  = 2%nat
  ∧ snd first = ["thangs"; "thangs"]
  ∧ snd second = [].
Proof. vm_compute. done. Qed.

Lemma table_get_plain name :
  inherited name = None → is_Some (table_get name) → is_Some (assoc site_names name).
Proof.
  unfold table_get. intros Hi. destruct (assoc site_names name); [eauto|].
  rewrite Hi. simpl. by intros [? [=]].
Qed.

(** When no requested id is the name of an inherited member, the keys of
    the assembled object are the requested ids that are recognized. *)
Lemma fan_out_keys_plain (run : nat → Site → list NormalizedRecord) arg sites k :
  (∀ s, s ∈ sites → inherited s = None) →
  k ∈ (json (assemble (fan_out (fun i => call_member (fun site => Some (run i site)) arg)
                        sites))).*1
  ↔ k ∈ sites ∧ is_Some (assoc site_names k).
Proof.
  intros Hplain. split.
  - intros Hk%json_keys%assemble_keys. destruct Hk as [Hk _].
    rewrite fan_out_keys in Hk. apply called_elem in Hk as [Hin Hs].
    split; [done|]. apply table_get_plain; [by apply Hplain|done].
  - intros [Hin [site Hsite]].
    destruct (fan_out_own (fun i => call_member (fun site => Some (run i site)) arg)
                sites k site Hsite Hin) as (i & _ & _ & Hv).
    simpl in Hv. apply assoc_json in Hv; [|done].
    apply assoc_Some_elem in Hv. by apply (list_elem_of_fmap_2 fst) in Hv.
Qed.

Lemma search_keys_plain key q siteParam limit page net :
  missing q = false →
  (∀ s, s ∈ enabledSites siteParam → inherited s = None) →
  ∃ results,
    fst (search key q siteParam limit page net)
    = {| status := 200;
         body := SearchBody (searchPage page) (searchLimit limit) results |} ∧
    ∀ k, k ∈ results.*1 ↔ k ∈ enabledSites siteParam ∧ is_Some (assoc site_names k).
Proof.
  intros Hq Hplain. unfold search, search_with. rewrite Hq. simpl.
  eexists. split; [reflexivity|]. intros k.
  by apply (fan_out_keys_plain
              (fun i site => searchFunctions key site (default "" q)
                               (searchLimit limit) (searchPage page) (net i))).
Qed.

Lemma popular_keys_plain key string_gt0 siteParam limit now now' net cache :
  cached_popular cache (cacheKey siteParam limit) now = None →
  (∀ s, s ∈ enabledSites siteParam → inherited s = None) →
  ∃ results,
    fst (fst (popular key string_gt0 siteParam limit now now' net cache))
    = {| status := 200; body := PopularBody results |} ∧
    ∀ k, k ∈ results.*1 ↔ k ∈ enabledSites siteParam ∧ is_Some (assoc site_names k).
Proof.
  intros Hmiss Hplain. unfold popular. rewrite popular_with_miss by done. simpl.
  eexists. split; [reflexivity|]. intros k.
  etrans.
  - apply (fan_out_keys_plain
             (fun i site => fetchFunctions key string_gt0 site (searchLimit limit) (net i))).
    intros s Hs. apply Hplain. by rewrite <- sort_perm.
  - by rewrite sort_perm.
Qed.

End RouteProperties.

Section PopularProperties.
Import Routes.

(** ** The cache of popular results *)

Section PopularCacheProperties.

Context (key : string) (string_gt0 : string → bool).

Lemma holds_cached k response t cache now :
  holds k response t cache → now < t + TTL →
  cached_popular cache k now = Some response.
Proof.
  intros [Hd Ht] Hnow. unfold cached_popular. rewrite Hd.
  destruct (Z.ltb_spec (now - timestamp cache) TTL); [done|lia].
Qed.

Lemma popular_miss_holds siteParam limit now t net cache :
  cached_popular cache (cacheKey siteParam limit) now = None →
  ∃ response,
    popular key string_gt0 siteParam limit now t net cache
    = ({| status := 200; body := PopularBody (json response) |},
       snd (fst (popular key string_gt0 siteParam limit now t net cache)),
       called (sort (enabledSites siteParam))) ∧
    holds (cacheKey siteParam limit) response t
      (snd (fst (popular key string_gt0 siteParam limit now t net cache))).
Proof.
  intros Hmiss. unfold popular. rewrite popular_with_miss by done.
  eexists. split; [reflexivity|]. split; simpl; [|lia].
  apply lookup_insert_eq.
Qed.

Lemma serve_holds k response t cache r :
  holds k response t cache → pr_now r < t + TTL → t <= pr_now' r →
  holds k response t (serve key string_gt0 cache r).
Proof.
  intros Hh Hnow Hnow'. unfold serve, popular, popular_with.
  destruct (cached_popular cache (cacheKey (pr_sites r) (pr_limit r)) (pr_now r))
    as [cached|] eqn:E; simpl; [done|].
  destruct (decide (cacheKey (pr_sites r) (pr_limit r) = k)) as [Heq|Hne].
  - rewrite Heq in E. by rewrite (holds_cached _ _ _ _ _ Hh Hnow) in E.
  - destruct Hh as [Hd Ht]. split; simpl; [|done].
    rewrite lookup_insert_ne by done.
    destruct (data cache); simpl in *; [done|discriminate].
Qed.

Lemma serve_all_holds k response t cache rs :
  holds k response t cache →
  Forall (fun r => pr_now r < t + TTL ∧ t <= pr_now' r) rs →
  holds k response t (serve_all key string_gt0 cache rs).
Proof.
  intros Hh Hrs. revert cache Hh.
  induction Hrs as [|r rs [??] _ IH]; intros cache Hh; simpl; [done|].
  apply IH. by apply serve_holds.
Qed.

(** C5.  A [GET /api/popular] request that had to fetch stores its result
    at time [t].  Whatever requests are served in between, as long as the
    clock stays in [t, t + 5 min), a request with the same cache key
    (the same set of sites and the same limit) gets the very response of
    the first call, with no adapter called, and leaves the cache as it
    is, whatever the upstream would answer now. *)
Theorem popular_repeat_is_served_from_cache
    (siteParam limit : option string) (now t : Z) (net : nat → PopularNet)
    (cache : PopularCache) (between : list PopularRequest)
    (siteParam2 limit2 : option string) (now2 now2' : Z)
    (net2 : nat → PopularNet) :
  cached_popular cache (cacheKey siteParam limit) now = None →
  cacheKey siteParam2 limit2 = cacheKey siteParam limit →
  Forall (fun r => pr_now r < t + TTL ∧ t <= pr_now' r) between →
  now2 < t + TTL →
  let first := popular key string_gt0 siteParam limit now t net cache in
  let cache' := serve_all key string_gt0 (snd (fst first)) between in
  popular key string_gt0 siteParam2 limit2 now2 now2' net2 cache'
  = (fst (fst first), cache', []).
Proof.
  intros Hmiss Hkey Hbetween Hnow2 first cache'.
  destruct (popular_miss_holds siteParam limit now t net cache Hmiss)
    as (response & Hfirst & Hh).
  fold first in Hfirst, Hh.
  assert (Hh' : holds (cacheKey siteParam limit) response t cache')
    by by apply serve_all_holds.
  unfold popular at 1. rewrite (popular_with_hit _ _ _ _ _ _ response).
  - by rewrite Hfirst.
  - rewrite Hkey. by apply holds_cached with t.
Qed.

End PopularCacheProperties.

(** The sites in another order and an upstream that has changed. *)
Lemma popular_repeat_is_served_from_cache_witness :
  let first :=
    popular Samples.no_key Samples.never (Some "crealitycloud,thangs") (Some "5")
      1000 1000 (fun _ => Samples.creality_online Samples.creality_two)
      popularCache in
  let between :=
    [ {| pr_sites := Some "thangs"; pr_limit := None; pr_now := 61000;
         pr_now' := 61500; pr_net := fun _ => Samples.popular_offline |} ] in
  let cache' := serve_all Samples.no_key Samples.never (snd (fst first)) between in
  popular Samples.no_key Samples.never (Some "thangs,crealitycloud") (Some "5")
    200000 200000 (fun _ => Samples.creality_online Samples.creality_new) cache'
  = (fst (fst first), cache', []).
Proof.
  apply (popular_repeat_is_served_from_cache Samples.no_key Samples.never
           (Some "crealitycloud,thangs") (Some "5") 1000 1000
           (fun _ => Samples.creality_online Samples.creality_two) popularCache
           [ {| pr_sites := Some "thangs"; pr_limit := None; pr_now := 61000;
                pr_now' := 61500; pr_net := fun _ => Samples.popular_offline |} ]
           (Some "thangs,crealitycloud") (Some "5") 200000 200000
           (fun _ => Samples.creality_online Samples.creality_new)).
  - reflexivity.
  - reflexivity.
  - repeat constructor; simpl; vm_compute; done.
  - vm_compute. done.
Defined.

(** C4.  The claim fails on the code: the cache has one [timestamp] for
    all its keys, and storing any key renews it.  An entry stored at
    [t = 1000000] is looked up six minutes later.  Left alone it has
    expired and the adapter is called again; after another key was
    stored at four minutes it is served from the cache once more, with
    no adapter called and the answer of six minutes ago. *)
Theorem popular_entry_outlives_its_ttl :
  let first :=
    popular Samples.no_key Samples.never (Some "crealitycloud") None
      1000000 1000000 (fun _ => Samples.creality_online Samples.creality_two)
      popularCache in
  let other :=
    {| pr_sites := Some "thangs"; pr_limit := None; pr_now := 1240000;
       pr_now' := 1240000; pr_net := fun _ => Samples.popular_offline |} in
  let later (cache : PopularCache) :=
    popular Samples.no_key Samples.never (Some "crealitycloud") None
      1360000 1360000 (fun _ => Samples.creality_online Samples.creality_new)
      cache in
  (* six minutes after the entry was stored *)
  1000000 + TTL <= 1360000 ∧
  (* left alone, the entry has expired: the adapter is called again *)
  snd (later (snd (fst first))) = ["crealitycloud"] ∧
  fst (fst (later (snd (fst first)))) ≠ fst (fst first) ∧
  (* after another key was written in between, it is served again *)
  snd (later (serve Samples.no_key Samples.never (snd (fst first)) other)) = [] ∧
  fst (fst (later (serve Samples.no_key Samples.never (snd (fst first)) other)))
  = fst (fst first).
Proof.
  split_and!.
  - vm_compute. discriminate.
  - reflexivity.
  - vm_compute. discriminate.
  - reflexivity.
  - reflexivity.
Qed.

End PopularProperties.

Section ImageProperties.
Import ImageProxy.

(** ** The image cache *)

Lemma clean_fold_sub now (l : list (string * CachedImage)) m k e :
  foldl (clean_step now) m l !! k = Some e → m !! k = Some e.
Proof.
  revert m. induction l as [|[k' v] l IH]; intros m; simpl; [done|].
  intros H%IH. unfold clean_step in H. destruct (_ <? _); [|done].
  apply lookup_delete_Some in H. by destruct H.
Qed.

Lemma clean_fold_keeps now (l : list (string * CachedImage)) m k e :
  m !! k = Some e → (∀ v, (k, v) ∈ l → ¬ stale now v) →
  foldl (clean_step now) m l !! k = Some e.
Proof.
  revert m. induction l as [|[k' v] l IH]; intros m Hm Hl; simpl; [done|].
  apply IH.
  - unfold clean_step. simpl.
    destruct (Z.ltb_spec IMAGE_CACHE_TTL (now - timestamp v)) as [Hs|_]; [|done].
    rewrite lookup_delete_ne; [done|].
    intros ->. apply (Hl v); [left|done].
  - intros w Hw. apply Hl. by right.
Qed.

Lemma clean_fold_evicts now (l : list (string * CachedImage)) m k v :
  (k, v) ∈ l → stale now v → foldl (clean_step now) m l !! k = None.
Proof.
  revert m. induction l as [|[k' v'] l IH]; intros m Hin Hs; simpl.
  - by apply elem_of_nil in Hin.
  - apply elem_of_cons in Hin as [[= <- <-]|Hin]; [|by apply IH].
    unfold clean_step at 2. simpl.
    destruct (Z.ltb_spec IMAGE_CACHE_TTL (now - timestamp v)) as [_|?];
      [|unfold stale in Hs; lia].
    destruct (foldl _ _ _ !! k) as [e|] eqn:E; [|done].
    apply clean_fold_sub in E. by rewrite lookup_delete_eq in E.
Qed.

(** The clean-up keeps exactly the entries that are not older than the
    TTL. *)
Lemma lookup_clean now (m : gmap string CachedImage) k e :
  clean now m !! k = Some e ↔ m !! k = Some e ∧ ¬ stale now e.
Proof.
  unfold clean. split.
  - intros H. pose proof (clean_fold_sub _ _ _ _ _ H) as Hm. split; [done|].
    intros Hs. rewrite (clean_fold_evicts now _ m k e) in H; [done| |done].
    by apply elem_of_map_to_list.
  - intros [Hm Hs]. apply clean_fold_keeps; [done|].
    intros v Hv%elem_of_map_to_list. by simplify_eq.
Qed.

(** The cases of the route. *)
Lemma image_hit url imageUrl now now' now'' reply imageCache cached :
  Routes.missing url = false →
  decodeURIComponent (default "" url) = Some imageUrl →
  has_http_scheme imageUrl = true →
  cached_image imageCache imageUrl now = Some cached →
  image url now now' now'' reply imageCache
  = ({| status := 200; body := ImageBody (contentType cached) (buffer cached) |},
     imageCache, []).
Proof.
  intros Hu Hd Hs Hc. unfold image. rewrite Hu, Hd.
  unfold has_http_scheme in Hs.
  destruct (startsWith imageUrl "http://"), (startsWith imageUrl "https://");
    simpl in *; try done; by rewrite Hc.
Qed.

Lemma image_stored url imageUrl now now' now'' st up imageCache :
  Routes.missing url = false →
  decodeURIComponent (default "" url) = Some imageUrl →
  has_http_scheme imageUrl = true →
  cached_image imageCache imageUrl now = None →
  ok st = true →
  image url now now' now'' (Response st (Some up)) imageCache
  = (let type := sor (up_content_type up) "image/jpeg" in
     let inserted :=
       <[imageUrl := {| buffer := up_body up; contentType := type;
                        timestamp := now' |}]> imageCache in
     ({| status := 200; body := ImageBody type (up_body up) |},
      if 100 <? Z.of_nat (size inserted) then clean now'' inserted else inserted,
      [{| fetch_url := imageUrl; fetch_referer := referer_for imageUrl |}])).
Proof.
  intros Hu Hd Hs Hc Hok. unfold image. rewrite Hu, Hd.
  unfold has_http_scheme in Hs.
  destruct (startsWith imageUrl "http://"), (startsWith imageUrl "https://");
    simpl in *; try done; by rewrite Hc, Hok.
Qed.

(** C9.  When [GET /api/image] inserts an entry and the cache then holds
    more than 100 entries, the entries that remain are exactly those of
    the cache after the insertion whose age does not exceed the TTL: no
    fresh entry is removed and no stale one survives.  With 100 entries
    or fewer nothing is evicted. *)
Theorem image_cache_cleanup
    (url : option string) (imageUrl : string) (now now' now'' st : Z)
    (up : Upstream) (imageCache : gmap string CachedImage) :
  Routes.missing url = false →
  decodeURIComponent (default "" url) = Some imageUrl →
  has_http_scheme imageUrl = true →
  cached_image imageCache imageUrl now = None →
  ok st = true →
  let inserted :=
    <[imageUrl := {| buffer := up_body up;
                     contentType := sor (up_content_type up) "image/jpeg";
                     timestamp := now' |}]> imageCache in
  let after := snd (fst (image url now now' now'' (Response st (Some up)) imageCache)) in
  ((100 < size inserted)%nat →
     ∀ k e, after !! k = Some e ↔
            inserted !! k = Some e ∧ ¬ IMAGE_CACHE_TTL < now'' - timestamp e)
  ∧ ((size inserted ≤ 100)%nat → after = inserted).
Proof.
  intros Hu Hd Hs Hc Hok inserted after. subst after.
  rewrite (image_stored _ imageUrl) by done. simpl. fold inserted.
  split; intros Hsize.
  - destruct (Z.ltb_spec 100 (Z.of_nat (size inserted))); [|lia].
    intros k e. apply lookup_clean.
  - destruct (Z.ltb_spec 100 (Z.of_nat (size inserted))); [lia|done].
Qed.

(** An entry stored at [t] stays while the clock reads less than
    [t + TTL]. *)
Lemma kept_cached imageUrl e imageCache now :
  kept imageUrl e imageCache → now < timestamp e + IMAGE_CACHE_TTL →
  cached_image imageCache imageUrl now = Some e.
Proof.
  unfold kept, cached_image. intros -> Hnow.
  destruct (Z.ltb_spec (now - timestamp e) IMAGE_CACHE_TTL); [done|lia].
Qed.

Lemma serve_kept imageUrl e imageCache r :
  kept imageUrl e imageCache →
  ir_now r < timestamp e + IMAGE_CACHE_TTL →
  ir_now'' r <= timestamp e + IMAGE_CACHE_TTL →
  kept imageUrl e (serve imageCache r).
Proof.
  intros Hk Hnow Hnow''. unfold serve, image.
  destruct (Routes.missing (ir_url r)); [done|].
  destruct (decodeURIComponent _) as [u|]; [|done].
  destruct (negb _ && negb _); [done|].
  destruct (cached_image imageCache u (ir_now r)) as [cached|] eqn:E; [done|].
  destruct (ir_reply r) as [|st content]; [done|].
  destruct (negb (ok st)); [done|].
  destruct content as [up|]; [|done]. simpl.
  assert (Hne : u ≠ imageUrl).
  { intros ->. by rewrite (kept_cached _ _ _ _ Hk Hnow) in E. }
  assert (Hk' : kept imageUrl e
            (<[u := {| buffer := up_body up;
                       contentType := sor (up_content_type up) "image/jpeg";
                       timestamp := ir_now' r |}]> imageCache)).
  { unfold kept. by rewrite lookup_insert_ne. }
  destruct (100 <? _); [|done].
  apply lookup_clean. split; [done|]. unfold stale. lia.
Qed.

Lemma serve_all_kept imageUrl e imageCache rs :
  kept imageUrl e imageCache →
  Forall (fun r => ir_now r < timestamp e + IMAGE_CACHE_TTL
                   ∧ ir_now'' r <= timestamp e + IMAGE_CACHE_TTL) rs →
  kept imageUrl e (serve_all imageCache rs).
Proof.
  intros Hk Hrs. revert imageCache Hk.
  induction Hrs as [|r rs [??] _ IH]; intros imageCache Hk; simpl; [done|].
  apply IH. by apply serve_kept.
Qed.

(** C7.  A [GET /api/image] request that fetched its image successfully
    stores it at time [t] under the decoded URL.  Whatever requests are
    served in between, as long as the clock stays below [t + 30 min], a
    request whose url decodes to the same string is answered from the
    cache: the two requests together make exactly one upstream call, and
    the second response has the status, the bytes and the content type of
    the first. *)
Theorem image_repeat_is_served_from_cache
    (url : option string) (imageUrl : string) (now t now'' st : Z)
    (up : Upstream) (imageCache : gmap string CachedImage)
    (between : list ImageRequest)
    (url2 : option string) (now2 now2' now2'' : Z) (reply2 : Reply Upstream) :
  Routes.missing url = false →
  decodeURIComponent (default "" url) = Some imageUrl →
  has_http_scheme imageUrl = true →
  cached_image imageCache imageUrl now = None →
  ok st = true →
  now'' <= t + IMAGE_CACHE_TTL →
  Forall (fun r => ir_now r < t + IMAGE_CACHE_TTL
                   ∧ ir_now'' r <= t + IMAGE_CACHE_TTL) between →
  Routes.missing url2 = false →
  decodeURIComponent (default "" url2) = Some imageUrl →
  now2 < t + IMAGE_CACHE_TTL →
  let first := image url now t now'' (Response st (Some up)) imageCache in
  let imageCache' := serve_all (snd (fst first)) between in
  let second := image url2 now2 now2' now2'' reply2 imageCache' in
  (snd first ++ snd second)%list
  = [{| fetch_url := imageUrl; fetch_referer := referer_for imageUrl |}]
  ∧ fst (fst second) = fst (fst first)
  ∧ fst (fst first)
    = {| status := 200;
         body := ImageBody (sor (up_content_type up) "image/jpeg") (up_body up) |}
  ∧ snd (fst second) = imageCache'.
Proof.
  intros Hu Hd Hs Hc Hok Hnow'' Hbetween Hu2 Hd2 Hnow2 first imageCache' second.
  set (e := {| buffer := up_body up;
               contentType := sor (up_content_type up) "image/jpeg";
               timestamp := t |}).
  assert (Hfirst : kept imageUrl e (snd (fst first))).
  { subst first. rewrite (image_stored _ imageUrl) by done. simpl. fold e.
    assert (Hi : kept imageUrl e (<[imageUrl := e]> imageCache))
      by apply lookup_insert_eq.
    destruct (100 <? _); [|done].
    apply lookup_clean. split; [done|]. unfold stale. simpl. lia. }
  assert (Hk : kept imageUrl e imageCache') by by apply serve_all_kept.
  assert (Hsecond : second
            = ({| status := 200; body := ImageBody (contentType e) (buffer e) |},
               imageCache', [])).
  { subst second. apply (image_hit _ imageUrl); [done..|].
    by apply kept_cached. }
  rewrite Hsecond. subst first. rewrite (image_stored _ imageUrl) by done.
  done.
Qed.

(** The same image asked for with and without an escape, another image
    fetched in between. *)
Lemma image_repeat_is_served_from_cache_witness :
  let first :=
    image (Some "https://cdn.thingiverse.com/a%20b.png") 5000 5000 5000
      (Response 200 (Some Samples.png)) ∅ in
  let between :=
    [ {| ir_url := Some "https://media.printables.com/c.jpg"; ir_now := 9000;
         ir_now' := 9100; ir_now'' := 9100;
         ir_reply := Response 200 (Some Samples.jpg) |} ] in
  let imageCache' := serve_all (snd (fst first)) between in
  let second :=
    image (Some "https://cdn.thingiverse.com/a b.png") 1000000 1000000 1000000
      (Response 200 (Some Samples.jpg)) imageCache' in
  (snd first ++ snd second)%list
  = [{| fetch_url := "https://cdn.thingiverse.com/a b.png";
        fetch_referer := referer_for "https://cdn.thingiverse.com/a b.png" |}]
  ∧ fst (fst second) = fst (fst first)
  ∧ fst (fst first)
    = {| status := 200;
         body := ImageBody (sor (up_content_type Samples.png) "image/jpeg")
                   (up_body Samples.png) |}
  ∧ snd (fst second) = imageCache'.
Proof.
  apply (image_repeat_is_served_from_cache
           (Some "https://cdn.thingiverse.com/a%20b.png")
           "https://cdn.thingiverse.com/a b.png" 5000 5000 5000 200 Samples.png ∅
           [ {| ir_url := Some "https://media.printables.com/c.jpg"; ir_now := 9000;
                ir_now' := 9100; ir_now'' := 9100;
                ir_reply := Response 200 (Some Samples.jpg) |} ]
           (Some "https://cdn.thingiverse.com/a b.png") 1000000 1000000 1000000
           (Response 200 (Some Samples.jpg))).
  - reflexivity.
  - reflexivity.
  - reflexivity.
  - reflexivity.
  - reflexivity.
  - vm_compute. discriminate.
  - repeat constructor; vm_compute; (done || discriminate).
  - reflexivity.
  - reflexivity.
  - vm_compute. done.
Defined.

(** One insertion into the empty cache, where nothing is evicted, and one
    into a cache of a hundred entries. *)
Lemma image_cache_cleanup_witness :
  let url := "https://cdn.thingiverse.com/a.png" in
  let entry :=
    {| buffer := up_body Samples.png;
       contentType := sor (up_content_type Samples.png) "image/jpeg";
       timestamp := 10000000 |} in
  let after (imageCache : gmap string CachedImage) :=
    snd (fst (image (Some url) 10000000 10000000 10000001
                (Response 200 (Some Samples.png)) imageCache)) in
  after ∅ = <[url := entry]> ∅
  ∧ ∀ k e, after Samples.crowded !! k = Some e ↔
           <[url := entry]> Samples.crowded !! k = Some e
           ∧ ¬ IMAGE_CACHE_TTL < 10000001 - timestamp e.
Proof.
  split.
  - refine (proj2 (image_cache_cleanup (Some "https://cdn.thingiverse.com/a.png")
                     "https://cdn.thingiverse.com/a.png" 10000000 10000000 10000001
                     200 Samples.png ∅ _ _ _ _ _) _);
      try reflexivity.
    vm_compute. lia.
  - refine (proj1 (image_cache_cleanup (Some "https://cdn.thingiverse.com/a.png")
                     "https://cdn.thingiverse.com/a.png" 10000000 10000000 10000001
                     200 Samples.png Samples.crowded _ _ _ _ _) _);
      try reflexivity.
    vm_compute. lia.
Defined.

Lemma image_rejected url now now' now'' reply imageCache :
  Routes.missing url = true
  ∨ (∃ imageUrl, decodeURIComponent (default "" url) = Some imageUrl
                 ∧ has_http_scheme imageUrl = false) →
  image url now now' now'' reply imageCache
  = ({| status := 400;
        body := ErrorBody (if Routes.missing url then UrlRequired else InvalidUrl) |},
     imageCache, []).
Proof.
  unfold image. intros [->|(imageUrl & -> & Hs)]; [done|].
  destruct (Routes.missing url); [done|].
  unfold has_http_scheme in Hs.
  by destruct (startsWith imageUrl "http://"), (startsWith imageUrl "https://").
Qed.

Lemma image_upstream_error url imageUrl now now' now'' st content imageCache :
  Routes.missing url = false →
  decodeURIComponent (default "" url) = Some imageUrl →
  has_http_scheme imageUrl = true →
  cached_image imageCache imageUrl now = None →
  ok st = false →
  image url now now' now'' (Response st content) imageCache
  = ({| status := st; body := ErrorBody FailedToFetchImage |}, imageCache,
     [{| fetch_url := imageUrl; fetch_referer := referer_for imageUrl |}]).
Proof.
  intros Hu Hd Hs Hc Hok. unfold image. rewrite Hu, Hd.
  unfold has_http_scheme in Hs.
  destruct (startsWith imageUrl "http://"), (startsWith imageUrl "https://");
    simpl in *; try done; by rewrite Hc, Hok.
Qed.

(** C8, as amended.  [GET /api/image] answers 400, without a network call
    and without touching the cache, when [url] is missing or empty and
    when its decoded value starts with neither [http://] nor [https://];
    this prefix is all that is tested.  When the upstream is asked and
    answers with a non-success status, the proxy answers with that
    status. *)
Theorem image_validation
    (url : option string) (now now' now'' : Z) (reply : Reply Upstream)
    (imageCache : gmap string CachedImage) :
  let served := image url now now' now'' reply imageCache in
  (Routes.missing url = true
   ∨ (∃ imageUrl, decodeURIComponent (default "" url) = Some imageUrl
                  ∧ has_http_scheme imageUrl = false) →
   status (fst (fst served)) = 400 ∧ snd served = [] ∧ snd (fst served) = imageCache)
  ∧
  (∀ imageUrl st content,
     Routes.missing url = false →
     decodeURIComponent (default "" url) = Some imageUrl →
     has_http_scheme imageUrl = true →
     cached_image imageCache imageUrl now = None →
     reply = Response st content → ok st = false →
     status (fst (fst served)) = st
     ∧ snd served = [{| fetch_url := imageUrl; fetch_referer := referer_for imageUrl |}]).
Proof.
  intros served. subst served. split.
  - intros H. by rewrite image_rejected.
  - intros imageUrl st content Hu Hd Hs Hc -> Hok.
    by rewrite (image_upstream_error _ imageUrl).
Qed.

(** An [ftp] URL, and an image that the upstream does not have. *)
Lemma image_validation_witness :
  (let served := image (Some "ftp://files.example/a.png") 0 0 0 NetFail ∅ in
   status (fst (fst served)) = 400 ∧ snd served = [] ∧ snd (fst served) = ∅)
  ∧
  (let served :=
     image (Some "https://cdn.thingiverse.com/gone.png") 0 0 0 (Response 404 None) ∅ in
   status (fst (fst served)) = 404
   ∧ snd served = [{| fetch_url := "https://cdn.thingiverse.com/gone.png";
                      fetch_referer := "https://www.thingiverse.com/" |}]).
Proof.
  split.
  - apply (image_validation (Some "ftp://files.example/a.png") 0 0 0 NetFail ∅).
    right. exists "ftp://files.example/a.png". split; reflexivity.
  - apply (proj2 (image_validation (Some "https://cdn.thingiverse.com/gone.png")
                    0 0 0 (Response 404 None) ∅)
             "https://cdn.thingiverse.com/gone.png" 404 None); reflexivity.
Defined.

(** C8 as stated fails: the url [%] is no absolute HTTP(S) URL, it does
    not even decode, and the answer is 500 rather than 400; and
    [http://], a scheme with nothing behind it, passes the test and is
    handed to [fetch]. *)
Lemma image_malformed_url_not_rejected :
  has_http_scheme "%" = false ∧ decodeURIComponent "%" = None ∧
  status (fst (fst (image (Some "%") 0 0 0 NetFail ∅))) = 500 ∧
  status (fst (fst (image (Some "%") 0 0 0 NetFail ∅))) ≠ 400 ∧
  snd (image (Some "http://") 0 0 0 NetFail ∅)
  = [{| fetch_url := "http://"; fetch_referer := "" |}].
Proof. split_and!; try reflexivity. vm_compute. discriminate. Qed.

(** A hundred entries that are hours old and one insertion: only the new
    entry remains. *)
Example image_cache_cleanup_runs :
  size Samples.crowded = 100%nat ∧
  snd (fst (image (Some "https://cdn.thingiverse.com/a.png") 10000000 10000000 10000000
              (Response 200 (Some Samples.png)) Samples.crowded))
  = {[ "https://cdn.thingiverse.com/a.png" :=
         {| buffer := up_body Samples.png; contentType := "image/png";
            timestamp := 10000000 |} ]}.
Proof. split; vm_compute; reflexivity. Qed.

End ImageProperties.

(* ===================================================================== *)
(** * Properties of the rest of the server *)
(* ===================================================================== *)

Section UriProperties.
Import Uri SearchUrls.

(** ** Escapes *)

Lemma decode_from_other c rest pending lo hi :
  c ≠ "%"%char →
  decode_from (String c rest) pending lo hi
  = if Nat.eqb pending 0 then String c <$> decode_from rest 0 128 191 else None.
Proof.
  intros Hc. destruct c as [[] [] [] [] [] [] [] []]; try done.
Qed.

Lemma decode_from_escape h1 h2 rest pending lo hi :
  decode_from (String "%"%char (String h1 (String h2 rest))) pending lo hi
  = match hex_byte h1 h2 with
    | None => None
    | Some b =>
        match pending with
        | O =>
            if b <? 128
            then String (byte_char b) <$> decode_from rest 0 128 191
            else match utf8_lead b with
                 | Some (n, lo', hi') =>
                     String (byte_char b) <$> decode_from rest n lo' hi'
                 | None => None
                 end
        | S n =>
            if (lo <=? b) && (b <=? hi)
            then String (byte_char b) <$> decode_from rest n 128 191
            else None
        end
    end.
Proof. reflexivity. Qed.

Lemma hex_byte_hex_char c :
  let n := Z.of_nat (Ascii.nat_of_ascii c) in
  (hex_byte (hex_char (n / 16)) (hex_char (n mod 16)) = Some n
   ∧ byte_char n = c).
Proof. destruct c as [[] [] [] [] [] [] [] []]; vm_compute; done. Qed.

Lemma unreserved_facts c :
  unreserved c = true →
  c ≠ "%"%char ∧ (Z.of_nat (Ascii.nat_of_ascii c) <? 128) = true.
Proof. destruct c as [[] [] [] [] [] [] [] []]; vm_compute; done. Qed.

Lemma utf8_lead_lo b n lo hi : utf8_lead b = Some (n, lo, hi) → 128 <= lo.
Proof.
  unfold utf8_lead.
  repeat match goal with |- context [if ?c then _ else _] => destruct c end;
    intros [= <- <- <-]; lia.
Qed.

(** Decoding what was encoded follows the UTF-8 automaton on the
    original. *)
Lemma decode_encode_from s pending lo hi :
  128 <= lo →
  decode_from (encodeURIComponent s) pending lo hi
  = if utf8_from s pending lo hi then Some s else None.
Proof.
  revert pending lo hi. induction s as [|c s IH]; intros pending lo hi Hlo; simpl.
  - by destruct pending.
  - destruct (hex_byte_hex_char c) as [Hhex Hchar].
    destruct (unreserved c) eqn:Hu.
    + destruct (unreserved_facts c Hu) as [Hc Hlt].
      rewrite decode_from_other by done. rewrite Hlt.
      destruct pending as [|n]; simpl.
      * rewrite IH by lia. by destruct (utf8_from s 0 128 191).
      * apply Z.ltb_lt in Hlt.
        destruct (Z.leb_spec lo (Z.of_nat (nat_of_ascii c))); [lia|done].
    + rewrite decode_from_escape, Hhex.
      destruct pending as [|n].
      * destruct (_ <? 128).
        -- rewrite IH by lia. rewrite Hchar. by destruct (utf8_from s 0 128 191).
        -- destruct (utf8_lead _) as [[[n lo'] hi']|] eqn:El; [|done].
           rewrite IH by (by eapply utf8_lead_lo). rewrite Hchar.
           by destruct (utf8_from s n lo' hi').
      * destruct (_ && _); simpl; [|done].
        rewrite IH by lia. rewrite Hchar. by destruct (utf8_from s n 128 191).
Qed.

Lemma decode_inverts_encode' (s : string) :
  utf8 s = true → decodeURIComponent (encodeURIComponent s) = Some s.
Proof.
  intros Hs. unfold decodeURIComponent. rewrite decode_encode_from by lia.
  unfold utf8 in Hs. by rewrite Hs.
Qed.

Lemma decode_inverts_encode (s : string) :
  utf8 s = true ↔ decodeURIComponent (encodeURIComponent s) = Some s.
Proof.
  split; [apply decode_inverts_encode'|].
  unfold decodeURIComponent, utf8. rewrite decode_encode_from by lia.
  by destruct (utf8_from s 0 128 191).
Qed.

(** A string without [%] decodes to itself. *)
Lemma decode_plain s :
  occurrences "%"%char s = 0%nat → decodeURIComponent s = Some s.
Proof.
  unfold decodeURIComponent. induction s as [|c s IH]; [done|].
  cbn [occurrences].
  destruct (Ascii.eqb_spec "%"%char c) as [<-|Hne]; [done|].
  intros Hs. rewrite decode_from_other by done. simpl. by rewrite IH.
Qed.

(** What [encodeURIComponent] writes: unreserved characters and [%]. *)
Lemma hex_char_unreserved d : 0 <= d < 16 → unreserved (hex_char d) = true.
Proof.
  intros Hd.
  assert (d = 0 ∨ d = 1 ∨ d = 2 ∨ d = 3 ∨ d = 4 ∨ d = 5 ∨ d = 6 ∨ d = 7 ∨ d = 8
          ∨ d = 9 ∨ d = 10 ∨ d = 11 ∨ d = 12 ∨ d = 13 ∨ d = 14 ∨ d = 15) as H by lia.
  repeat destruct H as [->|H]; try subst d; reflexivity.
Qed.

Lemma occurrences_encode c s :
  unreserved c = false → c ≠ "%"%char →
  occurrences c (encodeURIComponent s) = 0%nat.
Proof.
  intros Hc Hp. induction s as [|c' s IH]; simpl; [done|].
  destruct (unreserved c') eqn:Hu; simpl.
  - destruct (Ascii.eqb_spec c c') as [->|_]; [congruence|done].
  - destruct (Ascii.eqb_spec c "%"%char) as [->|_]; [done|].
    set (n := Z.of_nat (nat_of_ascii c')).
    assert (0 <= n < 256) as Hn.
    { subst n. pose proof (nat_ascii_bounded c'). lia. }
    destruct (Ascii.eqb_spec c (hex_char (n / 16))) as [->|_].
    { rewrite hex_char_unreserved in Hc; [done|].
      split; [apply Z.div_pos; lia|apply Z.div_lt_upper_bound; lia]. }
    destruct (Ascii.eqb_spec c (hex_char (n mod 16))) as [->|_].
    { rewrite hex_char_unreserved in Hc; [done|]. apply Z.mod_pos_bound. lia. }
    done.
Qed.

Lemma occurrences_app c s t :
  occurrences c (s +:+ t) = (occurrences c s + occurrences c t)%nat.
Proof. induction s as [|c' s IH]; simpl; [done|]. rewrite IH. lia. Qed.


(** X1.  [GET /api/search-urls] answers one link for each of the six
    sites, and the query cannot change the shape of a link: whatever
    the query is, a character that [encodeURIComponent] escapes (such as
    [&], [=], [?], [#], [/] or a space) occurs in each link as often as
    it does for any other query. *)
Theorem search_urls_query_is_inert (q q' : option string) (c : Ascii.ascii) :
  Routes.missing q = false → Routes.missing q' = false →
  unreserved c = false → c ≠ "%"%char →
  ∃ links links',
    search_urls q = Links links ∧ search_urls q' = Links links'
    ∧ links.*1 = (Routes.site_names).*1
    ∧ (fun l => occurrences c (snd l)) <$> links
      = (fun l => occurrences c (snd l)) <$> links'.
Proof.
  intros Hq Hq' Hc Hp. unfold search_urls. rewrite Hq, Hq'.
  eexists _, _. split_and!; [reflexivity..|].
  cbn [fmap list_fmap snd].
  rewrite !occurrences_app, !(occurrences_encode c) by done.
  reflexivity.
Qed.

Lemma search_urls_query_is_inert_witness :
  ∃ links links',
    search_urls (Some "benchy") = Links links
    ∧ search_urls (Some "a&sort=new#x?y/../z") = Links links'
    ∧ links.*1 = (Routes.site_names).*1
    ∧ (fun l => occurrences "&"%char (snd l)) <$> links
      = (fun l => occurrences "&"%char (snd l)) <$> links'.
Proof.
  apply (search_urls_query_is_inert (Some "benchy") (Some "a&sort=new#x?y/../z")
           "&"%char); [reflexivity|reflexivity|reflexivity|discriminate].
Defined.

End UriProperties.

Section MoreImageProperties.
Import Uri ImageProxy Invariants.

(** ** More on the image proxy *)

Lemma scheme_test imageUrl :
  negb (startsWith imageUrl "http://") && negb (startsWith imageUrl "https://")
  = negb (has_http_scheme imageUrl).
Proof. unfold has_http_scheme. by rewrite negb_orb. Qed.

(** What one request can do, case by case. *)
Lemma image_cases url now now' now'' reply imageCache :
  let served := image url now now' now'' reply imageCache in
  (snd served = [] ∧ snd (fst served) = imageCache)
  ∨ (∃ imageUrl,
       decodeURIComponent (default "" url) = Some imageUrl
       ∧ has_http_scheme imageUrl = true
       ∧ cached_image imageCache imageUrl now = None
       ∧ snd served = [{| fetch_url := imageUrl; fetch_referer := referer_for imageUrl |}]
       ∧ ((status (fst (fst served)) ≠ 200 ∧ snd (fst served) = imageCache)
          ∨ (∃ st up,
               reply = Response st (Some up) ∧ ok st = true
               ∧ fst (fst served)
                 = {| status := 200;
                      body := ImageBody (sor (up_content_type up) "image/jpeg")
                                (up_body up) |}
               ∧ let inserted :=
                   <[imageUrl := {| buffer := up_body up;
                                    contentType := sor (up_content_type up) "image/jpeg";
                                    timestamp := now' |}]> imageCache in
                 snd (fst served)
                 = if 100 <? Z.of_nat (size inserted) then clean now'' inserted
                   else inserted))).
Proof.
  intros served. subst served. unfold image.
  destruct (Routes.missing url); [by left|].
  destruct (decodeURIComponent _) as [imageUrl|]; [|by left].
  rewrite scheme_test. destruct (has_http_scheme imageUrl) eqn:Hs; simpl; [|by left].
  destruct (cached_image imageCache imageUrl now) as [cached|] eqn:Hc; [by left|].
  right. exists imageUrl. split_and!; try done.
  - destruct reply as [|st content]; [done|].
    destruct (ok st); simpl; [|done]. by destruct content.
  - destruct reply as [|st content]; simpl; [by left|].
    destruct (ok st) eqn:Hok; simpl.
    + destruct content as [up|]; [|by left]. right. by exists st, up.
    + left. split; [|done]. intros ->. done.
Qed.

(** X2.  [GET /api/image] makes at most one upstream request, and only
    for the decoded [url] parameter, only when it starts with [http://]
    or [https://], and only when the cache had no fresh entry for it. *)
Theorem image_fetches_only_http_urls
    (url : option string) (now now' now'' : Z) (reply : Reply Upstream)
    (imageCache : gmap string CachedImage) :
  let served := image url now now' now'' reply imageCache in
  (length (snd served) ≤ 1)%nat
  ∧ ∀ call, call ∈ snd served →
      decodeURIComponent (default "" url) = Some (fetch_url call)
      ∧ has_http_scheme (fetch_url call) = true
      ∧ cached_image imageCache (fetch_url call) now = None.
Proof.
  intros served.
  destruct (image_cases url now now' now'' reply imageCache)
    as [[Hc _]|(imageUrl & Hd & Hs & Hm & Hc & _)];
    fold served in Hc; rewrite Hc; simpl.
  - split; [lia|]. by intros call ?%elem_of_nil.
  - split; [lia|]. by intros call ->%list_elem_of_singleton.
Qed.

(** X3.  A request to [GET /api/image] that is not answered with 200,
    or that makes no upstream request, leaves the image cache as it
    was: failures are never cached. *)
Theorem image_failures_are_not_cached
    (url : option string) (now now' now'' : Z) (reply : Reply Upstream)
    (imageCache : gmap string CachedImage) :
  let served := image url now now' now'' reply imageCache in
  status (fst (fst served)) ≠ 200 ∨ snd served = [] →
  snd (fst served) = imageCache.
Proof.
  intros served.
  destruct (image_cases url now now' now'' reply imageCache)
    as [[Hc Hsame]|(imageUrl & _ & _ & _ & Hc & [[_ Hsame]|(st & up & _ & _ & Hr & _)])];
    fold served in Hc; try fold served in Hsame; try fold served in Hr; try done.
  rewrite Hr, Hc. simpl. by intros [?|?].
Qed.

Lemma image_failures_are_not_cached_witness :
  snd (fst (image (Some "https://cdn.thingiverse.com/gone.png") 0 0 0
              (Response 503 (Some Samples.png)) Samples.crowded))
  = Samples.crowded.
Proof.
  apply (image_failures_are_not_cached (Some "https://cdn.thingiverse.com/gone.png")
           0 0 0 (Response 503 (Some Samples.png)) Samples.crowded).
  left. vm_compute. discriminate.
Defined.

Lemma scheme_nonempty u : has_http_scheme u = true → u ≠ "".
Proof. by intros H ->. Qed.

Lemma encode_nonempty u : u ≠ "" → encodeURIComponent u ≠ "".
Proof. destruct u as [|c u]; [done|]. simpl. by destruct (unreserved c). Qed.

Lemma missing_Some u : u ≠ "" → Routes.missing (Some u) = false.
Proof. intros H. simpl. by destruct (String.eqb_spec u ""). Qed.

(** X4.  When the [url] parameter is a URL written as it is (without
    [%]) or passed through [encodeURIComponent], and the cache has no
    fresh entry, the proxy requests exactly that URL, with the referer
    chosen from it. *)
Theorem image_fetch_target
    (url u : string) (now now' now'' : Z) (reply : Reply Upstream)
    (imageCache : gmap string CachedImage) :
  (url = u ∧ occurrences "%"%char u = 0%nat)
  ∨ (url = encodeURIComponent u ∧ utf8 u = true) →
  has_http_scheme u = true →
  cached_image imageCache u now = None →
  snd (image (Some url) now now' now'' reply imageCache)
  = [{| fetch_url := u; fetch_referer := referer_for u |}].
Proof.
  intros Hurl Hs Hmiss.
  assert (Hu : u ≠ "") by by apply scheme_nonempty.
  assert (Routes.missing (Some url) = false
          ∧ decodeURIComponent url = Some u) as [Hm Hd].
  { destruct Hurl as [[-> Hp]|[-> Hv]].
    - split; [by apply missing_Some|by apply decode_plain].
    - split; [by apply missing_Some, encode_nonempty
             |by apply decode_inverts_encode'].
  }
  unfold image. rewrite Hm. simpl. rewrite Hd.
  unfold has_http_scheme in Hs.
  destruct (startsWith u "http://"), (startsWith u "https://");
    simpl in *; try done; rewrite Hmiss;
    destruct reply as [|st content]; try done;
    destruct (ok st); simpl; try done; by destruct content.
Qed.

Lemma image_fetch_target_witness :
  snd (image (Some "https%3A%2F%2Fthangs.com%2Fa%20b.jpg") 0 0 0 NetFail ∅)
  = [{| fetch_url := "https://thangs.com/a b.jpg";
        fetch_referer := referer_for "https://thangs.com/a b.jpg" |}].
Proof.
  apply (image_fetch_target "https%3A%2F%2Fthangs.com%2Fa%20b.jpg"
           "https://thangs.com/a b.jpg" 0 0 0 NetFail ∅).
  - right. split; reflexivity.
  - reflexivity.
  - reflexivity.
Defined.

Lemma sor_default_nonempty a b : b ≠ "" → sor a b ≠ "".
Proof.
  intros Hb. unfold sor. destruct a as [s|]; [|done].
  by destruct (String.eqb_spec s "").
Qed.

Lemma well_kept_clean now m : well_kept m → well_kept (clean now m).
Proof. intros Hm k e [He _]%lookup_clean. by apply Hm. Qed.

Lemma serve_well_kept imageCache r :
  well_kept imageCache → well_kept (serve imageCache r).
Proof.
  intros Hm. unfold serve.
  destruct (image_cases (ir_url r) (ir_now r) (ir_now' r) (ir_now'' r) (ir_reply r)
              imageCache)
    as [[_ ->]|(imageUrl & _ & Hs & _ & _ & [[_ ->]|(st & up & _ & _ & _ & ->)])];
    try done.
  assert (Hi : well_kept
            (<[imageUrl := {| buffer := up_body up;
                              contentType := sor (up_content_type up) "image/jpeg";
                              timestamp := ir_now' r |}]> imageCache)).
  { intros k e. rewrite lookup_insert. case_decide as Hk.
    - intros [= <-]. subst k. split; [done|]. simpl. by apply sor_default_nonempty.
    - apply Hm. }
  destruct (100 <? _); [by apply well_kept_clean|done].
Qed.

(** X5.  Whatever requests the image proxy has served since the start,
    every key of its cache starts with [http://] or [https://] and every
    entry has a content type that is not empty. *)
Theorem image_cache_stays_well_kept (rs : list ImageRequest) :
  well_kept (serve_all ∅ rs).
Proof.
  assert (H : ∀ m, well_kept m → well_kept (serve_all m rs)).
  { induction rs as [|r rs IH]; intros m Hm; simpl; [done|].
    by apply IH, serve_well_kept. }
  apply H. intros k e. by rewrite lookup_empty.
Qed.

(** X6.  The cleanup scan of the image cache only removes entries, a
    second scan at the same time removes nothing more, and a scan at a
    later time gives the same cache whether or not an earlier scan was
    made. *)
Theorem clean_later_subsumes_earlier
    (now1 now2 : Z) (imageCache : gmap string CachedImage) :
  now1 <= now2 →
  clean now2 (clean now1 imageCache) = clean now2 imageCache
  ∧ clean now1 (clean now1 imageCache) = clean now1 imageCache
  ∧ clean now2 imageCache ⊆ imageCache.
Proof.
  intros Hn.
  assert (Hl : ∀ now m k,
            clean now m !! k
            = m !! k ≫= (fun e => if IMAGE_CACHE_TTL <? now - timestamp e
                                  then None else Some e)).
  { intros now m k. apply option_eq. intros e. rewrite lookup_clean.
    unfold stale. destruct (m !! k) as [e'|]; simpl.
    - destruct (Z.ltb_spec IMAGE_CACHE_TTL (now - timestamp e')); split.
      + intros [[= <-] Hs]. by destruct Hs.
      + done.
      + by intros [? _].
      + intros [= <-]. split; [done|]. lia.
    - split; [by intros [? _]|done]. }
  split_and!.
  - apply map_eq. intros k. rewrite !Hl.
    destruct (imageCache !! k) as [e|]; simpl; [|done].
    destruct (Z.ltb_spec IMAGE_CACHE_TTL (now1 - timestamp e)); simpl; [|done].
    destruct (Z.ltb_spec IMAGE_CACHE_TTL (now2 - timestamp e)); [done|lia].
  - apply map_eq. intros k. rewrite !Hl.
    destruct (imageCache !! k) as [e|]; simpl; [|done].
    destruct (Z.ltb_spec IMAGE_CACHE_TTL (now1 - timestamp e)) as [|H]; simpl; [done|].
    destruct (Z.ltb_spec IMAGE_CACHE_TTL (now1 - timestamp e)); [lia|done].
  - apply map_subseteq_spec. intros k e [He _]%lookup_clean. done.
Qed.

Lemma clean_later_subsumes_earlier_witness :
  clean 10000001 (clean 10000000 Samples.crowded) = clean 10000001 Samples.crowded
  ∧ clean 10000000 (clean 10000000 Samples.crowded) = clean 10000000 Samples.crowded
  ∧ clean 10000001 Samples.crowded ⊆ Samples.crowded.
Proof.
  apply (clean_later_subsumes_earlier 10000000 10000001 Samples.crowded). lia.
Defined.

End MoreImageProperties.

Section ResponseProperties.
Import Routes Records Uri.

(** ** Records *)

Lemma truthy_or a b : truthy b = true → truthy (or a b) = true.
Proof. unfold or. by destruct (truthy a) eqn:E. Qed.

Lemma nullish_or a b : nullish b = false → nullish (or a b) = false.
Proof. unfold or. destruct (truthy a) eqn:E; [|done]. by destruct a. Qed.

Lemma sor_nonempty a b : b ≠ "" → sor a b ≠ "".
Proof.
  intros Hb. unfold sor. destruct a as [s|]; [|done].
  by destruct (String.eqb_spec s "").
Qed.

Lemma sor_Some_nonempty (s b : string) :
  b ≠ "" → (if String.eqb s "" then b else s) ≠ "".
Proof. intros Hb. by destruct (String.eqb_spec s ""). Qed.

Lemma negb_eqb_ne (s : string) : negb (String.eqb s "") = true → s ≠ "".
Proof. by destruct (String.eqb_spec s ""). Qed.

Lemma truthy_JStr s : s ≠ "" → truthy (JStr s) = true.
Proof. intros H. simpl. by destruct (String.eqb_spec s ""). Qed.

Lemma prefixed_nonempty (href pre : string) (b : bool) :
  href ≠ "" → pre ≠ "" → (if b then href else pre +:+ href) ≠ "".
Proof. intros ??. destruct b; [done|]. by destruct pre. Qed.

Lemma template_Some prefix v u :
  template prefix v = Some u → ∃ s, u = JStr (prefix +:+ s).
Proof.
  unfold template. destruct (to_string v) as [s|]; simpl; [|done].
  intros [= <-]. eauto.
Qed.

Lemma template_truthy prefix v u :
  prefix ≠ "" → template prefix v = Some u → truthy u = true.
Proof.
  intros Hp [s ->]%template_Some. apply truthy_JStr. by destruct prefix.
Qed.

Lemma or_template_truthy a prefix v u :
  prefix ≠ "" → or_template a prefix v = Some u → truthy u = true.
Proof.
  intros Hp. unfold or_template. destruct (truthy a) eqn:E.
  - by intros [= <-].
  - by apply template_truthy.
Qed.

Lemma template_or_empty (b : bool) prefix v u :
  (if b then template prefix v else Some (JStr "")) = Some u → nullish u = false.
Proof. destruct b; [by intros [s ->]%template_Some|by intros [= <-]]. Qed.

Local Ltac shown :=
  repeat split; cbn [source title creator url thumbnail likes downloads];
  repeat first
    [ reflexivity
    | done
    | apply truthy_or | apply nullish_or
    | apply truthy_JStr
    | apply sor_nonempty
    | apply sor_Some_nonempty
    | apply prefixed_nonempty
    | (eapply or_template_truthy; [|eassumption]; done)
    | (eapply template_truthy; [|eassumption]; done)
    | (eapply template_or_empty; eassumption)
    | match goal with |- nullish (if ?b then _ else _) = false => destruct b end ].

Lemma array_map_Forall {B} (P : B → Prop) (f : JsVal → option B) a rs :
  (∀ x r, f x = Some r → P r) → array_map f a = Some rs → Forall P rs.
Proof.
  intros Hf. destruct a; simpl; try done.
  intros H%mapM_Some. induction H; constructor; eauto.
Qed.

Lemma array_slice_map_Forall {B} (P : B → Prop) (f : JsVal → option B) a n rs :
  (∀ x r, f x = Some r → P r) → array_slice_map f a n = Some rs → Forall P rs.
Proof.
  intros Hf. destruct a; simpl; try done.
  intros H%mapM_Some. induction H; constructor; eauto.
Qed.

Local Ltac mapper f :=
  intros item r; unfold f; destruct (nullish item); [done|];
  intros H; repeat (apply bind_Some in H as (? & ? & H));
  injection H as <-; shown.

Lemma printables_record_shown item r :
  printables_record item = Some r → complete "printables" r.
Proof. revert item r. mapper printables_record. Qed.

Lemma thangs_record_shown item r :
  thangs_record item = Some r → complete "thangs" r.
Proof. revert item r. mapper thangs_record. Qed.

Lemma thangs_alt_record_shown item r :
  thangs_alt_record item = Some r → complete "thangs" r.
Proof. revert item r. mapper thangs_alt_record. Qed.

Lemma thingiverse_api_record_shown item r :
  thingiverse_api_record item = Some r → complete "thingiverse" r.
Proof. revert item r. mapper thingiverse_api_record. Qed.

Lemma thingiverse_page_record_shown item r :
  thingiverse_page_record item = Some r → complete "thingiverse" r.
Proof. revert item r. mapper thingiverse_page_record. Qed.

Lemma myminifactory_record_shown item r :
  myminifactory_record item = Some r → complete "myminifactory" r.
Proof. revert item r. mapper myminifactory_record. Qed.

Lemma creality_record_shown item r :
  creality_record item = Some r → complete "crealitycloud" r.
Proof. revert item r. mapper creality_record. Qed.

Lemma each_thing_card_shown limit els results :
  Forall (complete "thingiverse") results →
  Forall (complete "thingiverse") (each_thing_card limit els results).
Proof.
  revert results. induction els as [|el els IH]; intros results Hr; simpl; [done|].
  destruct (_ >=? _); [done|]. apply IH.
  destruct (card_href el) as [href|]; [|done].
  destruct (_ && _) eqn:E; [|done].
  apply andb_prop in E as [Hh%negb_eqb_ne _].
  apply Forall_app. split; [done|]. constructor; [|done]. shown.
Qed.

Lemma each_object_link_shown limit els results :
  Forall (complete "myminifactory") results →
  Forall (complete "myminifactory") (each_object_link limit els results).
Proof.
  revert results. induction els as [|el els IH]; intros results Hr; simpl; [done|].
  destruct (_ >=? _); [done|]. apply IH.
  destruct (link_href el) as [href|]; [|done].
  destruct (_ && _) eqn:E; [|done].
  apply andb_prop in E as [[Hh%negb_eqb_ne Ht%negb_eqb_ne]%andb_prop _].
  apply Forall_app. split; [done|]. constructor; [|done]. shown.
Qed.

Lemma each_card_image_shown limit els results seen :
  Forall (complete "youmagine") results →
  Forall (complete "youmagine") (each_card_image limit els results seen).
Proof.
  revert results seen.
  induction els as [|el els IH]; intros results seen Hr; simpl; [done|].
  destruct (_ >=? _); [done|].
  destruct (_ || _); [by apply IH|].
  destruct (img_link_href el) as [href|]; [|by apply IH].
  destruct (_ && _) eqn:E; [|by apply IH].
  apply andb_prop in E as [[Hh%negb_eqb_ne _]%andb_prop _].
  apply IH, Forall_app. split; [done|]. constructor; [|done]. shown.
Qed.

Lemma searchPrintables_shown query limit page reply :
  Forall (complete "printables") (searchPrintables query limit page reply).
Proof.
  unfold searchPrintables, or_empty.
  destruct reply as [|st body]; simpl; [done|].
  destruct (ok st); simpl; [|done].
  destruct body as [data|]; simpl; [|done].
  destruct (array_map _ _) as [rs|] eqn:E; simpl; [|done].
  eapply array_map_Forall; [|done]. apply printables_record_shown.
Qed.

Lemma creality_list_shown reply :
  Forall (complete "crealitycloud") (creality_list reply).
Proof.
  unfold creality_list, or_empty.
  destruct reply as [|st body]; simpl; [done|].
  destruct (ok st); simpl; [|done].
  destruct body as [data|]; simpl; [|done].
  destruct (get data "code") as [code|]; simpl; [|done].
  destruct code as [| | |[| |]| | | |]; simpl; try done.
  destruct (truthy _); simpl; [|done].
  destruct (array_map _ _) as [rs|] eqn:E; simpl; [|done].
  eapply array_map_Forall; [|done]. apply creality_record_shown.
Qed.

Lemma youmagine_cards_shown limit reply :
  Forall (complete "youmagine") (youmagine_cards limit reply).
Proof.
  unfold youmagine_cards, or_empty.
  destruct reply as [|st body]; simpl; [done|].
  destruct body as [html|]; simpl; [|done].
  by apply each_card_image_shown.
Qed.

Lemma searchThangs_shown query limit page reply altReply :
  Forall (complete "thangs") (searchThangs query limit page reply altReply).
Proof.
  unfold searchThangs.
  set (alternate := match altReply with NetFail => _ | _ => _ end).
  assert (Halt : Forall (complete "thangs") (or_empty alternate)).
  { subst alternate. destruct altReply as [|st body]; simpl; [done|].
    destruct (ok st); simpl; [|done].
    destruct body as [data|]; simpl; [|done].
    destruct (array_slice_map _ _ _) as [rs|] eqn:E; simpl; [|done].
    eapply array_slice_map_Forall; [|done]. apply thangs_alt_record_shown. }
  destruct reply as [|st body]; simpl; [done|].
  destruct (ok st); [|done].
  destruct body as [text|]; simpl; [|done].
  destruct text as [data|]; simpl; [|done].
  destruct (isArray _); [|done].
  destruct (array_slice_map thangs_record _ _) as [rs|] eqn:E; simpl; [|done].
  eapply array_slice_map_Forall; [|done]. apply thangs_record_shown.
Qed.

Lemma searchMyMiniFactory_shown query limit page reply pageReply :
  Forall (complete "myminifactory")
    (searchMyMiniFactory query limit page reply pageReply).
Proof.
  unfold searchMyMiniFactory.
  set (scrape := match pageReply with NetFail => _ | _ => _ end).
  assert (Hscrape : Forall (complete "myminifactory") (or_empty scrape)).
  { subst scrape. destruct pageReply as [|st body]; simpl; [done|].
    destruct body as [html|]; simpl; [|done].
    by apply each_object_link_shown. }
  destruct reply as [|st body]; simpl; [done|].
  destruct (ok st); [|done].
  destruct body as [text|]; simpl; [|done].
  destruct text as [data|]; simpl; [|done].
  destruct (nonempty_array _); [|done].
  destruct (array_slice_map myminifactory_record _ _) as [rs|] eqn:E; simpl; [|done].
  eapply array_slice_map_Forall; [|done]. apply myminifactory_record_shown.
Qed.

Lemma thingiverse_api_shown limit reply rs :
  thingiverse_api limit reply = Some rs → Forall (complete "thingiverse") rs.
Proof.
  unfold thingiverse_api. destruct reply as [|st body]; [done|].
  destruct (ok st); [|done].
  destruct body as [data|]; simpl; [|done].
  destruct (get data "hits") as [h|]; simpl; [|done].
  destruct (nonempty_array _); [|done].
  apply array_slice_map_Forall, thingiverse_api_record_shown.
Qed.

Lemma searchThingiverse_shown key query limit page apiReply reply :
  Forall (complete "thingiverse")
    (searchThingiverse key query limit page apiReply reply).
Proof.
  unfold searchThingiverse, or_empty.
  destruct (if has_key key then _ else _) as [rs|] eqn:E; simpl.
  { destruct (has_key key); [|done]. by eapply thingiverse_api_shown. }
  destruct reply as [|st body]; simpl; [done|].
  destruct body as [html|]; simpl; [|done].
  destruct (match next_data html with Some _ => _ | None => _ end) as [rs|] eqn:E';
    simpl.
  - destruct (next_data html) as [[nextData|]|]; simpl in E'; try done.
    destruct (nonempty_array _); [|done].
    eapply array_slice_map_Forall; [|done]. apply thingiverse_page_record_shown.
  - by apply each_thing_card_shown.
Qed.

Lemma slice0_Forall {A} (P : A → Prop) (l : list A) n :
  Forall P l → Forall P (slice0 l n).
Proof. intros H. unfold slice0. destruct (_ <? _); by apply Forall_take. Qed.

Lemma fallback_shown :
  Forall (complete "thingiverse") fallback_thingiverse
  ∧ Forall (complete "thangs") fallback_thangs
  ∧ Forall (complete "myminifactory") fallback_myminifactory.
Proof. split_and!; repeat constructor. Qed.

Lemma searchFunctions_shown
    (key : string) (site : Site) (q : string) (limit page : Z) (net : SearchNet) :
  Forall (complete (site_id site)) (searchFunctions key site q limit page net).
Proof.
  destruct site; simpl.
  - apply searchThingiverse_shown.
  - apply searchPrintables_shown.
  - apply searchThangs_shown.
  - apply youmagine_cards_shown.
  - apply searchMyMiniFactory_shown.
  - apply creality_list_shown.
Qed.

Lemma fetchFunctions_shown
    (key : string) (string_gt0 : string → bool) (site : Site) (limit : Z)
    (net : PopularNet) :
  Forall (complete (site_id site)) (fetchFunctions key string_gt0 site limit net).
Proof.
  destruct fallback_shown as (Hthingiverse & Hthangs & Hmmf).
  destruct site; simpl.
  - unfold fetchPopularThingiverse.
    destruct (if has_key key then _ else _) as [rs|] eqn:E.
    + destruct (has_key key); [|done]. by eapply thingiverse_api_shown.
    + by apply slice0_Forall.
  - unfold fetchPopularPrintables, or_empty.
    destruct (pn_printables net) as [|st body]; simpl; [done|].
    destruct (ok st); simpl; [|apply searchPrintables_shown].
    destruct body as [data|]; simpl; [|done].
    destruct (get _ "length") as [len|]; simpl; [|done].
    destruct (gt0 _ _) as [[|]|]; simpl; [|apply searchPrintables_shown|done].
    destruct (array_map _ _) as [rs|] eqn:E; simpl; [|done].
    eapply array_map_Forall; [|done]. apply printables_record_shown.
  - by apply slice0_Forall.
  - apply youmagine_cards_shown.
  - by apply slice0_Forall.
  - apply creality_list_shown.
Qed.

(** ** The order of strings *)

(** A character beyond U+FFFF comes before U+FF21, as its surrogates
    do. *)
Example sort_orders_by_code_units :
  sort ["Ａ"; "😀"; "z"] = ["z"; "😀"; "Ａ"].
Proof. reflexivity. Qed.

(** A no-break space before the digits is skipped. *)
Example parseInt_skips_no_break_space :
  parseInt (String (Ascii.ascii_of_nat 194) (String (Ascii.ascii_of_nat 160) "7"))
  = Some 7.
Proof. reflexivity. Qed.

Lemma ascii_compare_lt_trans (a b c : Ascii.ascii) :
  Ascii.compare a b = Lt → Ascii.compare b c = Lt → Ascii.compare a c = Lt.
Proof.
  unfold Ascii.compare. rewrite !N.compare_lt_iff. lia.
Qed.

Lemma string_leb_trans (s1 s2 s3 : string) :
  String.leb s1 s2 = true → String.leb s2 s3 = true → String.leb s1 s3 = true.
Proof.
  unfold String.leb. revert s2 s3.
  induction s1 as [|a s1 IH]; intros [|b s2] [|c s3]; simpl; try done.
  destruct (Ascii.compare a b) eqn:Hab; [| |done].
  - apply Ascii.compare_eq_iff in Hab as <-.
    destruct (Ascii.compare a c) eqn:Hac; [apply IH|done|done].
  - destruct (Ascii.compare b c) eqn:Hbc; [| |done].
    + apply Ascii.compare_eq_iff in Hbc as <-. by rewrite Hab.
    + by rewrite (ascii_compare_lt_trans a b c).
Qed.

Lemma string_leb_false (s1 s2 : string) :
  String.leb s1 s2 = false → String.leb s2 s1 = true.
Proof. destruct (String.leb_total s1 s2) as [->|]; done. Qed.

Lemma unit_rank_inj a b : unit_rank a = unit_rank b → a = b.
Proof.
  unfold unit_rank. intros H.
  pose proof (Ascii.N_ascii_bounded a) as Ha.
  pose proof (Ascii.N_ascii_bounded b) as Hb.
  apply (f_equal Ascii.N_of_ascii) in H.
  rewrite <- (Ascii.ascii_N_embedding a), <- (Ascii.ascii_N_embedding b).
  f_equal. revert H.
  set (n := Ascii.N_of_ascii a) in *. set (m := Ascii.N_of_ascii b) in *.
  destruct (N.leb_spec 240 n), (N.leb_spec n 244), (N.eqb_spec n 238),
           (N.eqb_spec n 239), (N.leb_spec 240 m), (N.leb_spec m 244),
           (N.eqb_spec m 238), (N.eqb_spec m 239); simpl;
    rewrite !Ascii.N_ascii_embedding by lia; lia.
Qed.

Lemma unit_key_inj x y : unit_key x = unit_key y → x = y.
Proof.
  revert y. induction x as [|a x IH]; intros [|b y]; simpl; try done.
  intros [= Hab Hxy]. f_equal; [by apply unit_rank_inj|by apply IH].
Qed.

Lemma code_unit_leb_trans x y z :
  code_unit_leb x y = true → code_unit_leb y z = true → code_unit_leb x z = true.
Proof. apply string_leb_trans. Qed.

Lemma code_unit_leb_false x y : code_unit_leb x y = false → code_unit_leb y x = true.
Proof. apply string_leb_false. Qed.

Lemma code_unit_leb_antisym x y :
  code_unit_leb x y = true → code_unit_leb y x = true → x = y.
Proof. intros H1 H2. apply unit_key_inj. by apply String.leb_antisym. Qed.

(** Inserting two strings in either order gives the same array. *)
Lemma sort_insert_comm x y a :
  sort_insert x (sort_insert y a) = sort_insert y (sort_insert x a).
Proof.
  induction a as [|z a IH]; simpl.
  - destruct (code_unit_leb x y) eqn:Hxy, (code_unit_leb y x) eqn:Hyx; try done.
    + by rewrite (code_unit_leb_antisym x y).
    + apply code_unit_leb_false in Hxy. congruence.
  - destruct (code_unit_leb y z) eqn:Hyz, (code_unit_leb x z) eqn:Hxz; simpl;
      rewrite ?Hyz, ?Hxz.
    + destruct (code_unit_leb x y) eqn:Hxy, (code_unit_leb y x) eqn:Hyx;
        rewrite ?Hyz, ?Hxz; try done.
      * by rewrite (code_unit_leb_antisym x y).
      * apply code_unit_leb_false in Hxy. congruence.
    + destruct (code_unit_leb x y) eqn:Hxy; [|done].
      by rewrite (code_unit_leb_trans x y z) in Hxz.
    + destruct (code_unit_leb y x) eqn:Hyx; [|done].
      by rewrite (code_unit_leb_trans y x z) in Hyz.
    + by rewrite IH.
Qed.

Lemma sort_permutation a b : a ≡ₚ b → sort a = sort b.
Proof.
  unfold sort. induction 1 as [|x a b _ IH|x y a|a b c _ IH1 _ IH2]; simpl.
  - done.
  - by rewrite IH.
  - apply sort_insert_comm.
  - by rewrite IH1.
Qed.

(** X7.  [GET /api/popular] does not depend on the order in which the
    sites are listed: two [sites] parameters that list the same ids as
    often give the same cache key, the same response, the same cache and
    the same adapter calls. *)
Theorem popular_ignores_site_order
    (key : string) (string_gt0 : string → bool) (sites1 sites2 limit : option string)
    (now now' : Z) (net : nat → PopularNet) (cache : PopularCache) :
  enabledSites sites1 ≡ₚ enabledSites sites2 →
  cacheKey sites1 limit = cacheKey sites2 limit
  ∧ popular key string_gt0 sites1 limit now now' net cache
    = popular key string_gt0 sites2 limit now now' net cache.
Proof.
  intros Hp%sort_permutation.
  assert (Hk : cacheKey sites1 limit = cacheKey sites2 limit).
  { unfold cacheKey. by rewrite Hp. }
  split; [done|].
  unfold popular, popular_with. by rewrite Hp, Hk.
Qed.

Lemma popular_ignores_site_order_witness :
  cacheKey (Some "thangs,printables,youmagine") (Some "5")
  = cacheKey (Some "youmagine,thangs,printables") (Some "5")
  ∧ popular Samples.no_key Samples.never (Some "thangs,printables,youmagine")
      (Some "5") 1000 1000 (fun _ => Samples.popular_offline) popularCache
    = popular Samples.no_key Samples.never (Some "youmagine,thangs,printables")
        (Some "5") 1000 1000 (fun _ => Samples.popular_offline) popularCache.
Proof.
  apply (popular_ignores_site_order Samples.no_key Samples.never
           (Some "thangs,printables,youmagine") (Some "youmagine,thangs,printables")
           (Some "5") 1000 1000 (fun _ => Samples.popular_offline) popularCache).
  vm_compute. symmetry.
  apply (Permutation_cons_append ["thangs"; "printables"] "youmagine").
Defined.

(** X8.  Without a [sites] parameter (or with an empty one),
    [GET /api/search] calls each of the six search adapters once, in
    the order of the table, and answers their six arrays in that order;
    [GET /api/popular], when it is not served from the cache, does so
    for the fetch-popular adapters in the alphabetical order of the
    ids. *)
Theorem no_sites_means_every_adapter_once
    (key : string) (string_gt0 : string → bool)
    (q sites limit page : option string) (net : nat → SearchNet)
    (now now' : Z) (pnet : nat → PopularNet) (cache : PopularCache) :
  missing q = false →
  missing sites = true →
  cached_popular cache (cacheKey sites limit) now = None →
  let run site i :=
    VRecords (searchFunctions key site (default "" q) (searchLimit limit)
                (searchPage page) (net i)) in
  let fetch site i :=
    VRecords (fetchFunctions key string_gt0 site (searchLimit limit) (pnet i)) in
  search key q sites limit page net
  = ({| status := 200;
        body := SearchBody (searchPage page) (searchLimit limit)
          [ ("thingiverse", run thingiverse 0%nat); ("printables", run printables 1%nat);
            ("thangs", run thangs 2%nat); ("youmagine", run youmagine 3%nat);
            ("myminifactory", run myminifactory 4%nat);
            ("crealitycloud", run crealitycloud 5%nat) ] |},
     [ "thingiverse"; "printables"; "thangs"; "youmagine"; "myminifactory";
       "crealitycloud" ])
  ∧ fst (fst (popular key string_gt0 sites limit now now' pnet cache))
    = {| status := 200;
         body := PopularBody
           [ ("crealitycloud", fetch crealitycloud 0%nat);
             ("myminifactory", fetch myminifactory 1%nat);
             ("printables", fetch printables 2%nat); ("thangs", fetch thangs 3%nat);
             ("thingiverse", fetch thingiverse 4%nat);
             ("youmagine", fetch youmagine 5%nat) ] |}
  ∧ snd (popular key string_gt0 sites limit now now' pnet cache)
    = [ "crealitycloud"; "myminifactory"; "printables"; "thangs"; "thingiverse";
        "youmagine" ].
Proof.
  intros Hq Hs Hmiss run fetch.
  assert (He : enabledSites sites = default_sites).
  { destruct sites as [s|]; simpl in *; [|done]. by rewrite Hs. }
  split_and!.
  - unfold search, search_with. rewrite Hq, He. reflexivity.
  - unfold popular. rewrite popular_with_miss by done. rewrite He. reflexivity.
  - unfold popular. rewrite popular_with_miss by done. rewrite He. reflexivity.
Qed.

Lemma no_sites_means_every_adapter_once_witness :
  let run site (i : nat) :=
    VRecords (searchFunctions Samples.no_key site "benchy" 10 1 Samples.offline) in
  let fetch site (i : nat) :=
    VRecords (fetchFunctions Samples.no_key Samples.never site 10
                Samples.popular_offline) in
  search Samples.no_key (Some "benchy") (Some "") None None (fun _ => Samples.offline)
  = ({| status := 200;
        body := SearchBody 1 10
          [ ("thingiverse", run thingiverse 0%nat); ("printables", run printables 1%nat);
            ("thangs", run thangs 2%nat); ("youmagine", run youmagine 3%nat);
            ("myminifactory", run myminifactory 4%nat);
            ("crealitycloud", run crealitycloud 5%nat) ] |},
     [ "thingiverse"; "printables"; "thangs"; "youmagine"; "myminifactory";
       "crealitycloud" ])
  ∧ fst (fst (popular Samples.no_key Samples.never (Some "") None 1000 1000
                (fun _ => Samples.popular_offline) popularCache))
    = {| status := 200;
         body := PopularBody
           [ ("crealitycloud", fetch crealitycloud 0%nat);
             ("myminifactory", fetch myminifactory 1%nat);
             ("printables", fetch printables 2%nat); ("thangs", fetch thangs 3%nat);
             ("thingiverse", fetch thingiverse 4%nat);
             ("youmagine", fetch youmagine 5%nat) ] |}
  ∧ snd (popular Samples.no_key Samples.never (Some "") None 1000 1000
           (fun _ => Samples.popular_offline) popularCache)
    = [ "crealitycloud"; "myminifactory"; "printables"; "thangs"; "thingiverse";
        "youmagine" ].
Proof.
  apply (no_sites_means_every_adapter_once Samples.no_key Samples.never
           (Some "benchy") (Some "") None None (fun _ => Samples.offline)
           1000 1000 (fun _ => Samples.popular_offline) popularCache);
    reflexivity.
Defined.

Lemma site_names_inv name site :
  assoc site_names name = Some site → name = site_id site.
Proof.
  unfold site_names. simpl.
  repeat match goal with
         | |- context [String.eqb name ?s] =>
             destruct (String.eqb_spec name s) as [->|_]; [by intros [= <-]|]
         end.
  done.
Qed.

(** X9.  For a recognized site, [GET /api/search/:site] answers the
    array that [GET /api/search] with that one site answers under its
    id, given the same query, limit, page and upstream. *)
Theorem search_site_agrees_with_search
    (key : string) (name : string) (site : Site) (q limit page : option string)
    (net : SearchNet) :
  missing q = false →
  assoc site_names name = Some site →
  let records :=
    searchFunctions key site (default "" q) (searchLimit limit) (searchPage page) net in
  search_site key name q limit page net
  = {| status := 200; body := SiteBody name (searchPage page) (VRecords records) |}
  ∧ fst (search key q (Some name) limit page (fun _ => net))
    = {| status := 200;
         body := SearchBody (searchPage page) (searchLimit limit)
                   [(name, VRecords records)] |}.
Proof.
  intros Hq Hsite records. subst records.
  apply site_names_inv in Hsite as ->.
  unfold search_site, search, search_with. rewrite Hq.
  destruct site; split; reflexivity.
Qed.

Lemma search_site_agrees_with_search_witness :
  let records :=
    searchFunctions Samples.no_key printables "benchy" 20 3 Samples.printables_online in
  search_site Samples.no_key "printables" (Some "benchy") (Some "40") (Some "3")
    Samples.printables_online
  = {| status := 200; body := SiteBody "printables" 3 (VRecords records) |}
  ∧ fst (search Samples.no_key (Some "benchy") (Some "printables") (Some "40")
           (Some "3") (fun _ => Samples.printables_online))
    = {| status := 200; body := SearchBody 3 20 [("printables", VRecords records)] |}.
Proof.
  apply (search_site_agrees_with_search Samples.no_key "printables" printables
           (Some "benchy") (Some "40") (Some "3") Samples.printables_online);
    reflexivity.
Defined.

Lemma serve_keeps_keys key string_gt0 cache r k :
  is_Some (data cache ≫= (fun d => d !! k)) →
  is_Some (data (serve key string_gt0 cache r) ≫= (fun d => d !! k)).
Proof.
  intros Hk. unfold serve, popular, popular_with.
  destruct (cached_popular _ _ _); simpl; [done|].
  destruct (decide (cacheKey (pr_sites r) (pr_limit r) = k)) as [<-|Hne].
  - rewrite lookup_insert_eq. eauto.
  - rewrite lookup_insert_ne by done.
    destruct (data cache); simpl in *; [done|]. by destruct Hk.
Qed.

(** X10.  The cache of popular results never loses a key: whatever
    requests are served afterwards, a key that was stored stays in the
    object (entries are only replaced). *)
Theorem popular_cache_never_evicts
    (key : string) (string_gt0 : string → bool) (cache : PopularCache)
    (rs : list PopularRequest) (k : string) :
  is_Some (data cache ≫= (fun d => d !! k)) →
  is_Some (data (serve_all key string_gt0 cache rs) ≫= (fun d => d !! k)).
Proof.
  revert cache. induction rs as [|r rs IH]; intros cache Hk; simpl; [done|].
  by apply IH, serve_keeps_keys.
Qed.

Lemma popular_cache_never_evicts_witness :
  let stored :=
    serve Samples.no_key Samples.never popularCache
      {| pr_sites := Some "thangs"; pr_limit := None; pr_now := 0; pr_now' := 0;
         pr_net := fun _ => Samples.popular_offline |} in
  is_Some
    (data (serve_all Samples.no_key Samples.never stored
             [ {| pr_sites := Some "youmagine"; pr_limit := None;
                  pr_now := 86400000; pr_now' := 86400000;
                  pr_net := fun _ => Samples.popular_offline |} ])
     ≫= (fun d => d !! "thangs-10")).
Proof.
  apply (popular_cache_never_evicts Samples.no_key Samples.never).
  vm_compute. eauto.
Defined.

(** The adapters with curated data. *)
Lemma slice0_length_min {A} (a : list A) (n : Z) :
  0 <= n → Z.of_nat (length (slice0 a n)) = Z.min n (Z.of_nat (length a)).
Proof.
  intros Hn. unfold slice0. destruct (Z.ltb_spec n 0); [lia|].
  rewrite length_take. lia.
Qed.

Lemma thingiverse_api_nonempty limit reply rs :
  1 <= limit → thingiverse_api limit reply = Some rs → (1 <= length rs)%nat.
Proof.
  intros Hl. unfold thingiverse_api. destruct reply as [|st body]; [done|].
  destruct (ok st); [|done].
  destruct body as [data|]; simpl; [|done].
  destruct (get data "hits") as [h|]; simpl; [|done].
  destruct (nonempty_array _) eqn:Hne; [|done].
  destruct (or (or h data) (JArr [])) as [| | | | | |a|]; try done.
  simpl. intros Hm%length_mapM. rewrite <- Hm.
  unfold nonempty_array in Hne. simpl in Hne. apply Z.ltb_lt in Hne.
  pose proof (slice0_length_min a limit). lia.
Qed.

(** X11.  For a limit of at least 1, the fetch-popular adapters of
    Thingiverse, Thangs and MyMiniFactory always give at least one
    record and at most [limit], whatever the upstream does. *)
Theorem curated_popular_is_never_empty
    (key : string) (string_gt0 : string → bool) (site : Site) (limit : Z)
    (net : PopularNet) :
  1 <= limit →
  site = thingiverse ∨ site = thangs ∨ site = myminifactory →
  let records := fetchFunctions key string_gt0 site limit net in
  1 <= Z.of_nat (length records) <= limit.
Proof.
  intros Hl Hsite records. split.
  - subst records. destruct Hsite as [->|[->| ->]]; simpl.
    + unfold fetchPopularThingiverse.
      destruct (if has_key key then _ else _) as [rs|] eqn:E.
      * destruct (has_key key); [|done].
        apply thingiverse_api_nonempty in E; lia.
      * rewrite slice0_length_min by lia. simpl. lia.
    + unfold fetchPopularThangs. rewrite slice0_length_min by lia. simpl. lia.
    + unfold fetchPopularMyMiniFactory. rewrite slice0_length_min by lia. simpl. lia.
  - apply fetchFunctions_length; [lia|..]; by destruct Hsite as [->|[->| ->]].
Qed.

Lemma curated_popular_is_never_empty_witness :
  let records :=
    fetchFunctions Samples.no_key Samples.never thingiverse 3 Samples.popular_offline in
  1 <= Z.of_nat (length records) <= 3.
Proof.
  apply (curated_popular_is_never_empty Samples.no_key Samples.never thingiverse 3
           Samples.popular_offline).
  - lia.
  - by left.
Defined.

(** X12.  When every upstream request fails, the fetch-popular
    adapters of Thingiverse, Thangs and MyMiniFactory give their curated
    lists cut at the limit, and those of Printables, YouMagine and
    Creality Cloud give the empty array. *)
Theorem popular_adapters_degrade
    (key : string) (string_gt0 : string → bool) (site : Site) (limit : Z)
    (net : PopularNet) :
  popular_fails net →
  fetchFunctions key string_gt0 site limit net
  = match site with
    | thingiverse => slice0 fallback_thingiverse limit
    | thangs => slice0 fallback_thangs limit
    | myminifactory => slice0 fallback_myminifactory limit
    | printables | youmagine | crealitycloud => []
    end.
Proof.
  intros (Ht & Hp & Hps & Hy & Hc). destruct site; simpl.
  - unfold fetchPopularThingiverse. rewrite thingiverse_api_failed by done.
    by destruct (has_key key).
  - unfold fetchPopularPrintables.
    rewrite (searchPrintables_failed _ _ _ _ Hps).
    destruct (pn_printables net) as [|st body]; simpl in *; [done|].
    destruct Hp as [->| ->]; [done|]. by destruct (ok st).
  - done.
  - by apply youmagine_cards_failed.
  - done.
  - by apply creality_list_failed.
Qed.

Lemma popular_adapters_degrade_witness :
  fetchFunctions Samples.no_key Samples.never printables 5 Samples.popular_offline = []
  ∧ fetchFunctions Samples.no_key Samples.never thangs 5 Samples.popular_offline
    = slice0 fallback_thangs 5.
Proof.
  split.
  - apply (popular_adapters_degrade Samples.no_key Samples.never printables 5
             Samples.popular_offline).
    repeat split.
  - apply (popular_adapters_degrade Samples.no_key Samples.never thangs 5
             Samples.popular_offline).
    repeat split.
Defined.

(** ** The MyMiniFactory page loop *)

Lemma prefix_refl s : String.prefix s s = true.
Proof.
  induction s as [|c s IH]; simpl; [done|].
  destruct (ascii_dec c c); [done|congruence].
Qed.

Lemma includes_refl s : includes s s = true.
Proof. destruct s; [done|]. cbn [includes]. by rewrite prefix_refl. Qed.

Lemma includes_app a s : includes (a +:+ s) s = true.
Proof.
  induction a as [|c a IH]; [apply includes_refl|].
  change (String c a +:+ s) with (String c (a +:+ s)). cbn [includes].
  rewrite IH. apply orb_true_r.
Qed.

Lemma each_object_link_urls limit els results :
  NoDup (url <$> results) → NoDup (url <$> each_object_link limit els results).
Proof.
  revert results. induction els as [|el els IH]; intros results Hnd; simpl; [done|].
  destruct (_ >=? _); [done|]. apply IH.
  destruct (link_href el) as [href|]; [|done].
  destruct (_ && _) eqn:E; [|done].
  apply andb_prop in E as [_ Hex]. apply negb_true_iff in Hex.
  rewrite fmap_app. simpl. apply NoDup_app. split_and!; [done| |apply NoDup_singleton].
  intros u Hu ->%list_elem_of_singleton.
  apply list_elem_of_fmap in Hu as (r & Hr & Hin).
  assert (Hi : url_includes href r = true).
  { unfold url_includes. rewrite <- Hr. destruct (startsWith href "http").
    - apply includes_refl.
    - apply includes_app. }
  assert (existsb (url_includes href) results = true); [|congruence].
  apply existsb_exists. exists r. split; [|done]. by apply list_elem_of_In.
Qed.

(** X13.  The loop over the links of a MyMiniFactory page never lists
    the same URL twice. *)
Theorem myminifactory_page_lists_each_url_once (limit : Z) (els : list ObjectLink) :
  NoDup (url <$> each_object_link limit els []).
Proof. apply each_object_link_urls. simpl. apply NoDup_nil_2. Qed.

(** ** The key of the popular cache *)

Lemma split_comma_cons s : ∃ p ps, split_comma s = p :: ps.
Proof.
  induction s as [|c s (p & ps & IH)]; simpl; [by eauto|].
  rewrite IH. destruct (Ascii.eqb c ","); eauto.
Qed.

Lemma split_comma_free s :
  Forall (fun p => occurrences ","%char p = 0%nat) (split_comma s).
Proof.
  induction s as [|c s IH]; simpl; [by repeat constructor|].
  destruct (split_comma s) as [|p ps]; [by repeat constructor|].
  apply Forall_cons in IH as [Hp Hps].
  destruct (Ascii.eqb_spec c ","%char) as [->|Hc].
  - by repeat constructor.
  - constructor; [|done]. cbn [occurrences].
    destruct (Ascii.eqb_spec ","%char c) as [Heq|_]; [congruence|]. done.
Qed.

Lemma split_comma_plain s :
  occurrences ","%char s = 0%nat → split_comma s = [s].
Proof.
  induction s as [|c s IH]; [done|]. cbn [occurrences split_comma].
  destruct (Ascii.eqb_spec ","%char c) as [Heq|Hc]; [done|].
  intros ->%IH. destruct (Ascii.eqb_spec c ","%char); [congruence|done].
Qed.

Lemma split_comma_app s t :
  occurrences ","%char s = 0%nat →
  split_comma (s +:+ "," +:+ t) = s :: split_comma t.
Proof.
  induction s as [|c s IH].
  - intros _. change ("" +:+ "," +:+ t) with (String ","%char t).
    cbn [split_comma]. by destruct (split_comma_cons t) as (p & ps & ->).
  - change (String c s +:+ "," +:+ t) with (String c (s +:+ "," +:+ t)).
    cbn [occurrences split_comma].
    destruct (Ascii.eqb_spec ","%char c) as [Heq|Hc]; [done|].
    intros Hs. rewrite (IH Hs).
    destruct (Ascii.eqb_spec c ","%char); [congruence|done].
Qed.

Lemma split_join l :
  l ≠ [] → Forall (fun p => occurrences ","%char p = 0%nat) l →
  split_comma (join_comma l) = l.
Proof.
  unfold join_comma. induction l as [|x l IH]; [done|]. intros _ [Hx Hl]%Forall_cons.
  destruct l as [|y l].
  - simpl. by apply split_comma_plain.
  - change (String.concat "," (x :: y :: l))
      with (x +:+ "," +:+ String.concat "," (y :: l)).
    rewrite split_comma_app by done. by rewrite IH.
Qed.

Lemma pretty_N_char_plain d : pretty_N_char d ≠ "-"%char.
Proof. unfold pretty_N_char. by repeat case_match. Qed.

Lemma pretty_N_go_plain x s :
  occurrences "-"%char s = 0%nat → occurrences "-"%char (pretty_N_go x s) = 0%nat.
Proof.
  revert s. induction (N.lt_wf_0 x) as [x _ IH]. intros s Hs.
  destruct (decide (0 < x)%N) as [Hx|Hx].
  - rewrite pretty_N_go_step by done. apply IH.
    + by apply N.div_lt.
    + cbn [occurrences]. rewrite Hs.
      destruct (Ascii.eqb_spec "-"%char (pretty_N_char (x `mod` 10))) as [Heq|_];
        [|done].
      by destruct (pretty_N_char_plain (x `mod` 10)).
  - assert (x = 0%N) as -> by lia. by rewrite pretty_N_go_0.
Qed.

Lemma pretty_plain (n : Z) : 0 <= n → occurrences "-"%char (pretty n) = 0%nat.
Proof.
  intros Hn. destruct n as [|p|p]; [done| |lia].
  unfold pretty, pretty_Z, pretty, pretty_positive, pretty, pretty_N.
  destruct (decide (N.pos p = 0%N)); [done|]. by apply pretty_N_go_plain.
Qed.

Lemma last_dash (a b p q : string) :
  occurrences "-"%char p = 0%nat → occurrences "-"%char q = 0%nat →
  a +:+ "-" +:+ p = b +:+ "-" +:+ q → a = b ∧ p = q.
Proof.
  intros Hp Hq. revert b. induction a as [|c a IH]; intros [|d b].
  - intros H. change (String "-"%char p = String "-"%char q) in H.
    by injection H as ->.
  - change ("" +:+ "-" +:+ p) with (String "-"%char p).
    change (String d b +:+ "-" +:+ q) with (String d (b +:+ String "-"%char q)).
    intros [= <- ->].
    rewrite occurrences_app in Hp. cbn [occurrences] in Hp.
    rewrite Ascii.eqb_refl in Hp. lia.
  - change ("" +:+ "-" +:+ q) with (String "-"%char q).
    change (String c a +:+ "-" +:+ p) with (String c (a +:+ String "-"%char p)).
    intros [= -> <-].
    rewrite occurrences_app in Hq. cbn [occurrences] in Hq.
    rewrite Ascii.eqb_refl in Hq. lia.
  - change (String c a +:+ "-" +:+ p) with (String c (a +:+ "-" +:+ p)).
    change (String d b +:+ "-" +:+ q) with (String d (b +:+ "-" +:+ q)).
    intros [= -> H]. by destruct (IH _ H) as [-> ->].
Qed.

Lemma enabledSites_free siteParam :
  enabledSites siteParam ≠ []
  ∧ Forall (fun p => occurrences ","%char p = 0%nat) (enabledSites siteParam).
Proof.
  assert (Hd : default_sites ≠ []
               ∧ Forall (fun p => occurrences ","%char p = 0%nat) default_sites).
  { split; [done|]. by repeat constructor. }
  unfold enabledSites. destruct siteParam as [s|]; [|done].
  destruct (String.eqb s ""); [done|]. split; [|apply split_comma_free].
  by destruct (split_comma_cons s) as (p & ps & ->).
Qed.

Lemma cacheKey_inj (sites1 limit1 sites2 limit2 : option string) :
  0 <= searchLimit limit1 → 0 <= searchLimit limit2 →
  cacheKey sites1 limit1 = cacheKey sites2 limit2 →
  enabledSites sites1 ≡ₚ enabledSites sites2
  ∧ searchLimit limit1 = searchLimit limit2.
Proof.
  intros H1 H2 Hk. unfold cacheKey in Hk.
  apply last_dash in Hk as [Hs Hl]; [|by apply pretty_plain..].
  split; [|by apply (inj pretty)].
  assert (Hj : ∀ p, split_comma (join_comma (sort (enabledSites p)))
                    = sort (enabledSites p)).
  { intros p. destruct (enabledSites_free p) as [Hne Hf]. apply split_join.
    - intros Hnil. apply Hne. apply Permutation_nil_r. rewrite <- Hnil.
      by rewrite sort_perm.
    - by rewrite sort_perm. }
  rewrite <- (sort_perm (enabledSites sites1)), <- (sort_perm (enabledSites sites2)).
  by rewrite <- (Hj sites1), <- (Hj sites2), Hs.
Qed.

(** X14.  For limits that are not negative, two [GET /api/popular]
    requests have the same cache key exactly when they list the same
    site ids as often and have the same effective limit. *)
Theorem popular_cache_key_is_faithful
    (sites1 limit1 sites2 limit2 : option string) :
  0 <= searchLimit limit1 → 0 <= searchLimit limit2 →
  cacheKey sites1 limit1 = cacheKey sites2 limit2
  ↔ enabledSites sites1 ≡ₚ enabledSites sites2
    ∧ searchLimit limit1 = searchLimit limit2.
Proof.
  intros H1 H2. split; [by apply cacheKey_inj|].
  intros [Hs Hl]. unfold cacheKey. by rewrite (sort_permutation _ _ Hs), Hl.
Qed.

Lemma popular_cache_key_is_faithful_witness :
  cacheKey (Some "thangs,printables") (Some "30")
  = cacheKey (Some "printables,thangs") (Some "20")
  ↔ enabledSites (Some "thangs,printables") ≡ₚ enabledSites (Some "printables,thangs")
    ∧ searchLimit (Some "30") = searchLimit (Some "20").
Proof.
  apply (popular_cache_key_is_faithful
           (Some "thangs,printables") (Some "30") (Some "printables,thangs") (Some "20"));
    by vm_compute.
Defined.

(** Without the bound two different requests share a key. *)
Remark popular_cache_key_collision :
  cacheKey (Some "thangs-") (Some "5") = cacheKey (Some "thangs") (Some "-5").
Proof. reflexivity. Qed.

Lemma elem_assoc {A} (l : list (string * A)) k v :
  NoDup l.*1 → (k, v) ∈ l → assoc l k = Some v.
Proof.
  induction l as [|[k' w] l IH]; simpl; [by intros _ ?%elem_of_nil|].
  intros [Hk Hnd]%NoDup_cons [[= -> ->]|Hin]%elem_of_cons.
  - by rewrite String.eqb_refl.
  - destruct (String.eqb_spec k k') as [->|_]; [|by apply IH].
    destruct Hk. by apply (list_elem_of_fmap_2 fst) in Hin.
Qed.

Lemma table_get_Own name site :
  table_get name = Some (Own site) → assoc site_names name = Some site.
Proof.
  unfold table_get. destruct (assoc site_names name); [by intros [= ->]|].
  by destruct (inherited name).
Qed.

Lemma json_elem obj kv : kv ∈ json obj → kv ∈ obj.
Proof.
  unfold json. intros Hin. apply list_elem_of_In, filter_In in Hin as [Hin _].
  by apply list_elem_of_In.
Qed.

(** What holds of every adapter's array, and of the empty array, holds of
    every array in the assembled object. *)
Lemma fan_out_entries (P : string → list NormalizedRecord → Prop)
    (run : nat → Site → option (list NormalizedRecord)) arg sites :
  (∀ k, P k []) →
  (∀ i site rs, run i site = Some rs → P (site_id site) rs) →
  ∀ k rs,
    (k, VRecords rs) ∈ assemble (fan_out (fun i => call_member (run i) arg) sites) →
    P k rs.
Proof.
  intros Hnil Hrun k rs Hin.
  assert (Hk : k ∈ (assemble (fan_out (fun i => call_member (run i) arg) sites)).*1).
  { by apply (list_elem_of_fmap_2 fst) in Hin. }
  apply assemble_keys in Hk as [Hk Hproto]. rewrite fan_out_keys in Hk.
  apply elem_assoc in Hin; [|apply assemble_NoDup].
  rewrite assoc_assemble in Hin by done. unfold fan_out in Hin.
  destruct (assoc_reverse_imap
              (fun i s => settle (table_get s ≫= call_member (run i) arg))
              (called sites) k Hk) as (i & _ & _ & Hv).
  rewrite Hv in Hin. injection Hin as Hin.
  apply called_elem in Hk as [_ [p Hp]]. rewrite Hp in Hin. simpl in Hin.
  destruct p as [site|member]; simpl in Hin.
  - apply table_get_Own, site_names_inv in Hp as ->.
    destruct (run i site) as [rs'|] eqn:E; simpl in Hin.
    + injection Hin as <-. by eapply Hrun.
    + injection Hin as <-. apply Hnil.
  - destruct member, arg; simpl in Hin;
      repeat match type of Hin with
             | context [if ?b then _ else _] => destruct b; simpl in Hin
             end;
      try discriminate; injection Hin as <-; apply Hnil.
Qed.

Lemma filed_json obj : filed obj → filed (json obj).
Proof. intros H k rs Hin%json_elem. by apply H. Qed.

Lemma truncated_json limit obj : truncated limit obj → truncated limit (json obj).
Proof. intros H k rs Hin%json_elem. by apply H. Qed.

(** What a record loses on the way to the client: a name that the
    upstream gives as [1e999] is kept by [item.name || 'Untitled'] and
    sent as [null]. *)
Remark a_number_beyond_doubles_is_sent_as_null :
  ∃ r, printables_record (JObj [("id", JNum 1); ("name", JInf false)]) = Some r
       ∧ title r = JInf false ∧ sent (title r) = JNull.
Proof. eexists. split; [reflexivity|]. split; reflexivity. Qed.

Lemma truthy_legible v : truthy v = true → legible v.
Proof. intros H. destruct v; try (by left); by right. Qed.

Lemma present_sent v : nullish v = false → present v.
Proof. intros H. destruct v; try (by left); by right. Qed.

Lemma complete_displayable id r : complete id r → displayable id r.
Proof.
  intros (Hs & Ht & Hc & Hu & Hth & Hl & Hd).
  split_and!; auto using truthy_legible, present_sent.
Qed.

Lemma search_fan_out_filed key q limit page net sites :
  filed (assemble (fan_out (fun i => call_search key q limit page (net i)) sites)).
Proof.
  intros k rs. unfold call_search.
  apply (fan_out_entries (fun k rs => Forall (displayable k) rs)
           (fun i site => Some (searchFunctions key site q limit page (net i)))).
  - by constructor.
  - intros i site rs' [= <-].
    eapply Forall_impl; [apply searchFunctions_shown|]. apply complete_displayable.
Qed.

Lemma popular_fan_out_filed key gt0 limit net sites :
  filed (assemble (fan_out (fun i => call_popular key gt0 limit (net i)) sites)).
Proof.
  intros k rs. unfold call_popular.
  apply (fan_out_entries (fun k rs => Forall (displayable k) rs)
           (fun i site => Some (fetchFunctions key gt0 site limit (net i)))).
  - by constructor.
  - intros i site rs' [= <-].
    eapply Forall_impl; [apply fetchFunctions_shown|]. apply complete_displayable.
Qed.

Lemma site_id_inj site name : site_id site = name → assoc site_names name = Some site.
Proof. intros <-. by destruct site. Qed.

Lemma search_fan_out_truncated key q limit page net sites :
  0 <= limit →
  truncated limit
    (assemble (fan_out (fun i => call_search key q limit page (net i)) sites)).
Proof.
  intros Hl k rs. unfold call_search.
  apply (fan_out_entries
           (fun k rs => k ≠ "printables" → k ≠ "crealitycloud" →
                        Z.of_nat (length rs) <= limit)
           (fun i site => Some (searchFunctions key site q limit page (net i)))).
  - by intros.
  - intros i site rs' [= <-] Hp Hc.
    apply searchFunctions_length; [done|by intros ->..].
Qed.

Lemma popular_fan_out_truncated key gt0 limit net sites :
  0 <= limit →
  truncated limit
    (assemble (fan_out (fun i => call_popular key gt0 limit (net i)) sites)).
Proof.
  intros Hl k rs. unfold call_popular.
  apply (fan_out_entries
           (fun k rs => k ≠ "printables" → k ≠ "crealitycloud" →
                        Z.of_nat (length rs) <= limit)
           (fun i site => Some (fetchFunctions key gt0 site limit (net i)))).
  - by intros.
  - intros i site rs' [= <-] Hp Hc.
    apply fetchFunctions_length; [done|by intros ->..].
Qed.

(** X15.  In every [GET /api/search] response, each array of records
    holds only records tagged with the id it is filed under; as the
    client reads them, the title, the creator and the link of each are
    truthy and no other field is [null] or missing, a field apart for
    which the upstream sent a number beyond the range of doubles: the
    adapter holds [Infinity] there and [res.json] writes [null]. *)
Theorem search_responses_are_filed
    (key : string) (q siteParam limit page : option string) (net : nat → SearchNet) :
  missing q = false →
  ∃ results,
    fst (search key q siteParam limit page net)
    = {| status := 200;
         body := SearchBody (searchPage page) (searchLimit limit) results |}
    ∧ filed results.
Proof.
  intros Hq. unfold search, search_with. rewrite Hq. simpl.
  eexists. split; [reflexivity|]. apply filed_json, search_fan_out_filed.
Qed.

(** X16.  When the effective limit is not negative, no array of a
    [GET /api/search] response filed under an id other than
    [printables] and [crealitycloud] is longer than the limit. *)
Theorem search_responses_are_truncated
    (key : string) (q siteParam limit page : option string) (net : nat → SearchNet) :
  missing q = false →
  0 <= searchLimit limit →
  ∃ results,
    fst (search key q siteParam limit page net)
    = {| status := 200;
         body := SearchBody (searchPage page) (searchLimit limit) results |}
    ∧ truncated (searchLimit limit) results.
Proof.
  intros Hq Hl. unfold search, search_with. rewrite Hq. simpl.
  eexists. split; [reflexivity|]. by apply truncated_json, search_fan_out_truncated.
Qed.

(** What holds of every response that is fetched, under its key, holds of
    everything in the cache. *)
Lemma serve_stores (Q : string → list (string * Value) → Prop)
    key gt0 cache (r : PopularRequest) :
  Q (cacheKey (pr_sites r) (pr_limit r))
    (assemble (fan_out (fun i => call_popular key gt0 (searchLimit (pr_limit r))
                                   (pr_net r i))
                 (sort (enabledSites (pr_sites r))))) →
  (∀ k obj, data cache ≫= (fun d => d !! k) = Some obj → Q k obj) →
  ∀ k obj, data (serve key gt0 cache r) ≫= (fun d => d !! k) = Some obj → Q k obj.
Proof.
  intros Hnew Hold k obj. unfold serve, popular, popular_with.
  destruct (cached_popular _ _ _); simpl; [apply Hold|].
  rewrite lookup_insert. case_decide as Hk.
  - subst k. by intros [= <-].
  - intros Hl. apply Hold. by destruct (data cache).
Qed.

Lemma cached_popular_Some cache k now obj :
  cached_popular cache k now = Some obj → data cache ≫= (fun d => d !! k) = Some obj.
Proof.
  unfold cached_popular. destruct (data cache ≫= _); [|done].
  by destruct (_ <? _).
Qed.

(** X17.  Whatever requests [GET /api/popular] has served since the
    start, each array of records in its response, fetched or taken from
    the cache, holds only records tagged with the id it is filed under;
    as the client reads them, the title, the creator and the link of
    each are truthy and no other field is [null] or missing, a field
    apart for which the upstream sent a number beyond the range of
    doubles: the adapter holds [Infinity] there and [res.json] writes
    [null]. *)
Theorem popular_responses_are_filed
    (key : string) (string_gt0 : string → bool) (rs : list PopularRequest)
    (siteParam limit : option string) (now now' : Z) (net : nat → PopularNet) :
  ∃ results,
    fst (fst (popular key string_gt0 siteParam limit now now' net
                (serve_all key string_gt0 popularCache rs)))
    = {| status := 200; body := PopularBody results |}
    ∧ filed results.
Proof.
  assert (Hinv : ∀ cache,
            (∀ k obj, data cache ≫= (fun d => d !! k) = Some obj → filed obj) →
            ∀ k obj, data (serve_all key string_gt0 cache rs) ≫= (fun d => d !! k)
                     = Some obj → filed obj).
  { induction rs as [|r rs IH]; intros cache Hc; simpl; [done|].
    apply IH. apply (serve_stores (fun _ obj => filed obj)); [|done].
    apply popular_fan_out_filed. }
  specialize (Hinv popularCache (fun k obj H => ltac:(done))).
  unfold popular, popular_with.
  destruct (cached_popular _ _ _) as [cached|] eqn:E; simpl.
  - eexists. split; [reflexivity|]. apply filed_json.
    by eapply Hinv, cached_popular_Some.
  - eexists. split; [reflexivity|]. apply filed_json, popular_fan_out_filed.
Qed.

(** X18.  When no request served by [GET /api/popular] since the start
    had a negative effective limit, no array of a response, fetched or
    taken from the cache, filed under an id other than [printables] and
    [crealitycloud] is longer than the limit of the request. *)
Theorem popular_responses_are_truncated
    (key : string) (string_gt0 : string → bool) (rs : list PopularRequest)
    (siteParam limit : option string) (now now' : Z) (net : nat → PopularNet) :
  Forall (fun r => 0 <= searchLimit (pr_limit r)) rs →
  0 <= searchLimit limit →
  ∃ results,
    fst (fst (popular key string_gt0 siteParam limit now now' net
                (serve_all key string_gt0 popularCache rs)))
    = {| status := 200; body := PopularBody results |}
    ∧ truncated (searchLimit limit) results.
Proof.
  intros Hrs Hl.
  pose (Q := fun (k : string) (obj : list (string * Value)) =>
               ∃ s l, k = cacheKey s l ∧ 0 <= searchLimit l
                      ∧ truncated (searchLimit l) obj).
  assert (Hinv : ∀ cache,
            (∀ k obj, data cache ≫= (fun d => d !! k) = Some obj → Q k obj) →
            ∀ k obj, data (serve_all key string_gt0 cache rs) ≫= (fun d => d !! k)
                     = Some obj → Q k obj).
  { induction Hrs as [|r rs Hr Hrs IH]; intros cache Hc; simpl; [done|].
    apply IH. apply (serve_stores Q); [|done].
    exists (pr_sites r), (pr_limit r). split_and!; [done..|].
    by apply popular_fan_out_truncated. }
  specialize (Hinv popularCache (fun k obj H => ltac:(done))).
  unfold popular, popular_with.
  destruct (cached_popular _ _ _) as [cached|] eqn:E; simpl.
  - eexists. split; [reflexivity|]. apply truncated_json.
    apply cached_popular_Some, Hinv in E as (s & l & Hk & Hl' & Ht).
    apply cacheKey_inj in Hk as [_ ->]; done.
  - eexists. split; [reflexivity|].
    by apply truncated_json, popular_fan_out_truncated.
Qed.

Lemma search_responses_are_filed_witness :
  ∃ results,
    fst (search Samples.no_key (Some "benchy") (Some "printables,toString") (Some "1")
           None (fun _ => Samples.printables_online))
    = {| status := 200; body := SearchBody 1 1 results |}
    ∧ filed results.
Proof.
  apply (search_responses_are_filed Samples.no_key (Some "benchy")
           (Some "printables,toString") (Some "1") None
           (fun _ => Samples.printables_online)).
  reflexivity.
Defined.

Lemma search_responses_are_truncated_witness :
  ∃ results,
    fst (search Samples.no_key (Some "benchy") (Some "thangs,printables") (Some "1")
           None (fun _ => Samples.printables_online))
    = {| status := 200; body := SearchBody 1 1 results |}
    ∧ truncated 1 results.
Proof.
  apply (search_responses_are_truncated Samples.no_key (Some "benchy")
           (Some "thangs,printables") (Some "1") None
           (fun _ => Samples.printables_online)).
  - reflexivity.
  - by vm_compute.
Defined.

Lemma popular_responses_are_truncated_witness :
  ∃ results,
    fst (fst (popular Samples.no_key Samples.never (Some "thangs") (Some "3")
                2000 2000 (fun _ => Samples.popular_offline)
                (serve_all Samples.no_key Samples.never popularCache
                   [ {| pr_sites := Some "thangs"; pr_limit := Some "3";
                        pr_now := 1000; pr_now' := 1000;
                        pr_net := fun _ => Samples.popular_offline |} ])))
    = {| status := 200; body := PopularBody results |}
    ∧ truncated 3 results.
Proof.
  apply (popular_responses_are_truncated Samples.no_key Samples.never
           [ {| pr_sites := Some "thangs"; pr_limit := Some "3";
                pr_now := 1000; pr_now' := 1000;
                pr_net := fun _ => Samples.popular_offline |} ]
           (Some "thangs") (Some "3") 2000 2000 (fun _ => Samples.popular_offline)).
  - constructor; [by vm_compute|constructor].
  - by vm_compute.
Defined.

(** X19.  When no requested id is the name of a member that objects
    inherit, the keys of a [GET /api/search] response, and of a
    [GET /api/popular] response that is fetched, are the requested ids
    that are keys of the adapter table, each once. *)
Theorem plain_requests_answer_recognized_sites
    (key : string) (string_gt0 : string → bool)
    (q siteParam limit page : option string) (net : nat → SearchNet)
    (now now' : Z) (pnet : nat → PopularNet) (cache : PopularCache) :
  missing q = false →
  cached_popular cache (cacheKey siteParam limit) now = None →
  Forall (fun s => inherited s = None) (enabledSites siteParam) →
  ∃ found fetched,
    body (fst (search key q siteParam limit page net))
    = SearchBody (searchPage page) (searchLimit limit) found
    ∧ body (fst (fst (popular key string_gt0 siteParam limit now now' pnet cache)))
      = PopularBody fetched
    ∧ NoDup found.*1 ∧ NoDup fetched.*1
    ∧ ∀ k, (k ∈ found.*1 ↔ k ∈ enabledSites siteParam ∧ k ∈ site_names.*1)
           ∧ (k ∈ fetched.*1 ↔ k ∈ enabledSites siteParam ∧ k ∈ site_names.*1).
Proof.
  intros Hq Hmiss Hplain. rewrite Forall_forall in Hplain.
  assert (Hs : ∀ k, is_Some (assoc site_names k) ↔ k ∈ site_names.*1).
  { intros k. rewrite <- not_eq_None_Some, assoc_None_keys. split.
    - intros H. by destruct (decide (k ∈ site_names.*1)).
    - tauto. }
  exists (json (assemble (fan_out
            (fun i => call_search key (default "" q) (searchLimit limit)
                        (searchPage page) (net i)) (enabledSites siteParam)))),
         (json (assemble (fan_out
            (fun i => call_popular key string_gt0 (searchLimit limit) (pnet i))
            (sort (enabledSites siteParam))))).
  split_and!.
  - unfold search, search_with. by rewrite Hq.
  - unfold popular. by rewrite popular_with_miss.
  - apply json_NoDup, assemble_NoDup.
  - apply json_NoDup, assemble_NoDup.
  - intros k. rewrite <- Hs. split.
    + by apply (fan_out_keys_plain
                  (fun i site => searchFunctions key site (default "" q)
                                   (searchLimit limit) (searchPage page) (net i))).
    + etrans.
      * apply (fan_out_keys_plain
                 (fun i site => fetchFunctions key string_gt0 site (searchLimit limit)
                                  (pnet i))).
        intros s Hin. apply Hplain. by rewrite <- sort_perm.
      * by rewrite sort_perm.
Qed.

Lemma plain_requests_answer_recognized_sites_witness :
  ∃ found fetched,
    body (fst (search Samples.no_key (Some "benchy") (Some "thangs,nosuchsite,thangs")
                 None None (fun _ => Samples.offline)))
    = SearchBody 1 10 found
    ∧ body (fst (fst (popular Samples.no_key Samples.never
                        (Some "thangs,nosuchsite,thangs") None 1000 1000
                        (fun _ => Samples.popular_offline) popularCache)))
      = PopularBody fetched
    ∧ NoDup found.*1 ∧ NoDup fetched.*1
    ∧ ∀ k, (k ∈ found.*1
            ↔ k ∈ enabledSites (Some "thangs,nosuchsite,thangs") ∧ k ∈ site_names.*1)
           ∧ (k ∈ fetched.*1
              ↔ k ∈ enabledSites (Some "thangs,nosuchsite,thangs")
                ∧ k ∈ site_names.*1).
Proof.
  apply (plain_requests_answer_recognized_sites Samples.no_key Samples.never
           (Some "benchy") (Some "thangs,nosuchsite,thangs") None None
           (fun _ => Samples.offline) 1000 1000 (fun _ => Samples.popular_offline)
           popularCache).
  - reflexivity.
  - reflexivity.
  - repeat constructor.
Defined.

End ResponseProperties.

Section BurstProperties.
Import Uri ImageProxy Invariants.

Lemma pretty_N_go_free c x s :
  (∀ d, pretty_N_char d ≠ c) →
  occurrences c s = 0%nat → occurrences c (pretty_N_go x s) = 0%nat.
Proof.
  intros Hc. revert s. induction (N.lt_wf_0 x) as [x _ IH]. intros s Hs.
  destruct (decide (0 < x)%N) as [Hx|Hx].
  - rewrite pretty_N_go_step by done. apply IH.
    + by apply N.div_lt.
    + cbn [occurrences]. rewrite Hs.
      destruct (Ascii.eqb_spec c (pretty_N_char (x `mod` 10))) as [Heq|_]; [|done].
      by destruct (Hc (x `mod` 10)%N).
  - assert (x = 0%N) as -> by lia. by rewrite pretty_N_go_0.
Qed.

Lemma burst_url_plain (i : nat) :
  decodeURIComponent ("https://cdn.example/" +:+ pretty i)
  = Some ("https://cdn.example/" +:+ pretty i).
Proof.
  apply decode_plain. rewrite occurrences_app.
  assert (occurrences "%"%char (pretty i) = 0%nat) as ->; [|done].
  unfold pretty, pretty_nat, pretty, pretty_N.
  destruct (decide (N.of_nat i = 0%N)); [done|]. apply pretty_N_go_free; [|done].
  intros d. unfold pretty_N_char. by repeat case_match.
Qed.

Lemma clean_fresh now (m : gmap string CachedImage) :
  (∀ k e, m !! k = Some e → ¬ stale now e) → clean now m = m.
Proof.
  intros Hm. apply map_eq. intros k. apply option_eq. intros e.
  rewrite lookup_clean. split; [by intros [? _]|]. intros He. split; [done|].
  by eapply Hm.
Qed.

Lemma burst_fills (t : Z) (n : nat) :
  size (serve_all ∅ (burst t n)) = n
  ∧ ∀ k e, serve_all ∅ (burst t n) !! k = Some e →
           timestamp e = t ∧ ∃ j, (j < n)%nat ∧ k = "https://cdn.example/" +:+ pretty j.
Proof.
  induction n as [|n [Hsize Hm]].
  - split; [done|]. intros k e. simpl. by rewrite lookup_empty.
  - unfold burst, serve_all in *. rewrite seq_S, fmap_app, foldl_app.
    cbn [fmap list_fmap foldl Nat.add].
    set (m := foldl serve ∅ _) in *.
    set (u := "https://cdn.example/" +:+ pretty n).
    assert (Hnew : m !! u = None).
    { destruct (m !! u) as [e|] eqn:E; [|done].
      destruct (Hm _ _ E) as [_ (j & Hj & Hu)].
      apply (inj (String.app _)), (inj pretty) in Hu. lia. }
    unfold serve. cbn [ir_url ir_now ir_now' ir_now'' ir_reply].
    rewrite (image_stored (Some u) u t t t 200 Samples.png m).
    2: { unfold u. simpl. done. }
    2: { apply burst_url_plain. }
    2: { reflexivity. }
    2: { unfold cached_image. by rewrite Hnew. }
    2: { reflexivity. }
    cbn [fst snd].
    set (ins := <[u := _]> m).
    assert (Hins : ∀ k e, ins !! k = Some e →
              timestamp e = t
              ∧ ∃ j, (j < S n)%nat ∧ k = "https://cdn.example/" +:+ pretty j).
    { intros k e. unfold ins. rewrite lookup_insert. case_decide as Hk.
      - intros [= <-]. subst k. split; [done|]. exists n. split; [lia|done].
      - intros [Ht (j & Hj & ->)]%Hm. split; [done|]. exists j. split; [lia|done]. }
    assert (Hclean : clean t ins = ins).
    { apply clean_fresh. intros k e [Ht _]%Hins. unfold stale, IMAGE_CACHE_TTL. lia. }
    assert ((if 100 <? Z.of_nat (size ins) then clean t ins else ins) = ins) as ->.
    { by destruct (_ <? _). }
    split; [|done]. unfold ins. rewrite map_size_insert_None by done. by rewrite Hsize.
Qed.

(** X20.  The cleanup does not bound the image cache: after a burst of
    [n] requests for [n] different images, all answered by the upstream
    within the time to live, the cache holds [n] entries, for every
    [n]. *)
Theorem image_cache_is_not_bounded (t : Z) (n : nat) :
  length (burst t n) = n ∧ size (serve_all ∅ (burst t n)) = n.
Proof.
  split.
  - unfold burst. by rewrite length_fmap, length_seq.
  - apply burst_fills.
Qed.

End BurstProperties.
